(** * PetSync: a shallow embedding of the Apps Script sources

    The development follows the files of the project:
    - [Config]          (Config.gs): defaults, overrides, deep merge, validation
                        and the read accessors;
    - [UtilityService]  (UtilityService.gs): logging, response validation and
                        the HTTP helper; [Text] has its [sanitizeString];
    - [Code]            (Code.gs): the sync entry point, the sheet writer and
                        the trigger helpers; [Schedule] has its
                        [setupTimeTrigger];
    - [Sidebar]         (SidebarClient.js): the handlers of the sidebar page.

    JavaScript data is represented by the inductive type [value]; the host
    (properties, spreadsheet, triggers, HTTP transport, logger, clock) is an
    explicit [world] threaded through a state-and-exception monad.

    Conventions of the embedding
    - Numbers are the integers ([Z]): the code only builds and compares
      status codes, counts, durations and timeouts.
    - An object is the ordered list of its own properties; the order of the
      list is the enumeration order of [Object.keys].  Well-formed objects
      carry each key once.
    - Host built-ins whose behaviour the sources rely on but do not define
      ([JSON.parse], [JSON.stringify], [String.prototype.toUpperCase], the
      A1-notation reader behind [Sheet.getRange]) are the fields of the
      class [Host].
    - The third outcome [OutOfFragment] marks the few runs that leave the
      part of JavaScript represented here (a prototype being replaced, a
      property written on an array, arithmetic on [undefined]).  No theorem
      below draws a conclusion from it. *)

From Stdlib Require Import ZArith List String Ascii Bool Lia DecimalString.
From stdpp Require Import base gmap strings list.

Local Open Scope string_scope.
Local Open Scope list_scope.

(** ** JavaScript values *)

#[local] Unset Elimination Schemes.

Inductive value : Type :=
| VUndefined
| VNull
| VBool (b : bool)
| VNum (n : Z)
| VStr (s : string)
| VArr (elems : list value)
| VObj (props : list (string * value)).

#[local] Set Elimination Schemes.

(** What a [throw] carries: an [Error] instance (its [name] and [message])
    or any other value. *)
Inductive thrown : Type :=
| Err (name message : string)
| Raw (v : value).

Inductive outcome (A : Type) : Type :=
| Ok (a : A)
| Throw (t : thrown)
| OutOfFragment.

Arguments Ok {A} a.
Arguments Throw {A} t.
Arguments OutOfFragment {A}.

Definition obind {A B} (c : outcome A) (k : A -> outcome B) : outcome B :=
  match c with
  | Ok a => k a
  | Throw t => Throw t
  | OutOfFragment => OutOfFragment
  end.

Notation "x <~ c ;; k" := (obind c (fun x => k))
  (at level 100, c at next level, right associativity).

Definition is_ok {A} (c : outcome A) : bool :=
  match c with Ok _ => true | _ => false end.

Definition is_throw {A} (c : outcome A) : bool :=
  match c with Throw _ => true | _ => false end.

Definition dquote : string := String "034"%char EmptyString.

Definition string_of_Z (n : Z) : string := NilZero.string_of_int (Z.to_int n).

(** The canonical numeric key of an array index. *)
Definition index_key (i : nat) : string := NilZero.string_of_uint (Nat.to_uint i).

Definition typeof (v : value) : string :=
  match v with
  | VUndefined => "undefined"
  | VNull => "object"
  | VBool _ => "boolean"
  | VNum _ => "number"
  | VStr _ => "string"
  | VArr _ => "object"
  | VObj _ => "object"
  end.

Definition isArray (v : value) : bool :=
  match v with VArr _ => true | _ => false end.

(** ToBoolean. *)
Definition truthy (v : value) : bool :=
  match v with
  | VUndefined => false
  | VNull => false
  | VBool b => b
  | VNum n => negb (Z.eqb n 0)
  | VStr s => negb (String.eqb s "")
  | VArr _ => true
  | VObj _ => true
  end.

Definition is_undefined (v : value) : bool :=
  match v with VUndefined => true | _ => false end.

(** Own properties of a plain object. *)
Fixpoint lookup_own (m : list (string * value)) (k : string) : option value :=
  match m with
  | [] => None
  | (k', v) :: m' => if String.eqb k k' then Some v else lookup_own m' k
  end.

Definition has_own (m : list (string * value)) (k : string) : bool :=
  match lookup_own m k with Some _ => true | None => false end.

Fixpoint replace_own (m : list (string * value)) (k : string) (v : value)
  : list (string * value) :=
  match m with
  | [] => []
  | (k', v') :: m' =>
      if String.eqb k k' then (k', v) :: m' else (k', v') :: replace_own m' k v
  end.

(** Own enumerable string-keyed properties, in [Object.keys] order, of a
    value that is not [null] or [undefined]. *)
Fixpoint indexed_from (i : nat) (l : list value) : list (string * value) :=
  match l with
  | [] => []
  | x :: l' => (index_key i, x) :: indexed_from (S i) l'
  end.

Definition chars_of (s : string) : list value :=
  map (fun c => VStr (String c EmptyString)) (list_ascii_of_string s).

Definition own_entries (v : value) : list (string * value) :=
  match v with
  | VObj m => m
  | VArr l => indexed_from 0 l
  | VStr s => indexed_from 0 (chars_of s)
  | _ => []
  end.

(** [v.k] for a fixed name [k] that no prototype defines; [v] is not
    [null] or [undefined] (see [read] for the checked form). *)
Definition get (v : value) (k : string) : value :=
  match v with
  | VObj m => match lookup_own m k with Some x => x | None => VUndefined end
  | VArr l =>
      if String.eqb k "length" then VNum (Z.of_nat (length l))
      else match lookup_own (indexed_from 0 l) k with
           | Some x => x | None => VUndefined end
  | VStr s =>
      if String.eqb k "length" then VNum (Z.of_nat (String.length s))
      else match lookup_own (indexed_from 0 (chars_of s)) k with
           | Some x => x | None => VUndefined end
  | _ => VUndefined
  end.

Definition read (v : value) (k : string) : outcome value :=
  match v with
  | VUndefined | VNull =>
      Throw (Err "TypeError" ("Cannot read properties of null or undefined (reading '" +:+ k +:+ "')"))
  | _ => Ok (get v k)
  end.

(** The names every plain object inherits from [Object.prototype]. *)
Definition object_prototype_names : list string :=
  [ "constructor"; "__defineGetter__"; "__defineSetter__"; "hasOwnProperty";
    "__lookupGetter__"; "__lookupSetter__"; "isPrototypeOf";
    "propertyIsEnumerable"; "toString"; "valueOf"; "__proto__";
    "toLocaleString" ].

Definition inherited_name (k : string) : bool :=
  existsb (String.eqb k) object_prototype_names.

(** [target[k] = v] in strict code. *)
Definition set_prop (target : value) (k : string) (v : value) : outcome value :=
  match target with
  | VObj m =>
      if has_own m k then Ok (VObj (replace_own m k v))
      else if String.eqb k "__proto__" then
        (* the inherited setter: a primitive is ignored, an object or null
           would replace the prototype *)
        match v with
        | VNull | VArr _ | VObj _ => OutOfFragment
        | _ => Ok target
        end
      else Ok (VObj (m ++ [(k, v)]))
  | VArr _ => OutOfFragment
  | VUndefined | VNull =>
      Throw (Err "TypeError" ("Cannot set properties of null or undefined (setting '" +:+ k +:+ "')"))
  | _ => Throw (Err "TypeError" ("Cannot create property '" +:+ k +:+ "' on a primitive value"))
  end.

(** ToString.  An object that carries an own (hence non-callable)
    [toString] cannot be converted: [None] stands for the TypeError. *)
Fixpoint to_string (v : value) : option string :=
  match v with
  | VUndefined => Some "undefined"
  | VNull => Some "null"
  | VBool true => Some "true"
  | VBool false => Some "false"
  | VNum n => Some (string_of_Z n)
  | VStr s => Some s
  | VArr l =>
      (fix join (l : list value) : option string :=
         match l with
         | [] => Some ""
         | x :: l' =>
             match (match x with
                    | VUndefined | VNull => Some ""
                    | _ => to_string x
                    end), join l' with
             | Some s, Some r =>
                 Some (match l' with [] => s | _ => s +:+ "," +:+ r end)
             | _, _ => None
             end
         end) l
  | VObj m => if has_own m "toString" then None else Some "[object Object]"
  end.

Definition ToString (v : value) : outcome string :=
  match to_string v with
  | Some s => Ok s
  | None => Throw (Err "TypeError" "Cannot convert object to primitive value")
  end.

(** [JSON.parse(JSON.stringify(v))] computed on values: properties holding
    [undefined] disappear, [undefined] array elements become [null]. *)
Fixpoint json_value (v : value) : value :=
  match v with
  | VArr l =>
      VArr (map (fun x => match x with
                          | VUndefined => VNull
                          | _ => json_value x
                          end) l)
  | VObj m =>
      VObj ((fix props (m : list (string * value)) : list (string * value) :=
               match m with
               | [] => []
               | (k, x) :: m' =>
                   match x with
                   | VUndefined => props m'
                   | _ => (k, json_value x) :: props m'
                   end
               end) m)
  | _ => v
  end.

Definition json_clone (v : value) : outcome value :=
  match v with
  | VUndefined =>
      Throw (Err "SyntaxError" (dquote +:+ "undefined" +:+ dquote +:+ " is not valid JSON"))
  | _ => Ok (json_value v)
  end.

(** ** The host *)

(** A rectangle of cells as [Sheet.getRange] resolves it: the top-left cell
    (1-based) and the extent; [None] is an open end such as the rows of
    [A2:Z]. *)
Record range : Type := {
  top : nat;
  left : nat;
  height : option nat;
  width : option nat
}.

(** Built-ins of the runtime the sources call but do not define. *)
Class Host : Type := {
  (** [JSON.parse] on a string; [None] is its SyntaxError. *)
  JSON_parse : string -> option value;
  (** The message of that SyntaxError. *)
  JSON_parse_error : string -> string;
  (** [JSON.stringify]; [None] is the result [undefined]. *)
  JSON_stringify : value -> option string;
  (** [String.prototype.toUpperCase]. *)
  toUpperCase : string -> string;
  (** The reader of A1 notation; [None] when the host rejects the text. *)
  a1_range : string -> option range
}.

(** ** Config.gs *)

Module Config.

Definition DEFAULTS : value :=
  VObj [ ("apiUrl", VStr "https://api.example.com/petsync");
         ("apiKey", VStr "");
         ("endpoints", VObj [ ("fetchPets", VStr "/pets");
                              ("fetchOwners", VStr "/owners") ]);
         ("sheetName", VStr "Pets");
         ("fullRefreshRange", VStr "A2:Z");
         ("incrementalRefreshRange", VStr "A2:Z");
         ("triggerName", VStr "PetSync_FetchData") ].

(** [Object.assign(target, source)]: every own enumerable property of the
    source is written on the target; [null] and [undefined] sources are
    skipped. *)
Fixpoint assign_entries (target : value) (es : list (string * value)) : outcome value :=
  match es with
  | [] => Ok target
  | (k, v) :: es' => t <~ set_prop target k v ;; assign_entries t es'
  end.

Definition object_assign (target source : value) : outcome value :=
  assign_entries target (own_entries source).

Definition properties_object (ps : list (string * string)) : value :=
  VObj (map (fun '(k, s) => (k, VStr s)) ps).

(** What [merged[key]] finds on a plain object when [key] is computed. *)
Inductive dyn_read : Type :=
| Own (v : value)
| Inherited
| Absent.

Definition read_dyn (m : list (string * value)) (k : string) : dyn_read :=
  match lookup_own m k with
  | Some v => Own v
  | None => if inherited_name k then Inherited else Absent
  end.

(** One iteration of the [forEach] of [mergeConfig]; [recur d] is
    [mergeConfig(d, overrides[key])]. *)
Definition merge_entry (recur : value -> outcome value)
  (merged : value) (key : string) (ov : value) : outcome value :=
  match ov with
  | VUndefined => Ok merged
  | VNull | VObj _ =>
      match merged with
      | VObj m =>
          match read_dyn m key with
          | Own d =>
              if truthy d then r <~ recur d ;; set_prop merged key r
              else set_prop merged key ov
          | Absent => set_prop merged key ov
          | Inherited =>
              if String.eqb key "__proto__" then OutOfFragment
              else
                (* an inherited method is truthy and has no JSON text *)
                Throw (Err "SyntaxError" (dquote +:+ "undefined" +:+ dquote +:+ " is not valid JSON"))
          end
      | VUndefined | VNull =>
          Throw (Err "TypeError" ("Cannot read properties of null or undefined (reading '" +:+ key +:+ "')"))
      | _ => OutOfFragment
      end
  | _ => set_prop merged key ov
  end.

Fixpoint mergeConfig (defaults overrides : value) {struct overrides} : outcome value :=
  merged0 <~ json_clone defaults ;;
  match overrides with
  | VUndefined | VNull =>
      Throw (Err "TypeError" "Cannot convert undefined or null to object")
  | VObj props =>
      (fix each (ps : list (string * value)) (merged : value) : outcome value :=
         match ps with
         | [] => Ok merged
         | (key, ov) :: ps' =>
             merged' <~ merge_entry (fun d => mergeConfig d ov) merged key ov ;;
             each ps' merged'
         end) props merged0
  | VArr elems =>
      (fix each (i : nat) (es : list value) (merged : value) : outcome value :=
         match es with
         | [] => Ok merged
         | ov :: es' =>
             merged' <~ merge_entry (fun d => mergeConfig d ov) merged (index_key i) ov ;;
             each (S i) es' merged'
         end) 0%nat elems merged0
  | VStr s => assign_entries merged0 (indexed_from 0 (chars_of s))
  | VBool _ | VNum _ => Ok merged0
  end.

(** The [forEach] of [mergeConfig] over the entries of a plain
    [overrides] object, as a function of its own (see
    [mergeConfig_entries]). *)
Fixpoint merge_entries (ps : list (string * value)) (merged : value) : outcome value :=
  match ps with
  | [] => Ok merged
  | (key, ov) :: ps' =>
      merged' <~ merge_entry (fun d => mergeConfig d ov) merged key ov ;;
      merge_entries ps' merged'
  end.

Definition http_url (s : string) : bool :=
  String.prefix "http://" s || String.prefix "https://" s.

Definition fail {A} (message : string) : outcome A := Throw (Err "Error" message).

(** The [forEach] over [Object.keys(config.endpoints)]. *)
Fixpoint validate_endpoints (es : list (string * value)) : outcome unit :=
  match es with
  | [] => Ok tt
  | (name, path) :: es' =>
      match path with
      | VStr p =>
          if String.eqb p "" then
            fail ("Config validation failed: endpoint " +:+ dquote +:+ name +:+ dquote +:+ " must be a non-empty string")
          else if negb (String.prefix "/" p) then
            fail ("Config validation failed: endpoint " +:+ dquote +:+ name +:+ dquote +:+ " should start with " +:+ dquote +:+ "/" +:+ dquote)
          else validate_endpoints es'
      | _ =>
          fail ("Config validation failed: endpoint " +:+ dquote +:+ name +:+ dquote +:+ " must be a non-empty string")
      end
  end.

Definition nonempty_string (v : value) : bool :=
  truthy v && String.eqb (typeof v) "string".

Definition validate (config : value) : outcome unit :=
  apiUrl <~ read config "apiUrl" ;;
  if negb (truthy apiUrl) || negb (String.eqb (typeof apiUrl) "string")
     || negb (match apiUrl with VStr s => http_url s | _ => false end)
  then fail "Config validation failed: apiUrl must be a valid HTTP(S) URL"
  else
  if negb (nonempty_string (get config "apiKey"))
  then fail "Config validation failed: apiKey is required and must be a string"
  else
  if negb (truthy (get config "endpoints"))
     || negb (String.eqb (typeof (get config "endpoints")) "object")
  then fail "Config validation failed: endpoints must be an object"
  else
  _ <~ validate_endpoints (own_entries (get config "endpoints")) ;;
  if negb (nonempty_string (get config "sheetName"))
  then fail "Config validation failed: sheetName is required and must be a string"
  else
  if negb (nonempty_string (get config "fullRefreshRange"))
  then fail "Config validation failed: fullRefreshRange is required and must be a string"
  else
  if negb (nonempty_string (get config "incrementalRefreshRange"))
  then fail "Config validation failed: incrementalRefreshRange is required and must be a string"
  else
  if negb (nonempty_string (get config "triggerName"))
  then fail "Config validation failed: triggerName is required and must be a string"
  else Ok tt.

(** [Object.assign({}, scriptProps, userProps)]. *)
Definition all_properties (scriptProps userProps : list (string * string))
  : outcome value :=
  a <~ object_assign (VObj []) (properties_object scriptProps) ;;
  object_assign a (properties_object userProps).

Section WithHost.
Context `{Host}.

(** The body of the [switch] in [loadOverrides]. *)
Definition override_entry (overrides : value) (key : string) (val : value)
  : outcome value :=
  if String.eqb key "API_URL" then set_prop overrides "apiUrl" val
  else if String.eqb key "API_KEY" then set_prop overrides "apiKey" val
  else if String.eqb key "ENDPOINTS" then
    match (s <~ ToString val ;;
           match JSON_parse s with
           | Some v => Ok v
           | None => Throw (Err "SyntaxError" (JSON_parse_error s))
           end) with
    | Ok v => set_prop overrides "endpoints" v
    | Throw _ => fail "Invalid JSON for ENDPOINTS in PropertiesService"
    | OutOfFragment => OutOfFragment
    end
  else if String.eqb key "SHEET_NAME" then set_prop overrides "sheetName" val
  else if String.eqb key "FULL_REFRESH_RANGE" then set_prop overrides "fullRefreshRange" val
  else if String.eqb key "INCREMENTAL_REFRESH_RANGE" then set_prop overrides "incrementalRefreshRange" val
  else if String.eqb key "TRIGGER_NAME" then set_prop overrides "triggerName" val
  else Ok overrides.

Fixpoint override_entries (overrides : value) (es : list (string * value))
  : outcome value :=
  match es with
  | [] => Ok overrides
  | (key, val) :: es' =>
      o <~ override_entry overrides key val ;; override_entries o es'
  end.

(** [scriptProps] and [userProps] are what the two property stores hold. *)
Definition loadOverrides (scriptProps userProps : list (string * string))
  : outcome value :=
  allProps <~ all_properties scriptProps userProps ;;
  override_entries (VObj []) (own_entries allProps).

(** The initialiser of [_config]; [Object.freeze] does not change what the
    object holds (its effect on later writes is the subject of [Frozen]). *)
Definition build_config (scriptProps userProps : list (string * string))
  : outcome value :=
  overrides <~ loadOverrides scriptProps userProps ;;
  cfg <~ mergeConfig DEFAULTS overrides ;;
  _ <~ validate cfg ;;
  Ok cfg.

End WithHost.

(** The exposed accessors, as functions of [_config]. *)
Definition getApiConfig (_config : value) : outcome value :=
  apiUrl <~ read _config "apiUrl" ;;
  apiKey <~ read _config "apiKey" ;;
  endpoints <~ read _config "endpoints" ;;
  copy <~ object_assign (VObj []) endpoints ;;
  Ok (VObj [ ("apiUrl", apiUrl); ("apiKey", apiKey); ("endpoints", copy) ]).

Definition getSheetRanges (_config : value) : outcome value :=
  sheetName <~ read _config "sheetName" ;;
  Ok (VObj [ ("sheetName", sheetName);
             ("fullRefreshRange", get _config "fullRefreshRange");
             ("incrementalRefreshRange", get _config "incrementalRefreshRange");
             ("incrementalRange", get _config "incrementalRefreshRange") ]).

Definition getTriggerName (_config : value) : outcome value :=
  read _config "triggerName".

Definition _getRawConfig (_config : value) : outcome value := Ok _config.

(** The self-test that runs when the file is loaded. *)
Definition testConfig (_config : value) : outcome unit :=
  apiConf <~ getApiConfig _config ;;
  if negb (truthy (get apiConf "apiUrl")) || negb (truthy (get apiConf "apiKey"))
  then fail "Config test failed: API configuration incomplete."
  else
  ranges <~ getSheetRanges _config ;;
  if negb (truthy (get ranges "sheetName"))
     || negb (truthy (get ranges "fullRefreshRange"))
     || negb (truthy (get ranges "incrementalRefreshRange"))
  then fail "Config test failed: Sheet ranges configuration incomplete."
  else Ok tt.

End Config.

(** ** The world the script runs in *)

Inductive schedule : Type :=
| EveryMinutes (n : Z)
| EveryHours (n : Z).

Record trigger : Type := {
  handlerFunction : string;
  every : schedule
}.

(** One call of [UrlFetchApp.fetch(url, params)]. *)
Record request : Type := {
  req_url : value;
  req_params : value
}.

(** What the network gives back: a response (any status, since a muted
    request does not throw on it) or a failure of the transport itself. *)
Inductive reply : Type :=
| Responds (code : Z) (body : string)
| Fails (name message : string).

Record response : Type := {
  getResponseCode : Z;
  getContentText : string
}.

(** Calls that change a sheet, in the order they were made. *)
Inductive sheet_call : Type :=
| ClearContent (sheet : string) (rg : range)
| SetValues (sheet : string) (row col rows cols : nat).

Record world : Type := {
  triggers : list trigger;
  logger : list string;
  toast_failure : option (string * string);
  toasts : list (value * string);
  requests : list request;
  transport : nat -> request -> reply;
  clock : nat -> Z;
  clock_reads : nat;
  sheets : gmap string (gmap (nat * nat) value);
  active_sheet : string;
  sheet_calls : list sheet_call
}.

Definition with_triggers (t : list trigger) (w : world) : world :=
  {| triggers := t; logger := logger w; toast_failure := toast_failure w;
     toasts := toasts w; requests := requests w; transport := transport w;
     clock := clock w; clock_reads := clock_reads w; sheets := sheets w;
     active_sheet := active_sheet w; sheet_calls := sheet_calls w |}.

Definition with_logger (l : list string) (w : world) : world :=
  {| triggers := triggers w; logger := l; toast_failure := toast_failure w;
     toasts := toasts w; requests := requests w; transport := transport w;
     clock := clock w; clock_reads := clock_reads w; sheets := sheets w;
     active_sheet := active_sheet w; sheet_calls := sheet_calls w |}.

Definition with_toasts (t : list (value * string)) (w : world) : world :=
  {| triggers := triggers w; logger := logger w; toast_failure := toast_failure w;
     toasts := t; requests := requests w; transport := transport w;
     clock := clock w; clock_reads := clock_reads w; sheets := sheets w;
     active_sheet := active_sheet w; sheet_calls := sheet_calls w |}.

Definition with_requests (r : list request) (w : world) : world :=
  {| triggers := triggers w; logger := logger w; toast_failure := toast_failure w;
     toasts := toasts w; requests := r; transport := transport w;
     clock := clock w; clock_reads := clock_reads w; sheets := sheets w;
     active_sheet := active_sheet w; sheet_calls := sheet_calls w |}.

Definition with_clock_reads (n : nat) (w : world) : world :=
  {| triggers := triggers w; logger := logger w; toast_failure := toast_failure w;
     toasts := toasts w; requests := requests w; transport := transport w;
     clock := clock w; clock_reads := n; sheets := sheets w;
     active_sheet := active_sheet w; sheet_calls := sheet_calls w |}.

Definition with_sheets (s : gmap string (gmap (nat * nat) value))
  (c : list sheet_call) (w : world) : world :=
  {| triggers := triggers w; logger := logger w; toast_failure := toast_failure w;
     toasts := toasts w; requests := requests w; transport := transport w;
     clock := clock w; clock_reads := clock_reads w; sheets := s;
     active_sheet := active_sheet w; sheet_calls := c |}.

(** Computations: state passing with exceptions. *)
Definition M (A : Type) : Type := world -> outcome A * world.

Definition ret {A} (a : A) : M A := fun w => (Ok a, w).

Definition bind {A B} (c : M A) (k : A -> M B) : M B :=
  fun w =>
    match c w with
    | (Ok a, w') => k a w'
    | (Throw t, w') => (Throw t, w')
    | (OutOfFragment, w') => (OutOfFragment, w')
    end.

Notation "x <- c ;; k" := (bind c (fun x => k))
  (at level 100, c at next level, right associativity).

Definition throw {A} (t : thrown) : M A := fun w => (Throw t, w).

Definition lift {A} (c : outcome A) : M A := fun w => (c, w).

(** [try { body } catch (e) { handler e }]. *)
Definition try_catch {A} (body : M A) (handler : thrown -> M A) : M A :=
  fun w =>
    match body w with
    | (Throw t, w') => handler t w'
    | r => r
    end.

Definition Logger_log (line : string) : M unit :=
  fun w => (Ok tt, with_logger (logger w ++ [line]) w).

(** [SpreadsheetApp.getActiveSpreadsheet().toast(msg, title, 5)]. *)
Definition toast (msg : value) (title : string) : M unit :=
  fun w =>
    match toast_failure w with
    | Some (n, m) => (Throw (Err n m), w)
    | None => (Ok tt, with_toasts (toasts w ++ [(msg, title)]) w)
    end.

(** [new Date().getTime()]. *)
Definition now : M Z :=
  fun w => (Ok (clock w (clock_reads w)), with_clock_reads (S (clock_reads w)) w).

Definition UrlFetchApp_fetch (url params : value) : M response :=
  fun w =>
    let rq := {| req_url := url; req_params := params |} in
    let w' := with_requests (requests w ++ [rq]) w in
    match transport w (length (requests w)) rq with
    | Responds c b => (Ok {| getResponseCode := c; getContentText := b |}, w')
    | Fails n m => (Throw (Err n m), w')
    end.

(** [e.message] of a caught value. *)
Definition message_of (t : thrown) : outcome value :=
  match t with
  | Err _ m => Ok (VStr m)
  | Raw v => read v "message"
  end.

(** ** UtilityService.gs *)

Module UtilityService.

Section WithHost.
Context `{Host}.

Definition logSuccess (message : value) : M unit :=
  match message with
  | VStr s =>
      _ <- Logger_log ("SUCCESS: " +:+ s) ;;
      try_catch (toast message "PetSync Success")
        (fun e =>
           m <- lift (message_of e) ;;
           t <- lift (ToString m) ;;
           Logger_log ("PetSync toast failed: " +:+ t))
  | _ => throw (Err "Error" "logSuccess: message must be a string")
  end.

Definition logError (error : thrown) : M unit :=
  let msg :=
    match error with
    | Err _ m => VStr m
    | Raw (VStr s) => VStr s
    | Raw v =>
        match JSON_stringify v with
        | Some s => VStr s
        | None => VUndefined
        end
    end in
  t <- lift (ToString msg) ;;
  _ <- Logger_log ("ERROR: " +:+ t) ;;
  try_catch (toast msg "PetSync Error")
    (fun e =>
       m <- lift (message_of e) ;;
       t <- lift (ToString m) ;;
       Logger_log ("PetSync error toast failed: " +:+ t)).

(** [response.hasOwnProperty(key)] on a value whose [typeof] is
    ['object']: the method is looked up on [response] itself, so an own
    property of that name (never callable in decoded JSON) shadows it. *)
Definition hasOwnProperty (response key : value) : outcome bool :=
  match response with
  | VObj m =>
      if has_own m "hasOwnProperty" then
        Throw (Err "TypeError" "response.hasOwnProperty is not a function")
      else k <~ ToString key ;; Ok (has_own m k)
  | VArr l =>
      k <~ ToString key ;;
      Ok (String.eqb k "length" || has_own (indexed_from 0 l) k)
  | _ => Throw (Err "TypeError" "Cannot read properties of null or undefined (reading 'hasOwnProperty')")
  end.

(** The [forEach] over [requiredKeys]. *)
Fixpoint require_keys (response : value) (keys : list value) : outcome unit :=
  match keys with
  | [] => Ok tt
  | key :: keys' =>
      present <~ hasOwnProperty response key ;;
      if negb present then
        k <~ ToString key ;;
        Throw (Err "Error" ("validateResponse: missing required key " +:+ dquote +:+ k +:+ dquote))
      else require_keys response keys'
  end.

Definition validateResponse (response requiredKeys : value) : outcome value :=
  if negb (String.eqb (typeof response) "object")
     || match response with VNull => true | _ => false end
  then Throw (Err "Error" "validateResponse: response must be a non-null object")
  else
  match requiredKeys with
  | VArr keys => _ <~ require_keys response keys ;; Ok (VBool true)
  | _ => Throw (Err "Error" "validateResponse: requiredKeys must be an array of strings")
  end.

(** The method, and the parameter object [callApi] passes to
    [UrlFetchApp.fetch], for [options] already defaulted to [{}]. *)
Definition method_of (options : value) : string :=
  match get options "method" with
  | VStr m => if truthy (VStr m) then toUpperCase m else "GET"
  | _ => "GET"
  end.

Definition fetchOptions (options : value) : value :=
  VObj [ ("method", VStr (method_of options));
         ("muteHttpExceptions", VBool true);
         ("contentType", VStr "application/json");
         ("headers", if truthy (get options "headers")
                     then get options "headers" else VObj []);
         ("payload",
          let p := get options "payload" in
          if truthy p && String.eqb (typeof p) "string" then p
          else if truthy p then
            match JSON_stringify p with Some s => VStr s | None => VUndefined end
          else VNull);
         ("validateHttpsCertificates", VBool true);
         ("followRedirects", VBool true);
         ("timeout", if String.eqb (typeof (get options "timeout")) "number"
                     then get options "timeout" else VNum 30000) ].

Definition callApi (url options : value) : M value :=
  match url with
  | VStr u =>
      if String.eqb u "" then throw (Err "Error" "callApi: url must be a non-empty string")
      else
      let options := if truthy options then options else VObj [] in
      let method := method_of options in
      startTime <- now ;;
      response <- try_catch (UrlFetchApp_fetch url (fetchOptions options))
                    (fun e =>
                       _ <- logError e ;;
                       m <- lift (message_of e) ;;
                       t <- lift (ToString m) ;;
                       throw (Err "Error" ("callApi: request failed for " +:+ u +:+ " - " +:+ t))) ;;
      endTime <- now ;;
      let duration := (endTime - startTime)%Z in
      _ <- Logger_log ("callApi: " +:+ method +:+ " " +:+ u +:+ " took "
                       +:+ string_of_Z duration +:+ "ms") ;;
      let code := getResponseCode response in
      let body := getContentText response in
      if (code <? 200)%Z || (300 <=? code)%Z then
        throw (Err "Error" ("callApi: HTTP " +:+ string_of_Z code +:+ " - " +:+ body))
      else
        match JSON_parse body with
        | Some v => ret v
        | None =>
            throw (Err "Error" ("callApi: JSON parse error - " +:+ JSON_parse_error body))
        end
  | _ => throw (Err "Error" "callApi: url must be a non-empty string")
  end.

End WithHost.

End UtilityService.

(** ** The spreadsheet *)

Definition in_range (rg : range) (pos : nat * nat) : bool :=
  (top rg <=? fst pos)%nat
  && match height rg with Some h => (fst pos <? top rg + h)%nat | None => true end
  && (left rg <=? snd pos)%nat
  && match width rg with Some n => (snd pos <? left rg + n)%nat | None => true end.

Definition sheet_cells (w : world) (name : string) : gmap (nat * nat) value :=
  default ∅ (sheets w !! name).

Fixpoint write_row (r c : nat) (row : list value) (cs : gmap (nat * nat) value)
  : gmap (nat * nat) value :=
  match row with
  | [] => cs
  | x :: row' => write_row r (S c) row' (<[(r, c) := x]> cs)
  end.

Fixpoint write_rows (r c : nat) (rows : list (list value))
  (cs : gmap (nat * nat) value) : gmap (nat * nat) value :=
  match rows with
  | [] => cs
  | row :: rows' => write_rows (S r) c rows' (write_row r c row cs)
  end.

(** The rows of a two-dimensional array whose every row has [cols]
    entries; [None] otherwise. *)
Fixpoint rows_of (cols : nat) (data : list value) : option (list (list value)) :=
  match data with
  | [] => Some []
  | VArr row :: data' =>
      if (length row =? cols)%nat then
        match rows_of cols data' with
        | Some rs => Some (row :: rs)
        | None => None
        end
      else None
  | _ :: _ => None
  end.

(** A [Range] object: the sheet it belongs to and its rectangle. *)
Record range_ref : Type := {
  on_sheet : string;
  area : range
}.

Section Sheets.
Context `{Host}.

(** [ss.getSheetByName(name)]; [None] is [null]. *)
Definition getSheetByName (name : value) : M (option string) :=
  fun w =>
    match name with
    | VStr n =>
        (Ok (match sheets w !! n with Some _ => Some n | None => None end), w)
    | _ => (OutOfFragment, w)
    end.

Definition getActiveSheet : M string := fun w => (Ok (active_sheet w), w).

(** [sheet.getRange(a1Notation)]. *)
Definition getRange (sheet : string) (a1 : value) : M range_ref :=
  match a1 with
  | VStr s =>
      match a1_range s with
      | Some rg => ret {| on_sheet := sheet; area := rg |}
      | None => throw (Err "Exception" "Range not found")
      end
  | _ => throw (Err "Exception" "The parameters do not match the method signature for getRange")
  end.

(** [sheet.getRange(row, column, numRows, numColumns)]. *)
Definition getRange4 (sheet : string) (row col rows cols : nat) : M range_ref :=
  if (rows =? 0)%nat then throw (Err "Exception" "The number of rows in the range must be at least 1.")
  else if (cols =? 0)%nat then throw (Err "Exception" "The number of columns in the range must be at least 1.")
  else ret {| on_sheet := sheet;
              area := {| top := row; left := col; height := Some rows; width := Some cols |} |}.

(** [range.clearContent()]. *)
Definition clearContent (r : range_ref) : M unit :=
  fun w =>
    let cs := filter (fun entry => in_range (area r) (fst entry) = false)
                (sheet_cells w (on_sheet r)) in
    (Ok tt, with_sheets (<[on_sheet r := cs]> (sheets w))
              (sheet_calls w ++ [ClearContent (on_sheet r) (area r)]) w).

(** [range.setValues(data)] on a range made by [getRange4]: the host
    rejects data whose shape differs from the range. *)
Definition setValues (r : range_ref) (data : value) : M unit :=
  fun w =>
    match data, height (area r), width (area r) with
    | VArr rowsl, Some h, Some n =>
        match rows_of n rowsl with
        | Some rs =>
            if (length rs =? h)%nat then
              (Ok tt,
               with_sheets
                 (<[on_sheet r :=
                      write_rows (top (area r)) (left (area r)) rs
                        (sheet_cells w (on_sheet r))]> (sheets w))
                 (sheet_calls w ++ [SetValues (on_sheet r) (top (area r)) (left (area r)) h n])
                 w)
            else (Throw (Err "Exception" "The number of rows in the data does not match the number of rows in the range."), w)
        | None => (Throw (Err "Exception" "The number of columns in the data does not match the number of columns in the range."), w)
        end
    | _, _, _ => (Throw (Err "Exception" "The parameters do not match the method signature for setValues"), w)
    end.

End Sheets.

(** ** Code.gs *)

Module Code.

Section WithHost.
Context `{Host}.

(** Code.gs calls its collaborators by bare name.  The two configuration
    accessors are variables here, and module [PetSync] binds them to the
    accessors of [Config]; the helpers of [UtilityService] are used
    directly. *)
Variable getApiConfig : M value.
Variable getSheetRanges : M value.

(** The operator [+]. *)
Definition js_add (a b : value) : outcome value :=
  let primitive v :=
    match v with
    | VArr _ | VObj _ => s <~ ToString v ;; Ok (VStr s)
    | _ => Ok v
    end in
  let number v :=
    match v with
    | VNum n => Some n
    | VBool true => Some 1%Z
    | VBool false => Some 0%Z
    | VNull => Some 0%Z
    | _ => None
    end in
  pa <~ primitive a ;;
  pb <~ primitive b ;;
  match pa, pb with
  | VStr _, _ | _, VStr _ =>
      sa <~ ToString pa ;; sb <~ ToString pb ;; Ok (VStr (sa +:+ sb))
  | _, _ =>
      match number pa, number pb with
      | Some x, Some y => Ok (VNum (x + y))
      | _, _ => OutOfFragment
      end
  end.

Definition writeData (data : value) : M value :=
  match data with
  | VArr ((VArr first :: _) as rowsl) =>
      ranges <- getSheetRanges ;;
      sheetName <- lift (read ranges "sheetName") ;;
      sheet <- (if truthy sheetName then
                  found <- getSheetByName sheetName ;;
                  match found with
                  | Some s => ret s
                  | None => getActiveSheet
                  end
                else getActiveSheet) ;;
      let rows := length rowsl in
      let cols := length first in
      startCell <- (if truthy (get ranges "fullRefresh") then
                      startCell <- getRange sheet (get ranges "fullRefreshRange") ;;
                      cleared <- getRange sheet (get ranges "fullRefreshRange") ;;
                      _ <- clearContent cleared ;;
                      ret startCell
                    else getRange sheet (get ranges "incrementalRange")) ;;
      writeRange <- getRange4 sheet (top (area startCell)) (left (area startCell)) rows cols ;;
      _ <- setValues writeRange data ;;
      ret (VObj [ ("success", VBool true); ("rows", VNum (Z.of_nat rows)) ])
  | _ => throw (Err "Error" "writeData received invalid data format")
  end.

Definition setupTriggers : M unit :=
  fun w =>
    let existing :=
      existsb (fun t => String.eqb (handlerFunction t) "fetchData") (triggers w) in
    if negb existing then
      (Ok tt, with_triggers
                (triggers w ++ [ {| handlerFunction := "fetchData"; every := EveryHours 1 |} ]) w)
    else (Ok tt, w).

(** The callback of [config.endpoints.forEach]; [allData] is the array
    the callback pushes onto. *)
Definition fetchEndpoint (config : value) (allData : list value) (endpoint : value)
  : M (list value) :=
  url <- lift (js_add (get config "apiUrl") endpoint) ;;
  auth <- lift (js_add (VStr "Bearer ") (get config "apiKey")) ;;
  let options :=
    VObj [ ("method", VStr "get");
           ("headers", VObj [ ("Authorization", auth) ]);
           ("muteHttpExceptions", VBool true) ] in
  response <- UrlFetchApp_fetch url options ;;
  json <- (match JSON_parse (getContentText response) with
           | Some v => ret v
           | None => throw (Err "SyntaxError" (JSON_parse_error (getContentText response)))
           end) ;;
  _ <- lift (UtilityService.validateResponse json VUndefined) ;;
  data <- lift (read json "data") ;;
  match data with
  | VArr items => ret (allData ++ items)
  | _ => ret allData
  end.

Fixpoint forEachEndpoint (config : value) (endpoints : list value) (allData : list value)
  : M (list value) :=
  match endpoints with
  | [] => ret allData
  | endpoint :: rest =>
      allData' <- fetchEndpoint config allData endpoint ;;
      forEachEndpoint config rest allData'
  end.

(** The body of the [try] block. *)
Definition fetchData_try : M value :=
  config <- getApiConfig ;;
  if negb (truthy config) || negb (truthy (get config "apiUrl"))
     || negb (isArray (get config "endpoints"))
  then throw (Err "Error" "Invalid API configuration")
  else
  allData <- forEachEndpoint config
               (match get config "endpoints" with VArr l => l | _ => [] end) [] ;;
  result <- writeData (VArr allData) ;;
  _ <- setupTriggers ;;
  rows <- lift (r <~ read result "rows" ;; ToString r) ;;
  _ <- UtilityService.logSuccess (VStr ("Data fetch complete: " +:+ rows +:+ " rows written.")) ;;
  ret result.

Definition fetchData : M value :=
  try_catch fetchData_try
    (fun error => _ <- UtilityService.logError error ;; throw error).

End WithHost.

End Code.

(** ** The script as deployed: Code.gs bound to [Config] *)

Module PetSync.

Section WithHost.
Context `{Host}.

Definition writeData (_config : value) : value -> M value :=
  Code.writeData (lift (Config.getSheetRanges _config)).

Definition fetchData (_config : value) : M value :=
  Code.fetchData (lift (Config.getApiConfig _config))
                 (lift (Config.getSheetRanges _config)).

(** One execution: the files are loaded (which builds [_config] from the
    two property stores and runs the self-test), then [fetchData] runs. *)
Definition run (scriptProps userProps : list (string * string)) : M value :=
  _config <- lift (Config.build_config scriptProps userProps) ;;
  _ <- lift (Config.testConfig _config) ;;
  fetchData _config.

End WithHost.

End PetSync.

(** ** References and [Object.freeze]

    The accessors of [Config] return objects, and a caller may try to
    write on what it was given.  This module keeps the objects in a heap:
    a field holds a primitive or a reference, an object may be frozen, and
    a write on a frozen object has no effect (it throws in strict code and
    is ignored otherwise). *)

Module Frozen.

Inductive prim : Type :=
| PUndefined
| PNull
| PBool (b : bool)
| PNum (n : Z)
| PStr (s : string).

Inductive hval : Type :=
| HPrim (p : prim)
| HRef (l : nat).

Record hobj : Type := {
  frozen : bool;
  is_array : bool;
  fields : list (string * hval)
}.

Record state : Type := {
  heap : gmap nat hobj;
  next : nat;
  (** the references callers have been given *)
  known : gset nat
}.

Definition prim_value (p : prim) : value :=
  match p with
  | PUndefined => VUndefined
  | PNull => VNull
  | PBool b => VBool b
  | PNum n => VNum n
  | PStr s => VStr s
  end.

Definition value_prim (v : value) : option prim :=
  match v with
  | VUndefined => Some PUndefined
  | VNull => Some PNull
  | VBool b => Some (PBool b)
  | VNum n => Some (PNum n)
  | VStr s => Some (PStr s)
  | VArr _ | VObj _ => None
  end.

(** Where [_config] and its [endpoints] object live. *)
Definition root : nat := 0.
Definition endpoints_loc : nat := 1.

Fixpoint field (fs : list (string * hval)) (k : string) : hval :=
  match fs with
  | [] => HPrim PUndefined
  | (k', v) :: fs' => if String.eqb k k' then v else field fs' k
  end.

Fixpoint has_field (fs : list (string * hval)) (k : string) : bool :=
  match fs with
  | [] => false
  | (k', _) :: fs' => String.eqb k k' || has_field fs' k
  end.

Fixpoint replace_field (fs : list (string * hval)) (k : string) (v : hval)
  : list (string * hval) :=
  match fs with
  | [] => []
  | (k', v') :: fs' =>
      if String.eqb k k' then (k', v) :: fs' else (k', v') :: replace_field fs' k v
  end.

(** [o[k] = v] on an extensible plain object; [None] when the write would
    replace the prototype. *)
Definition write_field (fs : list (string * hval)) (k : string) (v : hval)
  : option (list (string * hval)) :=
  if has_field fs k then Some (replace_field fs k v)
  else if String.eqb k "__proto__" then
    match v with
    | HPrim PNull | HRef _ => None
    | HPrim _ => Some fs
    end
  else Some (fs ++ [(k, v)]).

Definition delete_field (fs : list (string * hval)) (k : string)
  : list (string * hval) :=
  filter (fun entry => negb (String.eqb k (fst entry))) fs.

(** [Object.assign(target, source)] on field lists. *)
Fixpoint assign_fields (target src : list (string * hval))
  : option (list (string * hval)) :=
  match src with
  | [] => Some target
  | (k, v) :: src' =>
      match write_field target k v with
      | Some t => assign_fields t src'
      | None => None
      end
  end.

Fixpoint string_fields (es : list (string * value)) : option (list (string * hval)) :=
  match es with
  | [] => Some []
  | (k, VStr s) :: es' =>
      match string_fields es' with
      | Some fs => Some ((k, HPrim (PStr s)) :: fs)
      | None => None
      end
  | _ :: _ => None
  end.

Fixpoint root_fields (es : list (string * value)) : option (list (string * hval)) :=
  match es with
  | [] => Some []
  | (k, v) :: es' =>
      match (if String.eqb k "endpoints" then Some (HRef endpoints_loc)
             else option_map HPrim (value_prim v)), root_fields es' with
      | Some h, Some fs => Some ((k, h) :: fs)
      | _, _ => None
      end
  end.

(** The heap after the initialiser of [_config] returned
    [Object.freeze(cfg)]: the root is frozen, the object behind
    [endpoints] is not ([Object.freeze] is shallow).  Defined for the
    configurations whose other fields are primitives and whose endpoint
    entries are strings, which [validate] guarantees for the fields it
    checks. *)
Definition construct (cfg : value) : option state :=
  match cfg with
  | VObj props =>
      match lookup_own props "endpoints" with
      | Some e =>
          match e with
          | VObj _ | VArr _ =>
              match root_fields props, string_fields (own_entries e) with
              | Some rf, Some ef =>
                  Some {| heap :=
                            <[root := {| frozen := true; is_array := false; fields := rf |}]>
                              (<[endpoints_loc := {| frozen := false; is_array := isArray e;
                                                     fields := ef |}]> ∅);
                          next := 2;
                          known := ∅ |}
              | _, _ => None
              end
          | _ => None
          end
      | None => None
      end
  | _ => None
  end.

(** What a caller can do. *)
Inductive op : Type :=
| GetApiConfig
| GetSheetRanges
| GetTriggerName
| GetRawConfig
| ReadField (l : nat) (k : string)
| WriteField (l : nat) (k : string) (v : hval)
| DeleteField (l : nat) (k : string).

Definition alloc (o : hobj) (st : state) : nat * state :=
  (next st,
   {| heap := <[next st := o]> (heap st); next := S (next st); known := known st |}).

Definition learn (v : hval) (st : state) : state :=
  match v with
  | HRef l => {| heap := heap st; next := next st; known := {[ l ]} ∪ known st |}
  | HPrim _ => st
  end.

Definition root_field (st : state) (k : string) : hval :=
  match heap st !! root with
  | Some r => field (fields r) k
  | None => HPrim PUndefined
  end.

(** One operation: the value handed to the caller and the new state;
    [None] when the run leaves the fragment. *)
Definition call (o : op) (st : state) : option (hval * state) :=
  match o with
  | GetApiConfig =>
      match root_field st "endpoints" with
      | HRef e =>
          match heap st !! e with
          | Some eo =>
              match assign_fields [] (fields eo) with
              | Some copied =>
                  let (lc, st1) :=
                    alloc {| frozen := true; is_array := false; fields := copied |} st in
                  let (lr, st2) :=
                    alloc {| frozen := true; is_array := false;
                             fields := [ ("apiUrl", root_field st "apiUrl");
                                         ("apiKey", root_field st "apiKey");
                                         ("endpoints", HRef lc) ] |} st1 in
                  Some (HRef lr, learn (HRef lr) st2)
              | None => None
              end
          | None => None
          end
      | HPrim _ => None
      end
  | GetSheetRanges =>
      let (l, st1) :=
        alloc {| frozen := true; is_array := false;
                 fields := [ ("sheetName", root_field st "sheetName");
                             ("fullRefreshRange", root_field st "fullRefreshRange");
                             ("incrementalRefreshRange", root_field st "incrementalRefreshRange");
                             ("incrementalRange", root_field st "incrementalRefreshRange") ] |} st in
      Some (HRef l, learn (HRef l) st1)
  | GetTriggerName =>
      let v := root_field st "triggerName" in Some (v, learn v st)
  | GetRawConfig => Some (HRef root, learn (HRef root) st)
  | ReadField l k =>
      if decide (l ∈ known st) then
        match heap st !! l with
        | Some o => let v := field (fields o) k in Some (v, learn v st)
        | None => Some (HPrim PUndefined, st)
        end
      else Some (HPrim PUndefined, st)
  | WriteField l k v =>
      if decide (l ∈ known st) then
        match heap st !! l with
        | Some o =>
            if frozen o then Some (v, st)
            else
              match write_field (fields o) k v with
              | Some fs =>
                  Some (v, {| heap := <[l := {| frozen := false; is_array := is_array o;
                                                fields := fs |}]> (heap st);
                              next := next st; known := known st |})
              | None => None
              end
        | None => Some (v, st)
        end
      else Some (v, st)
  | DeleteField l k =>
      if decide (l ∈ known st) then
        match heap st !! l with
        | Some o =>
            if frozen o then Some (HPrim (PBool false), st)
            else
              Some (HPrim (PBool true),
                    {| heap := <[l := {| frozen := false; is_array := is_array o;
                                         fields := delete_field (fields o) k |}]> (heap st);
                       next := next st; known := known st |})
        | None => Some (HPrim (PBool true), st)
        end
      else Some (HPrim (PBool true), st)
  end.

Fixpoint run (ops : list op) (st : state) : option state :=
  match ops with
  | [] => Some st
  | o :: ops' =>
      match call o st with
      | Some (_, st') => run ops' st'
      | None => None
      end
  end.


(** Reading an object back as a value (references one level deep, which
    is all [_config] has). *)
Definition shallow_value (hv : hval) : value :=
  match hv with
  | HPrim p => prim_value p
  | HRef _ => VUndefined
  end.

Definition object_value (h : gmap nat hobj) (o : hobj) : value :=
  let deref hv :=
    match hv with
    | HPrim p => prim_value p
    | HRef l =>
        match h !! l with
        | Some o' =>
            if is_array o' then VArr (map (fun e => shallow_value (snd e)) (fields o'))
            else VObj (map (fun e => (fst e, shallow_value (snd e))) (fields o'))
        | None => VUndefined
        end
    end in
  VObj (map (fun e => (fst e, deref (snd e))) (fields o)).

(** The configuration as it can be observed after a run. *)
Definition observe (st : state) : option value :=
  match heap st !! root with
  | Some r => Some (object_value (heap st) r)
  | None => None
  end.

(** The fields of a flat object, as properties of a value. *)
Definition as_props (fs : list (string * hval)) : list (string * value) :=
  map (fun e => (fst e, shallow_value (snd e))) fs.

Definition result_value (st : state) (hv : hval) : value :=
  match hv with
  | HPrim p => prim_value p
  | HRef l =>
      match heap st !! l with
      | Some o => object_value (heap st) o
      | None => VUndefined
      end
  end.

Definition is_primitive (v : hval) : Prop :=
  match v with HPrim _ => True | HRef _ => False end.

Definition is_string (v : hval) : Prop :=
  match v with HPrim (PStr _) => True | _ => False end.

(** What an accessor may hand out: a primitive, or a reference to an
    object an accessor made. *)
Definition handed_out (v : hval) : Prop :=
  match v with HPrim _ => True | HRef l => (2 <= l)%nat end.

(** The invariant of the runs that do not call [_getRawConfig]: the two
    objects of the configuration are where they were, everything else in
    the heap was made by an accessor (it is frozen and refers only to
    such objects), and the callers hold references to such objects only. *)
Record sealed (r0 e0 : hobj) (st : state) : Prop := {
  sealed_root : heap st !! root = Some r0;
  sealed_endpoints : heap st !! endpoints_loc = Some e0;
  sealed_endpoints_flat : Forall (fun e => is_string (snd e)) (fields e0);
  sealed_root_refs :
    Forall (fun e => (fst e = "endpoints" /\ snd e = HRef endpoints_loc)
                     \/ is_primitive (snd e)) (fields r0);
  sealed_root_endpoints : field (fields r0) "endpoints" = HRef endpoints_loc;
  sealed_next : (2 <= next st)%nat;
  sealed_fresh : forall l, (next st <= l)%nat -> heap st !! l = None;
  sealed_known : forall l, l ∈ known st -> (2 <= l)%nat;
  sealed_handed :
    forall l o, (2 <= l)%nat -> heap st !! l = Some o ->
      frozen o = true /\ Forall (fun e => handed_out (snd e)) (fields o)
}.

(** The weaker invariant of the runs that may call [_getRawConfig] but
    attempt no write on the object behind [endpoints]: the two objects
    of the configuration are where they were and everything else in the
    heap is frozen. *)
Record stable (r0 e0 : hobj) (st : state) : Prop := {
  stable_root : heap st !! root = Some r0;
  stable_endpoints : heap st !! endpoints_loc = Some e0;
  stable_root_frozen : frozen r0 = true;
  stable_endpoints_flat : Forall (fun e => is_string (snd e)) (fields e0);
  stable_root_refs :
    Forall (fun e => (fst e = "endpoints" /\ snd e = HRef endpoints_loc)
                     \/ is_primitive (snd e)) (fields r0);
  stable_root_endpoints : field (fields r0) "endpoints" = HRef endpoints_loc;
  stable_next : (2 <= next st)%nat;
  stable_others :
    forall l o, (2 <= l)%nat -> heap st !! l = Some o -> frozen o = true
}.

(** Operations that do not try to change the object behind [endpoints]. *)
Definition spares_endpoints (o : op) : bool :=
  match o with
  | WriteField l _ _ | DeleteField l _ => negb (Nat.eqb l endpoints_loc)
  | _ => true
  end.

End Frozen.

(** ** Measures used in the statements *)

(** How many triggers call [handler]. *)
Definition bound_to (handler : string) (ts : list trigger) : nat :=
  length (List.filter (fun t => String.eqb (handlerFunction t) handler) ts).

Definition hourly_fetchData : trigger :=
  {| handlerFunction := "fetchData"; every := EveryHours 1 |}.


(** The text [logError] logs for a caught value. *)
Definition error_text `{Host} (e : thrown) : string :=
  match e with
  | Err _ m => m
  | Raw (VStr s) => s
  | Raw v => match JSON_stringify v with Some s => s | None => "undefined" end
  end.

(** What a computation leaves alone. *)
Definition same_sheets (w w' : world) : Prop :=
  sheets w' = sheets w /\ sheet_calls w' = sheet_calls w.

Definition same_requests (w w' : world) : Prop :=
  requests w' = requests w.

Definition same_triggers (w w' : world) : Prop :=
  triggers w' = triggers w.

(** [c] relates every starting world to the world it ends in. *)
Definition keeps {A} (R : world -> world -> Prop) (c : M A) : Prop :=
  forall w, R w (snd (c w)).

(** The rules of the configuration data model, stated on their own:
    [apiUrl] an http(s) URL, [apiKey] and the four sheet and trigger
    fields non-empty strings, [endpoints] an object whose every entry is
    a string starting with a slash. *)
Definition slash_path (v : value) : bool :=
  match v with
  | VStr p => String.prefix "/" p
  | _ => false
  end.

Definition fields_valid (config : value) : bool :=
  match get config "apiUrl" with VStr s => Config.http_url s | _ => false end
  && Config.nonempty_string (get config "apiKey")
  && Config.nonempty_string (get config "sheetName")
  && Config.nonempty_string (get config "fullRefreshRange")
  && Config.nonempty_string (get config "incrementalRefreshRange")
  && Config.nonempty_string (get config "triggerName").

Definition endpoints_valid (endpoints : value) : bool :=
  match endpoints with
  | VObj _ | VArr _ => forallb (fun e => slash_path (snd e)) (own_entries endpoints)
  | _ => false
  end.

Definition valid (config : value) : bool :=
  match config with
  | VUndefined | VNull => false
  | _ => fields_valid config && endpoints_valid (get config "endpoints")
  end.

(** JSON data: no [undefined] anywhere, and no key twice in an object. *)
Fixpoint json_like (v : value) : Prop :=
  match v with
  | VUndefined => False
  | VArr l =>
      (fix all (l : list value) : Prop :=
         match l with
         | [] => True
         | x :: l' => json_like x /\ all l'
         end) l
  | VObj m =>
      NoDup (map fst m)
      /\ (fix all (m : list (string * value)) : Prop :=
            match m with
            | [] => True
            | e :: m' => json_like (snd e) /\ all m'
            end) m
  | _ => True
  end.

(** No string twice. *)
Fixpoint distinct (l : list string) : bool :=
  match l with
  | [] => true
  | x :: l' => negb (existsb (String.eqb x) l') && distinct l'
  end.

(** An overrides object as [loadOverrides] or a caller may pass it: each
    key once, each value [undefined] or JSON data. *)
Definition overrides_like (o : list (string * value)) : Prop :=
  NoDup (map fst o)
  /\ Forall (fun e => snd e = VUndefined \/ json_like (snd e)) o.

(** The field names of the configuration. *)
Definition recognized : list string :=
  [ "apiUrl"; "apiKey"; "endpoints"; "sheetName"; "fullRefreshRange";
    "incrementalRefreshRange"; "triggerName" ].

(** [typeof v === 'object' && !Array.isArray(v)]. *)
Definition mergeable (v : value) : bool :=
  match v with VNull | VObj _ => true | _ => false end.

(** Following the words of the claim: a field of the merged configuration
    is the override's value where the override is present and not
    [undefined], and the default's value elsewhere. *)
Definition override_or_default (defaults overrides : value) (k : string) : value :=
  match lookup_own (own_entries overrides) k with
  | Some v => if is_undefined v then get defaults k else v
  | None => get defaults k
  end.

(** Following the code: as above, except that a non-array object (or
    [null]) given for a field whose default is truthy is merged into
    that default. *)
Definition merged_field (defaults overrides : value) (k : string) : outcome value :=
  match lookup_own (own_entries overrides) k with
  | Some v =>
      if is_undefined v then Ok (get defaults k)
      else if mergeable v && truthy (get defaults k)
           then Config.mergeConfig (get defaults k) v
           else Ok v
  | None => Ok (get defaults k)
  end.

(** What an iteration writes under its key: the recursive merge of the
    override into a truthy default, the override itself otherwise. *)
Definition written (recur : value -> outcome value) (m : list (string * value))
  (k : string) (v x : value) : Prop :=
  (mergeable v = true
   /\ exists d, lookup_own m k = Some d /\ truthy d = true /\ recur d = Ok x)
  \/ (x = v
      /\ (mergeable v = false
          \/ (exists d, lookup_own m k = Some d /\ truthy d = false)
          \/ (lookup_own m k = None /\ inherited_name k = false))).

(** Merging the object [v] is settled when the result of merging it into
    JSON data is JSON data that a second merge of [v] leaves as it is, and
    when merging [v] into itself gives [v]. *)
Definition settles (v : value) : Prop :=
  forall ps, v = VObj ps ->
    (forall d r, json_like d -> Config.mergeConfig d v = Ok r ->
                 json_like r /\ Config.mergeConfig r v = Ok r)
    /\ Config.mergeConfig v v = Ok v.

(** ** Sample hosts, configurations and worlds

    Concrete inputs on which the statements below are exercised. *)

Module Sample.

Definition upper (c : ascii) : ascii :=
  let n := nat_of_ascii c in
  if (97 <=? n)%nat && (n <=? 122)%nat then ascii_of_nat (n - 32) else c.

Fixpoint upper_string (s : string) : string :=
  match s with
  | EmptyString => EmptyString
  | String c s' => String (upper c) (upper_string s')
  end.

Definition pets : value :=
  VObj [ ("data", VArr [ VArr [ VStr "Rex"; VStr "dog" ]; VArr [ VStr "Tom"; VStr "cat" ] ]) ].

Definition owners : value :=
  VObj [ ("data", VArr [ VArr [ VStr "Ann"; VStr "owner" ] ]) ].

(** A reader that knows a few bodies by name. *)
Definition parse (s : string) : option value :=
  if String.eqb s "<pets>" then Some pets
  else if String.eqb s "<owners>" then Some owners
  else if String.eqb s "<empty object>" then Some (VObj [])
  else if String.eqb s "<extra endpoint>" then Some (VObj [ ("extra", VStr "/x") ])
  else if String.eqb s "<relative endpoint>" then Some (VObj [ ("fetchPets", VStr "pets") ])
  else if String.eqb s "<no endpoints>" then Some (VArr [])
  else None.

#[export] Instance host : Host := {|
  JSON_parse := parse;
  JSON_parse_error := fun _ => "Unexpected token";
  JSON_stringify := fun _ => None;
  toUpperCase := upper_string;
  a1_range := fun s =>
    if String.eqb s "A2:Z"
    then Some {| top := 2; left := 1; height := None; width := Some 26 |}
    else None
|}.

(** The network: the two default endpoints answer, anything else is 404. *)
Definition network (n : nat) (rq : request) : reply :=
  match req_url rq with
  | VStr u =>
      if String.eqb u "https://api.example.com/petsync/pets" then Responds 200 "<pets>"
      else if String.eqb u "https://api.example.com/petsync/owners" then Responds 200 "<owners>"
      else Responds 404 "<not found>"
  | _ => Fails "Exception" "Invalid argument: url"
  end.

Definition world0 : world :=
  {| triggers := [];
     logger := [];
     toast_failure := None;
     toasts := [];
     requests := [];
     transport := network;
     clock := fun n => (1000 + 25 * Z.of_nat n)%Z;
     clock_reads := 0;
     sheets := {[ "Pets" := ∅ ]};
     active_sheet := "Pets";
     sheet_calls := [] |}.

(** A configuration as [build_config] makes it when the script
    properties hold only [API_KEY]. *)
Definition config : value :=
  VObj [ ("apiUrl", VStr "https://api.example.com/petsync");
         ("apiKey", VStr "secret");
         ("endpoints", VObj [ ("fetchPets", VStr "/pets");
                              ("fetchOwners", VStr "/owners") ]);
         ("sheetName", VStr "Pets");
         ("fullRefreshRange", VStr "A2:Z");
         ("incrementalRefreshRange", VStr "A2:Z");
         ("triggerName", VStr "PetSync_FetchData") ].

(** The shape [fetchData] asks for: [endpoints] as an array of paths. *)
Definition array_config : value :=
  VObj [ ("apiUrl", VStr "https://api.example.com/petsync");
         ("apiKey", VStr "secret");
         ("endpoints", VArr [ VStr "/pets"; VStr "/owners" ]) ].

(** A configuration without endpoints. *)
Definition empty_config : value :=
  VObj [ ("apiUrl", VStr "https://api.example.com/petsync");
         ("apiKey", VStr "secret");
         ("endpoints", VObj []);
         ("sheetName", VStr "Pets");
         ("fullRefreshRange", VStr "A2:Z");
         ("incrementalRefreshRange", VStr "A2:Z");
         ("triggerName", VStr "PetSync_FetchData") ].

End Sample.

(** ** Config.gs: what the property stores set

    A store is read as the list of its entries; where a list names a key
    twice the later entry counts, as it does for [Object.assign]. *)

Fixpoint stored (ps : list (string * string)) (key : string) : option string :=
  match ps with
  | [] => None
  | (k, v) :: ps' =>
      match stored ps' key with
      | Some x => Some x
      | None => if String.eqb key k then Some v else None
      end
  end.

(** The value of a property: the user's when the user store has one, the
    script's otherwise. *)
Definition property (scriptProps userProps : list (string * string)) (key : string)
  : option string :=
  match stored userProps key with
  | Some v => Some v
  | None => stored scriptProps key
  end.

(** The properties [loadOverrides] copies as they are, each with the
    field it sets. *)
Definition settings : list (string * string) :=
  [ ("API_URL", "apiUrl"); ("API_KEY", "apiKey"); ("SHEET_NAME", "sheetName");
    ("FULL_REFRESH_RANGE", "fullRefreshRange");
    ("INCREMENTAL_REFRESH_RANGE", "incrementalRefreshRange");
    ("TRIGGER_NAME", "triggerName") ].

(** What the stores give for [endpoints]: the value of the JSON text
    under [ENDPOINTS], when there is one that can be read. *)
Definition endpoints_override `{Host} (scriptProps userProps : list (string * string))
  : option value :=
  match property scriptProps userProps "ENDPOINTS" with
  | Some s => JSON_parse s
  | None => None
  end.

(** ** Code.gs: the schedule of the automatic sync

    [setupTimeTrigger] works on the project triggers and tells the user
    what it did in a dialog.  The dialogs live beside the [world]: a
    [desk] is the document together with the user interface. *)

Record desk : Type := {
  book : world;
  (** what [SpreadsheetApp.getUi()] throws where no user interface is
      attached to the run; [None] when one is *)
  ui_failure : option (string * string);
  alerts : list string
}.

Definition with_book (w : world) (d : desk) : desk :=
  {| book := w; ui_failure := ui_failure d; alerts := alerts d |}.

Definition D (A : Type) : Type := desk -> outcome A * desk.

Definition dbind {A B} (c : D A) (k : A -> D B) : D B :=
  fun d =>
    match c d with
    | (Ok a, d') => k a d'
    | (Throw t, d') => (Throw t, d')
    | (OutOfFragment, d') => (OutOfFragment, d')
    end.

Notation "x <-- c ;; k" := (dbind c (fun x => k))
  (at level 100, c at next level, right associativity).

(** A computation on the document, run at the desk. *)
Definition on_book {A} (c : M A) : D A :=
  fun d => (fst (c (book d)), with_book (snd (c (book d))) d).

(** [SpreadsheetApp.getUi().alert(prompt)]. *)
Definition alert (prompt : string) : D unit :=
  fun d =>
    match ui_failure d with
    | Some (n, m) => (Throw (Err n m), d)
    | None =>
        (Ok tt, {| book := book d; ui_failure := ui_failure d;
                   alerts := alerts d ++ [prompt] |})
    end.

Definition schedule_eqb (a b : schedule) : bool :=
  match a, b with
  | EveryMinutes m, EveryMinutes n => Z.eqb m n
  | EveryHours m, EveryHours n => Z.eqb m n
  | _, _ => false
  end.

Definition trigger_eqb (a b : trigger) : bool :=
  String.eqb (handlerFunction a) (handlerFunction b)
  && schedule_eqb (every a) (every b).

(** The project triggers without one occurrence of [t]; [None] when the
    project has no such trigger. *)
Fixpoint remove_one (t : trigger) (ts : list trigger) : option (list trigger) :=
  match ts with
  | [] => None
  | u :: ts' =>
      if trigger_eqb t u then Some ts'
      else match remove_one t ts' with
           | Some r => Some (u :: r)
           | None => None
           end
  end.

(** What the trigger builder accepts as [everyMinutes(n)], and what it
    throws otherwise. *)
Class TriggerHost : Type := {
  everyMinutes_accepted : Z -> bool;
  everyMinutes_error : Z -> thrown
}.

Module Schedule.

Section WithHost.
Context `{TriggerHost}.

Definition getProjectTriggers : M (list trigger) := fun w => (Ok (triggers w), w).

(** [ScriptApp.deleteTrigger(trigger)], for a trigger of the project. *)
Definition deleteTrigger (t : trigger) : M unit :=
  fun w =>
    match remove_one t (triggers w) with
    | Some ts => (Ok tt, with_triggers ts w)
    | None => (OutOfFragment, w)
    end.

(** [ScriptApp.newTrigger(handler).timeBased().everyMinutes(n).create()]. *)
Definition create_everyMinutes (handler : string) (n : Z) : M unit :=
  fun w =>
    if everyMinutes_accepted n then
      (Ok tt, with_triggers
                (triggers w ++ [ {| handlerFunction := handler; every := EveryMinutes n |} ]) w)
    else (Throw (everyMinutes_error n), w).

(** The [forEach] over the triggers read at the start of the call. *)
Fixpoint delete_fetchData (ts : list trigger) : M unit :=
  match ts with
  | [] => ret tt
  | t :: rest =>
      _ <- (if String.eqb (handlerFunction t) "fetchData" then deleteTrigger t
            else ret tt) ;;
      delete_fetchData rest
  end.

Definition setupTimeTrigger (intervalMinutes enabled : value) : D unit :=
  ts <-- on_book getProjectTriggers ;;
  match enabled with
  | VBool false =>
      _ <-- on_book (delete_fetchData ts) ;;
      alert "Auto sync disabled."
  | _ =>
      _ <-- on_book (delete_fetchData ts) ;;
      let minutes := match intervalMinutes with VNum n => n | _ => 60%Z end in
      _ <-- on_book (create_everyMinutes "fetchData" minutes) ;;
      alert ("Auto sync set to every " +:+ string_of_Z minutes +:+ " minutes.")
  end.

End WithHost.

End Schedule.

(** The triggers that do not call [handler], in their order. *)
Definition unbound_from (handler : string) (ts : list trigger) : list trigger :=
  List.filter (fun t => negb (String.eqb (handlerFunction t) handler)) ts.



(** ** UtilityService.gs: text

    A string is the sequence of its UTF-16 code units; the characters of
    [string] stand for the code units below 256. *)

Module Text.

(** The length of the longest prefix without ['>']: what [[^>]*] takes. *)
Fixpoint run_without_gt (s : string) : nat :=
  match s with
  | EmptyString => 0
  | String c s' => if Ascii.eqb c ">" then 0 else S (run_without_gt s')
  end.

Fixpoint after (n : nat) (s : string) : string :=
  match n, s with
  | S n', String _ s' => after n' s'
  | _, _ => s
  end.

(** The match of [/<[^>]*>?/] at the head of [s]: its length, [None] when
    [s] does not start with ['<'].  Both quantifiers are greedy and the
    longest choice succeeds, so nothing is given back. *)
Definition tag_match (s : string) : option nat :=
  match s with
  | String c s' =>
      if Ascii.eqb c "<" then
        let n := run_without_gt s' in
        Some (1 + n + match after n s' with
                      | String c' _ => if Ascii.eqb c' ">" then 1 else 0
                      | EmptyString => 0
                      end)%nat
      else None
  | EmptyString => None
  end.

(** [s.replace(/<[^>]*>?/g, '')]: the matches are looked for from left
    to right, each search starting where the match before it ended;
    [skip] counts the characters of the current match still to pass. *)
Fixpoint replace_tags (skip : nat) (s : string) : string :=
  match s with
  | EmptyString => EmptyString
  | String c s' =>
      match skip with
      | S n => replace_tags n s'
      | O =>
          match tag_match s with
          | Some (S n) => replace_tags n s'
          | _ => String c (replace_tags 0 s')
          end
      end
  end.

(** WhiteSpace and LineTerminator among the code units below 256: tab,
    line feed, vertical tab, form feed, carriage return, space and the
    no-break space. *)
Definition is_white_space (c : ascii) : bool :=
  let n := nat_of_ascii c in
  ((9 <=? n) && (n <=? 13) || (n =? 32) || (n =? 160))%nat.

Fixpoint trim_start (s : string) : string :=
  match s with
  | EmptyString => EmptyString
  | String c s' => if is_white_space c then trim_start s' else s
  end.

Fixpoint trim_end (s : string) : string :=
  match s with
  | EmptyString => EmptyString
  | String c s' =>
      match trim_end s' with
      | EmptyString => if is_white_space c then EmptyString else String c EmptyString
      | r => String c r
      end
  end.

(** [String.prototype.trim]. *)
Definition trim (s : string) : string := trim_end (trim_start s).

Definition sanitizeString (input : value) : outcome value :=
  match input with
  | VStr s => Ok (VStr (trim (replace_tags 0 s)))
  | _ => Throw (Err "Error" "sanitizeString: input must be a string")
  end.

(** The same replacement read as a scanner with two states: outside a
    tag, and inside one (after a ['<'], up to and including the next
    ['>']). *)
Fixpoint scan (inside : bool) (s : string) : string :=
  match s with
  | EmptyString => EmptyString
  | String c s' =>
      if inside then
        if Ascii.eqb c ">" then scan false s' else scan true s'
      else
        if Ascii.eqb c "<" then scan true s' else String c (scan false s')
  end.

(** [c] occurs in [s]. *)
Fixpoint occurs (c : ascii) (s : string) : bool :=
  match s with
  | EmptyString => false
  | String c' s' => Ascii.eqb c c' || occurs c s'
  end.

Definition first_char (s : string) : option ascii :=
  match s with
  | EmptyString => None
  | String c _ => Some c
  end.

Fixpoint last_char (s : string) : option ascii :=
  match s with
  | EmptyString => None
  | String c EmptyString => Some c
  | String _ s' => last_char s'
  end.

End Text.

(** ** SidebarClient.js

    The page is the list of its elements in document order; a variable
    that holds an element holds its position in that list, so that two
    variables may hold the same element.  Of an element the script uses
    its attributes (among them [id]), the tokens of its [classList], its
    [disabled] property and its text. *)

Module Sidebar.

Record node : Type := {
  attributes : list (string * string);
  classList : list string;
  disabled : bool;
  textContent : string
}.

Fixpoint getAttribute (attrs : list (string * string)) (name : string) : option string :=
  match attrs with
  | [] => None
  | (n, v) :: attrs' => if String.eqb name n then Some v else getAttribute attrs' name
  end.

Fixpoint setAttribute (name value : string) (attrs : list (string * string))
  : list (string * string) :=
  match attrs with
  | [] => [(name, value)]
  | (n, v) :: attrs' =>
      if String.eqb name n then (n, value) :: attrs'
      else (n, v) :: setAttribute name value attrs'
  end.

Definition removeAttribute (name : string) (attrs : list (string * string))
  : list (string * string) :=
  List.filter (fun a => negb (String.eqb name (fst a))) attrs.

(** [classList.add(token)] and [classList.remove(token)]. *)
Definition token_add (token : string) (tokens : list string) : list string :=
  if existsb (String.eqb token) tokens then tokens else tokens ++ [token].

Definition token_remove (token : string) (tokens : list string) : list string :=
  List.filter (fun t => negb (String.eqb token t)) tokens.

(** The position of the first element that satisfies [p]. *)
Fixpoint first_index (p : node -> bool) (elements : list node) : option nat :=
  match elements with
  | [] => None
  | n :: elements' =>
      if p n then Some 0%nat
      else match first_index p elements' with
           | Some i => Some (S i)
           | None => None
           end
  end.

Definition has_attribute (name value : string) (n : node) : bool :=
  match getAttribute (attributes n) name with
  | Some v => String.eqb v value
  | None => false
  end.

(** [document.getElementById(id)], also [querySelector('#' + id)]. *)
Definition getElementById (elements : list node) (id : string) : option nat :=
  first_index (has_attribute "id" id) elements.

(** [document.querySelector('[data-ps-action="..."]')]. *)
Definition query_action (elements : list node) (action : string) : option nat :=
  first_index (has_attribute "data-ps-action" action) elements.

(** The page together with the variables and the effects of the script. *)
Record client : Type := {
  page : list node;
  (** [init] has run *)
  ready : bool;
  fetchBtn : option nat;
  closeBtn : option nat;
  statusEl : option nat;
  fetch_listener : bool;
  close_listener : bool;
  console : list string;
  (** calls of the server's [fetchData] still to be answered *)
  pending : nat;
  closed : bool
}.

Definition with_page (p : list node) (c : client) : client :=
  {| page := p; ready := ready c;
     fetchBtn := fetchBtn c; closeBtn := closeBtn c; statusEl := statusEl c;
     fetch_listener := fetch_listener c; close_listener := close_listener c;
     console := console c; pending := pending c; closed := closed c |}.

Definition with_pending (n : nat) (c : client) : client :=
  {| page := page c; ready := ready c;
     fetchBtn := fetchBtn c; closeBtn := closeBtn c; statusEl := statusEl c;
     fetch_listener := fetch_listener c; close_listener := close_listener c;
     console := console c; pending := n; closed := closed c |}.

(** The element at position [i] changed by [f]. *)
Definition update (i : nat) (f : node -> node) (c : client) : client :=
  match page c !! i with
  | Some n => with_page (<[i := f n]> (page c)) c
  | None => c
  end.

(** The state when the script has been evaluated and [DOMContentLoaded]
    has not fired yet. *)
Definition loaded (p : list node) : client :=
  {| page := p; ready := false; fetchBtn := None; closeBtn := None; statusEl := None;
     fetch_listener := false; close_listener := false;
     console := []; pending := 0; closed := false |}.

Definition or_else (a b : option nat) : option nat :=
  match a with Some _ => a | None => b end.

Definition init (c : client) : client :=
  let fetch := or_else (getElementById (page c) "ps-fetch-button")
                       (query_action (page c) "fetch") in
  let close := or_else (getElementById (page c) "ps-close-button")
                       (query_action (page c) "close") in
  {| page := page c;
     ready := true;
     fetchBtn := fetch;
     closeBtn := close;
     statusEl := getElementById (page c) "ps-status";
     fetch_listener := match fetch with Some _ => true | None => fetch_listener c end;
     close_listener := match close with Some _ => true | None => close_listener c end;
     console := match getElementById (page c) "ps-grid" with
                | Some _ => console c
                | None => console c ++ [ "Missing #ps-grid element" ]
                end;
     pending := pending c; closed := closed c |}.

(** What the helpers do to the element they work on. *)
Definition busy (n : node) : node :=
  {| attributes := setAttribute "aria-busy" "true" (attributes n);
     classList := token_add "ps-loading" (token_add "ps-disabled" (classList n));
     disabled := true;
     textContent := textContent n |}.

Definition released (n : node) : node :=
  {| attributes := removeAttribute "aria-busy" (attributes n);
     classList := token_remove "ps-loading" (token_remove "ps-disabled" (classList n));
     disabled := false;
     textContent := textContent n |}.

Definition cleared (n : node) : node :=
  {| attributes := removeAttribute "data-ps-state" (attributes n);
     classList := token_remove "ps-error" (token_remove "ps-success" (classList n));
     disabled := disabled n;
     textContent := "" |}.

Definition showing (text class state : string) (n : node) : node :=
  {| attributes := setAttribute "data-ps-state" state (attributes n);
     classList := token_add class (classList n);
     disabled := disabled n;
     textContent := text |}.

Definition no_button {A} : outcome A :=
  Throw (Err "TypeError" "Cannot set properties of null or undefined (setting 'disabled')").

Definition disableFetchButton (c : client) : outcome client :=
  match fetchBtn c with
  | Some i => Ok (update i busy c)
  | None => no_button
  end.

Definition enableFetchButton (c : client) : outcome client :=
  match fetchBtn c with
  | Some i => Ok (update i released c)
  | None => no_button
  end.

Definition clearStatus (c : client) : client :=
  match statusEl c with
  | Some j => update j cleared c
  | None => c
  end.

Definition handleFetchClick (c : client) : outcome client :=
  c1 <~ disableFetchButton c ;;
  let c2 := clearStatus c1 in
  Ok (with_pending (S (pending c2)) c2).

Definition handleCloseClick (c : client) : outcome client :=
  Ok {| page := page c; ready := ready c;
        fetchBtn := fetchBtn c; closeBtn := closeBtn c; statusEl := statusEl c;
        fetch_listener := fetch_listener c; close_listener := close_listener c;
        console := console c; pending := pending c; closed := true |}.

(** The three statements that end [onSuccess] and [onError]; the text
    of an element is a string. *)
Definition show (message : value) (class state : string) (j : nat) (c : client)
  : outcome client :=
  text <~ ToString message ;;
  Ok (update j (showing text class state) c).

Definition onSuccess (result : value) (c : client) : outcome client :=
  c1 <~ enableFetchButton c ;;
  match statusEl c1 with
  | None => Ok c1
  | Some j =>
      let message :=
        if truthy result && truthy (get result "message") then get result "message"
        else VStr "Data fetched successfully." in
      show message "ps-success" "success" j c1
  end.

(** The argument of the failure handler is what was thrown, as the
    client receives it. *)
Definition onError (error : thrown) (c : client) : outcome client :=
  c1 <~ enableFetchButton c ;;
  match statusEl c1 with
  | None => Ok c1
  | Some j =>
      let fallback := VStr "An error occurred." in
      message <~ match error with
                 | Err _ m => Ok (if truthy (VStr m) then VStr m else fallback)
                 | Raw v =>
                     if truthy v then
                       m <~ read v "message" ;;
                       Ok (if truthy m then m else fallback)
                     else Ok fallback
                 end ;;
      show message "ps-error" "error" j c1
  end.

(** What can happen to the page once the script is loaded. *)
Inductive event : Type :=
| DOMContentLoaded
| ClickFetch
| ClickClose
| Returned (result : value)
| Failed (error : thrown).

(** One event.  [init] runs once; a click reaches a handler only where
    [init] attached it, and an answer arrives only for a call that was
    made; the other events pass without effect. *)
Definition step (e : event) (c : client) : outcome client :=
  match e with
  | DOMContentLoaded => if ready c then Ok c else Ok (init c)
  | ClickFetch => if fetch_listener c then handleFetchClick c else Ok c
  | ClickClose => if close_listener c then handleCloseClick c else Ok c
  | Returned result =>
      match pending c with
      | O => Ok c
      | S n => onSuccess result (with_pending n c)
      end
  | Failed error =>
      match pending c with
      | O => Ok c
      | S n => onError error (with_pending n c)
      end
  end.

Fixpoint run (es : list event) (c : client) : outcome client :=
  match es with
  | [] => Ok c
  | e :: es' => c' <~ step e c ;; run es' c'
  end.


Section WithHost.
Context `{Host} `{ClientHost}.


End WithHost.

(** The message an answer carries, and the answers whose message can be
    made the text of an element. *)
Definition answer_message (e : event) : value :=
  match e with
  | Returned result => get result "message"
  | Failed (Err _ m) => VStr m
  | Failed (Raw v) => get v "message"
  | _ => VUndefined
  end.

Definition plain (e : event) : bool := is_ok (ToString (answer_message e)).

(** What holds of every state the events lead to from the page [p]:
    before [init] there is no listener and no call, a listener or a call
    under way means the button was found, and the page has the elements
    it had. *)
Definition steady (p : list node) (c : client) : Prop :=
  (ready c = false -> fetch_listener c = false /\ pending c = 0%nat)
  /\ (fetch_listener c = true -> is_Some (fetchBtn c))
  /\ ((0 < pending c)%nat -> is_Some (fetchBtn c))
  /\ length (page c) = length p.

(** A state as [init] leaves it on a page that has the button and the
    status element: the two variables hold elements of the page and the
    button has its listener. *)
Definition wired (c : client) (i j : nat) : Prop :=
  fetchBtn c = Some i /\ statusEl c = Some j /\ fetch_listener c = true
  /\ is_Some (page c !! i) /\ is_Some (page c !! j).


(** How the button and the status element look. *)
Definition idle (n : node) : Prop :=
  disabled n = false
  /\ ~ In "ps-disabled" (classList n) /\ ~ In "ps-loading" (classList n)
  /\ getAttribute (attributes n) "aria-busy" = None.

Definition shows (text class state : string) (n : node) : Prop :=
  textContent n = text
  /\ In class (classList n)
  /\ getAttribute (attributes n) "data-ps-state" = Some state.

End Sidebar.

(** ** More sample hosts *)

Module Sample2.

(** A trigger builder that takes the intervals 1, 5, 10, 15 and 30. *)
#[export] Instance trigger_host : TriggerHost := {|
  everyMinutes_accepted := fun n =>
    existsb (Z.eqb n) [1; 5; 10; 15; 30]%Z;
  everyMinutes_error := fun _ =>
    Err "Exception" "The value you passed to everyMinutes was invalid."
|}.

(** A project with an hourly sync and a trigger of another handler. *)
Definition desk0 : desk :=
  {| book := with_triggers
               [ {| handlerFunction := "fetchData"; every := EveryHours 1 |};
                 {| handlerFunction := "cleanUp"; every := EveryHours 24 |} ]
               Sample.world0;
     ui_failure := None;
     alerts := [] |}.

(** Two stores: the user renames the sheet the script owner chose. *)
Definition script_store : list (string * string) :=
  [ ("API_KEY", "secret"); ("SHEET_NAME", "Animals"); ("ENDPOINTS", "<extra endpoint>") ].

Definition user_store : list (string * string) :=
  [ ("SHEET_NAME", "Mine"); ("THEME", "dark") ].

(** The configuration built from them. *)
Definition built : value :=
  VObj [ ("apiUrl", VStr "https://api.example.com/petsync");
         ("apiKey", VStr "secret");
         ("endpoints", VObj [ ("fetchPets", VStr "/pets");
                              ("fetchOwners", VStr "/owners");
                              ("extra", VStr "/x") ]);
         ("sheetName", VStr "Mine");
         ("fullRefreshRange", VStr "A2:Z");
         ("incrementalRefreshRange", VStr "A2:Z");
         ("triggerName", VStr "PetSync_FetchData") ].

(** A reader that also knows the text [null]. *)
Definition null_host : Host := {|
  JSON_parse := fun s => if String.eqb s "null" then Some VNull else Sample.parse s;
  JSON_parse_error := fun _ => "Unexpected token";
  JSON_stringify := fun _ => None;
  toUpperCase := Sample.upper_string;
  a1_range := fun _ => None
|}.

(** A sidebar page: a grid, the two buttons and a status line that still
    shows an earlier success. *)
Definition sidebar_page : list Sidebar.node :=
  [ {| Sidebar.attributes := [ ("id", "ps-grid") ]; Sidebar.classList := [];
       Sidebar.disabled := false; Sidebar.textContent := "" |};
    {| Sidebar.attributes := [ ("id", "ps-fetch-button") ];
       Sidebar.classList := [ "ps-button" ];
       Sidebar.disabled := false; Sidebar.textContent := "Fetch" |};
    {| Sidebar.attributes := [ ("data-ps-action", "close") ];
       Sidebar.classList := [ "ps-button" ];
       Sidebar.disabled := false; Sidebar.textContent := "Close" |};
    {| Sidebar.attributes := [ ("id", "ps-status"); ("data-ps-state", "success") ];
       Sidebar.classList := [ "ps-success" ];
       Sidebar.disabled := false; Sidebar.textContent := "Data fetched successfully." |} ].

Definition sidebar0 : Sidebar.client := Sidebar.init (Sidebar.loaded sidebar_page).



(** A world whose network is down and whose toasts fail. *)
Definition offline : world :=
  {| triggers := [];
     logger := [];
     toast_failure := Some ("Exception", "No active spreadsheet");
     toasts := [];
     requests := [];
     transport := fun _ _ => Fails "Exception" "Address unavailable";
     clock := fun n => (1000 + 25 * Z.of_nat n)%Z;
     clock_reads := 0;
     sheets := {[ "Pets" := ∅ ]};
     active_sheet := "Pets";
     sheet_calls := [] |}.

End Sample2.

(** * Properties *)

(** ** Small facts about the monad and the helpers *)

Lemma bind_ok {A B} (c : M A) (k : A -> M B) (w w' : world) (a : A) :
  c w = (Ok a, w') -> bind c k w = k a w'.
Proof. intros E. unfold bind. now rewrite E. Qed.

Lemma bind_throw {A B} (c : M A) (k : A -> M B) (w w' : world) (t : thrown) :
  c w = (Throw t, w') -> bind c k w = (Throw t, w').
Proof. intros E. unfold bind. now rewrite E. Qed.

Lemma bound_to_app (h : string) (ts us : list trigger) :
  bound_to h (ts ++ us) = (bound_to h ts + bound_to h us)%nat.
Proof. unfold bound_to. now rewrite List.filter_app, length_app. Qed.

Lemma bound_to_zero (h : string) (ts : list trigger) :
  bound_to h ts = 0%nat <->
  existsb (fun t => String.eqb (handlerFunction t) h) ts = false.
Proof.
  unfold bound_to. induction ts as [|t ts IH]; simpl.
  - tauto.
  - destruct (String.eqb (handlerFunction t) h); simpl.
    + split; intros E; discriminate E.
    + exact IH.
Qed.

(** ** setupTriggers *)

(** C7. [setupTriggers] is idempotent.  From any state of the project
    triggers: when a trigger for ['fetchData'] exists the call changes
    nothing; otherwise it adds exactly one trigger, firing every hour;
    a second call in succession changes nothing; and the number of
    triggers bound to the handler after two calls is one as soon as at
    most one existed before (in general it is the larger of one and the
    number before). *)
Theorem setupTriggers_idempotent (w : world) :
  let once := snd (Code.setupTriggers w) in
  let twice := snd (Code.setupTriggers once) in
  fst (Code.setupTriggers w) = Ok tt
  /\ (bound_to "fetchData" (triggers w) <> 0%nat -> once = w)
  /\ (bound_to "fetchData" (triggers w) = 0%nat ->
      once = with_triggers (triggers w ++ [hourly_fetchData]) w)
  /\ twice = once
  /\ bound_to "fetchData" (triggers twice)
     = Nat.max 1 (bound_to "fetchData" (triggers w))
  /\ ((bound_to "fetchData" (triggers w) <= 1)%nat ->
      bound_to "fetchData" (triggers twice) = 1%nat).
Proof.
  cbv zeta.
  assert (Hstep : forall v : world,
             Code.setupTriggers v =
             (Ok tt,
              if existsb (fun t => String.eqb (handlerFunction t) "fetchData") (triggers v)
              then v
              else with_triggers (triggers v ++ [hourly_fetchData]) v)).
  { intros v. unfold Code.setupTriggers, hourly_fetchData.
    destruct (existsb _ (triggers v)); reflexivity. }
  rewrite !Hstep. simpl fst. simpl snd.
  destruct (existsb (fun t => String.eqb (handlerFunction t) "fetchData") (triggers w))
    eqn:Hex.
  - assert (Hpos : bound_to "fetchData" (triggers w) <> 0%nat).
    { intros Hz. apply bound_to_zero in Hz. congruence. }
    rewrite Hex. repeat split; try reflexivity; try lia; intros; try contradiction; lia.
  - assert (Hz : bound_to "fetchData" (triggers w) = 0%nat) by now apply bound_to_zero.
    assert (Hnew : existsb (fun t => String.eqb (handlerFunction t) "fetchData")
                     (triggers (with_triggers (triggers w ++ [hourly_fetchData]) w)) = true).
    { simpl. rewrite existsb_app. simpl. now rewrite orb_true_r. }
    rewrite Hnew. simpl triggers. rewrite bound_to_app, Hz.
    repeat split; try reflexivity; intros; try contradiction; try lia.
Qed.

Lemma setupTriggers_idempotent_witness :
  bound_to "fetchData" (triggers Sample.world0) = 0%nat
  /\ bound_to "fetchData"
       (triggers (snd (Code.setupTriggers (snd (Code.setupTriggers Sample.world0))))) = 1%nat.
Proof.
  split.
  - reflexivity.
  - apply (setupTriggers_idempotent Sample.world0). vm_compute. lia.
Defined.

(** ** validateResponse *)

Section ValidateResponse.

(** The two examples of the contract. *)
Lemma validateResponse_missing_b :
  UtilityService.validateResponse (VObj [ ("a", VNum 1) ]) (VArr [ VStr "a"; VStr "b" ])
  = Throw (Err "Error" ("validateResponse: missing required key " +:+ dquote +:+ "b" +:+ dquote)).
Proof. reflexivity. Qed.

Lemma validateResponse_a_b :
  UtilityService.validateResponse (VObj [ ("a", VNum 1); ("b", VNum 2) ])
    (VArr [ VStr "a"; VStr "b" ]) = Ok (VBool true).
Proof. reflexivity. Qed.

(** [requiredKeys] must be an array, [response] a non-null object. *)
Lemma validateResponse_not_array (response requiredKeys : value) :
  isArray requiredKeys = false ->
  is_throw (UtilityService.validateResponse response requiredKeys) = true.
Proof.
  intros Hk. unfold UtilityService.validateResponse.
  destruct (negb (String.eqb (typeof response) "object") || _); [reflexivity|].
  destruct requiredKeys; try reflexivity. discriminate Hk.
Qed.

Lemma validateResponse_not_object (response requiredKeys : value) :
  (forall m, response <> VObj m) -> (forall l, response <> VArr l) ->
  UtilityService.validateResponse response requiredKeys
  = Throw (Err "Error" "validateResponse: response must be a non-null object").
Proof.
  intros Ho Ha. destruct response; try reflexivity.
  - now destruct (Ha elems).
  - now destruct (Ho props).
Qed.

(** On a plain object that does not itself carry a property named
    [hasOwnProperty], the check succeeds exactly when every required
    name is an own property, whatever the values are. *)
Lemma require_keys_plain (m : list (string * value)) (keys : list string) :
  has_own m "hasOwnProperty" = false ->
  UtilityService.require_keys (VObj m) (map VStr keys) = Ok tt
  <-> forallb (has_own m) keys = true.
Proof.
  intros Hs. induction keys as [|k keys IH]; simpl.
  - tauto.
  - rewrite Hs. simpl. destruct (has_own m k); simpl.
    + exact IH.
    + split; intros E; discriminate E.
Qed.

Lemma validateResponse_plain (m : list (string * value)) (keys : list string) :
  has_own m "hasOwnProperty" = false ->
  (UtilityService.validateResponse (VObj m) (VArr (map VStr keys)) = Ok (VBool true)
   <-> forallb (has_own m) keys = true)
  /\ (is_throw (UtilityService.validateResponse (VObj m) (VArr (map VStr keys))) = true
      <-> forallb (has_own m) keys = false).
Proof.
  intros Hs. unfold UtilityService.validateResponse. simpl.
  pose proof (require_keys_plain m keys Hs) as Hr.
  destruct (UtilityService.require_keys (VObj m) (map VStr keys)) as [[]|t|] eqn:E; simpl.
  - destruct Hr as [Hr _]. rewrite (Hr eq_refl). split; split; intros; try reflexivity; discriminate.
  - destruct (forallb (has_own m) keys).
    + destruct Hr as [_ Hr]. discriminate (Hr eq_refl).
    + split; split; intros; try reflexivity; discriminate.
  - exfalso. clear Hr. revert E. induction keys as [|k keys IH]; simpl.
    + discriminate.
    + rewrite Hs. simpl. destruct (has_own m k); simpl; [exact IH|discriminate].
Qed.

(** The presence check does not look at the value stored under a key. *)
Lemma has_own_replace (m : list (string * value)) (k k' : string) (v : value) :
  has_own (replace_own m k' v) k = has_own m k.
Proof.
  unfold has_own. induction m as [|[k0 v0] m IH]; simpl; [reflexivity|].
  destruct (String.eqb k' k0) eqn:E0; simpl.
  - destruct (String.eqb k k0); reflexivity.
  - destruct (String.eqb k k0); [reflexivity|exact IH].
Qed.

(** C6. [validateResponse] is documented to throw when the response is
    invalid or misses a required key.  On the decoded JSON object
    [{hasOwnProperty: 1, a: 1}] with [requiredKeys = ['a']] the response
    is a non-null object, [requiredKeys] is an array and the required key
    is an own property, yet the call fails: the presence check is the
    method call [response.hasOwnProperty(key)], and the response's own
    property shadows the method. *)
Theorem validateResponse_shadowed_method :
  let response := VObj [ ("hasOwnProperty", VNum 1); ("a", VNum 1) ] in
  let requiredKeys := VArr [ VStr "a" ] in
  String.eqb (typeof response) "object" = true
  /\ response <> VNull
  /\ isArray requiredKeys = true
  /\ has_own (own_entries response) "a" = true
  /\ UtilityService.validateResponse response requiredKeys
     = Throw (Err "TypeError" "response.hasOwnProperty is not a function").
Proof. cbv zeta. repeat split. discriminate. Qed.

End ValidateResponse.

(** ** callApi *)

Section CallApi.
Context `{Host}.

Lemma string_of_Z_404 : string_of_Z 404 = "404".
Proof. reflexivity. Qed.

(** What [callApi] does once the transport has answered the request. *)
Lemma callApi_after_response (u : string) (options : value) (w : world)
  (code : Z) (body : string) :
  u <> "" ->
  let opts := if truthy options then options else VObj [] in
  let rq := {| req_url := VStr u; req_params := UtilityService.fetchOptions opts |} in
  transport w (length (requests w)) rq = Responds code body ->
  let w' :=
    with_logger
      (logger w ++
       [ "callApi: " +:+ UtilityService.method_of opts +:+ " " +:+ u +:+ " took "
         +:+ string_of_Z (clock w (S (clock_reads w)) - clock w (clock_reads w)) +:+ "ms" ])
      (with_clock_reads (S (S (clock_reads w))) (with_requests (requests w ++ [rq]) w)) in
  UtilityService.callApi (VStr u) options w
  = if (code <? 200)%Z || (300 <=? code)%Z
    then (Throw (Err "Error" ("callApi: HTTP " +:+ string_of_Z code +:+ " - " +:+ body)), w')
    else match JSON_parse body with
         | Some v => (Ok v, w')
         | None => (Throw (Err "Error" ("callApi: JSON parse error - " +:+ JSON_parse_error body)), w')
         end.
Proof.
  intros Hu opts rq Ht w'.
  unfold UtilityService.callApi.
  destruct (String.eqb u "") eqn:Eu.
  { apply String.eqb_eq in Eu. contradiction. }
  fold opts.
  unfold bind, now, try_catch, UrlFetchApp_fetch, Logger_log, throw, ret.
  cbn [transport requests with_clock_reads with_requests].
  fold rq. rewrite Ht.
  cbn [getResponseCode getContentText].
  destruct ((code <? 200)%Z || (300 <=? code)%Z).
  - reflexivity.
  - destruct (JSON_parse body); reflexivity.
Qed.

(** C5. For every non-empty URL and every options value: the request
    is issued with [muteHttpExceptions] set, so the transport hands back
    the response whatever its status; when that response has status 404
    (more generally any status outside [200,300)) [callApi] then raises
    an error whose message carries the status code and the raw body;
    when the status is in [200,300) and the body is valid JSON it
    returns the parsed value. *)
Theorem callApi_status (u : string) (options : value) (w : world)
  (code : Z) (body : string) :
  u <> "" ->
  let opts := if truthy options then options else VObj [] in
  let rq := {| req_url := VStr u; req_params := UtilityService.fetchOptions opts |} in
  transport w (length (requests w)) rq = Responds code body ->
  let r := UtilityService.callApi (VStr u) options w in
  requests (snd r) = requests w ++ [rq]
  /\ get (req_params rq) "muteHttpExceptions" = VBool true
  /\ (code = 404%Z ->
      fst r = Throw (Err "Error" ("callApi: HTTP 404 - " +:+ body)))
  /\ ((code < 200 \/ 300 <= code)%Z ->
      fst r = Throw (Err "Error" ("callApi: HTTP " +:+ string_of_Z code +:+ " - " +:+ body)))
  /\ ((200 <= code < 300)%Z -> forall v, JSON_parse body = Some v -> fst r = Ok v).
Proof.
  intros Hu opts rq Ht r.
  pose proof (callApi_after_response u options w code body Hu Ht) as E.
  cbv zeta in E. fold opts in E. fold rq in E.
  subst r. rewrite E. clear E.
  split; [|split; [reflexivity|split; [|split]]].
  - destruct ((code <? 200)%Z || (300 <=? code)%Z); [reflexivity|].
    destruct (JSON_parse body); reflexivity.
  - intros ->. reflexivity.
  - intros Hc.
    assert (Hb : (code <? 200)%Z || (300 <=? code)%Z = true).
    { apply orb_true_iff. destruct Hc; [left; now apply Z.ltb_lt | right; now apply Z.leb_le]. }
    now rewrite Hb.
  - intros Hc v Hv.
    assert (Hb : (code <? 200)%Z || (300 <=? code)%Z = false).
    { apply orb_false_iff. split; [apply Z.ltb_ge | apply Z.leb_gt]; lia. }
    now rewrite Hb, Hv.
Qed.

End CallApi.

Lemma callApi_status_witness :
  fst (@UtilityService.callApi Sample.host (VStr "https://x/y") VUndefined Sample.world0)
  = Throw (Err "Error" "callApi: HTTP 404 - <not found>").
Proof.
  refine (proj1 (proj2 (proj2
            (@callApi_status Sample.host "https://x/y" VUndefined Sample.world0 404
               "<not found>" _ _))) eq_refl).
  - discriminate.
  - reflexivity.
Defined.

(** An empty URL is refused before any request is made. *)
Lemma callApi_empty_url `{Host} (options : value) (w : world) :
  UtilityService.callApi (VStr "") options w
  = (Throw (Err "Error" "callApi: url must be a non-empty string"), w).
Proof. reflexivity. Qed.

(** ** Validation of the configuration *)

Lemma prefix_append (p s : string) : String.prefix p (p +:+ s) = true.
Proof.
  induction p as [|a p IH]; simpl.
  - now destruct s.
  - destruct (Ascii.ascii_dec a a); [exact IH | contradiction].
Qed.

Lemma validation_message (msg : string) :
  String.prefix "Config validation failed: " ("Config validation failed: " +:+ msg) = true.
Proof. apply prefix_append. Qed.

Lemma validate_endpoints_spec (es : list (string * value)) :
  (Config.validate_endpoints es = Ok tt <-> forallb (fun e => slash_path (snd e)) es = true)
  /\ (Config.validate_endpoints es = Ok tt
      \/ exists msg, Config.validate_endpoints es = Config.fail msg
                     /\ String.prefix "Config validation failed: " msg = true).
Proof.
  induction es as [|[name path] es [IH1 IH2]]; simpl.
  - split; [tauto | now left].
  - destruct path; simpl;
      try (split; [split; intros E; discriminate E
                  | right; eexists; split; [reflexivity | apply validation_message]]).
    destruct (String.eqb s "") eqn:Es.
    + apply String.eqb_eq in Es. subst s. simpl.
      split; [split; intros E; discriminate E
             | right; eexists; split; [reflexivity | apply validation_message]].
    + destruct (String.prefix "/" s) eqn:Ep; simpl.
      * split; [exact IH1 | exact IH2].
      * split; [split; intros E; discriminate E
               | right; eexists; split; [reflexivity | apply validation_message]].
Qed.

Ltac rejected :=
  split; [split; intros E; discriminate E
         | intros _ _; right; eexists; split; [reflexivity | apply validation_message]].

Lemma validate_spec (config : value) :
  (Config.validate config = Ok tt <-> valid config = true)
  /\ (config <> VUndefined -> config <> VNull ->
      Config.validate config = Ok tt
      \/ exists msg, Config.validate config = Config.fail msg
                     /\ String.prefix "Config validation failed: " msg = true).
Proof.
  unfold Config.validate, valid, fields_valid.
  destruct config as [| |b|n|s|l|m];
    try (split; [split; intros E; discriminate E | intros H1 H2; congruence]).
  all: cbn [read obind].
  all: match goal with
       | |- context [get ?c "apiUrl"] =>
           generalize (get c "apiUrl") (get c "apiKey") (get c "endpoints")
             (get c "sheetName") (get c "fullRefreshRange")
             (get c "incrementalRefreshRange") (get c "triggerName")
       end.
  all: intros vUrl vKey vEps vSheet vFull vIncr vTrig.
  all: assert (Hurl : negb (truthy vUrl) || negb (String.eqb (typeof vUrl) "string")
                      || negb (match vUrl with VStr s => Config.http_url s | _ => false end)
                      = negb (match vUrl with VStr s => Config.http_url s | _ => false end))
         by (destruct vUrl as [| |b0|n0|u|l0|m0]; simpl; rewrite ?orb_true_r; try reflexivity;
             destruct (String.eqb u "") eqn:Eu; [apply String.eqb_eq in Eu; subst u|]; reflexivity).
  all: rewrite Hurl; clear Hurl.
  all: assert (Heps : negb (truthy vEps) || negb (String.eqb (typeof vEps) "object")
                      = negb (match vEps with VObj _ | VArr _ => true | _ => false end))
         by (destruct vEps as [| |b0|n0|u|l0|m0]; simpl; rewrite ?orb_true_r; reflexivity).
  all: rewrite Heps; clear Heps.
  all: destruct (match vUrl with VStr s => Config.http_url s | _ => false end);
       cbn [negb andb];
       [| rejected].
  all: destruct (Config.nonempty_string vKey);
       cbn [negb andb];
       [| rejected].
  all: destruct (validate_endpoints_spec (own_entries vEps)) as [Hv1 Hv2].
  all: destruct vEps as [| |b0|n0|u|es|es]; cbn [negb endpoints_valid];
       try (split; [split; intros E; [discriminate E | rewrite ?andb_false_r in E; discriminate E]
                   | intros _ _; right; eexists; split; [reflexivity | apply validation_message]]).
  all: match goal with
       | |- context [Config.validate_endpoints ?e] =>
           destruct (Config.validate_endpoints e) as [[]|t|] eqn:Ev
       end.
  all: cbn [obind].
  all: try (destruct Hv2 as [Hv2 | [msg [Hv2 Hp]]]; [discriminate Hv2 | try discriminate Hv2]).
  all: try (injection Hv2 as ->;
            split; [split; intros E; [discriminate E|];
                    apply andb_true_iff in E; destruct E as [_ E];
                    apply Hv1 in E; discriminate E
                   | intros _ _; right; eexists; split; [reflexivity | exact Hp]]).
  all: destruct (Config.nonempty_string vSheet); cbn [negb andb];
       [| rejected].
  all: destruct (Config.nonempty_string vFull); cbn [negb andb];
       [| rejected].
  all: destruct (Config.nonempty_string vIncr); cbn [negb andb];
       [| rejected].
  all: destruct (Config.nonempty_string vTrig); cbn [negb andb];
       [| rejected].
  all: split; [exact Hv1 | intros _ _; now left].
Qed.

(** ** Construction of the configuration *)

Lemma mergeConfig_entries (defaults : value) (ps : list (string * value)) :
  Config.mergeConfig defaults (VObj ps)
  = (merged0 <~ json_clone defaults ;; Config.merge_entries ps merged0).
Proof.
  simpl. destruct (json_clone defaults) as [merged0| |]; reflexivity.
Qed.

Lemma set_prop_object (m : list (string * value)) (k : string) (v r : value) :
  set_prop (VObj m) k v = Ok r -> exists m', r = VObj m'.
Proof.
  unfold set_prop. destruct (has_own m k).
  - intros E. injection E as <-. eauto.
  - destruct (String.eqb k "__proto__").
    + destruct v; intros E; try discriminate E; injection E as <-; eauto.
    + intros E. injection E as <-. eauto.
Qed.

Lemma merge_entry_object (recur : value -> outcome value)
  (m : list (string * value)) (k : string) (ov r : value) :
  Config.merge_entry recur (VObj m) k ov = Ok r -> exists m', r = VObj m'.
Proof.
  unfold Config.merge_entry. destruct ov.
  1: { intros E. injection E as <-. eauto. }
  2-5: apply set_prop_object.
  all: destruct (Config.read_dyn m k) as [d| |].
  all: try (destruct (truthy d); [destruct (recur d); simpl; try discriminate|]).
  all: try apply set_prop_object.
  all: destruct (String.eqb k "__proto__"); discriminate.
Qed.

Lemma merge_entries_object (ps : list (string * value)) (m : list (string * value))
  (r : value) :
  Config.merge_entries ps (VObj m) = Ok r -> exists m', r = VObj m'.
Proof.
  revert m. induction ps as [|[key ov] ps IH]; intros m; simpl.
  - intros E. injection E as <-. eauto.
  - destruct (Config.merge_entry _ (VObj m) key ov) as [merged'| |] eqn:E; simpl;
      try discriminate.
    apply merge_entry_object in E. destruct E as [m' ->]. apply IH.
Qed.

Lemma mergeConfig_object (m ps : list (string * value)) (cfg : value) :
  Config.mergeConfig (VObj m) (VObj ps) = Ok cfg -> exists m', cfg = VObj m'.
Proof.
  rewrite mergeConfig_entries. cbn [json_clone obind json_value].
  apply merge_entries_object.
Qed.

Section Construction.
Context `{Host}.

Lemma override_entry_object (o : list (string * value)) (key : string) (val r : value) :
  Config.override_entry (VObj o) key val = Ok r -> exists o', r = VObj o'.
Proof.
  unfold Config.override_entry.
  repeat match goal with
         | |- (if ?c then _ else _) = _ -> _ => destruct c
         end;
    try apply set_prop_object.
  - destruct (s <~ ToString val ;; _) as [v| |]; try discriminate.
    apply set_prop_object.
  - intros E. injection E as <-. eauto.
Qed.

Lemma override_entries_object (es : list (string * value)) (o : list (string * value))
  (r : value) :
  Config.override_entries (VObj o) es = Ok r -> exists o', r = VObj o'.
Proof.
  revert o. induction es as [|[key val] es IH]; intros o; simpl.
  - intros E. injection E as <-. eauto.
  - destruct (Config.override_entry (VObj o) key val) as [o1| |] eqn:E; simpl;
      try discriminate.
    apply override_entry_object in E. destruct E as [o' ->]. apply IH.
Qed.

Lemma loadOverrides_object (script user : list (string * string)) (r : value) :
  Config.loadOverrides script user = Ok r -> exists o, r = VObj o.
Proof.
  unfold Config.loadOverrides.
  destruct (Config.all_properties script user); simpl; try discriminate.
  apply override_entries_object.
Qed.

(** Entries before [ENDPOINTS] are copied; the first [ENDPOINTS] entry
    that is not JSON stops the loop. *)
Lemma override_entries_invalid_json (ps o : list (string * value)) (s : string) :
  lookup_own ps "ENDPOINTS" = Some (VStr s) ->
  JSON_parse s = None ->
  Config.override_entries (VObj o) ps
  = Config.fail "Invalid JSON for ENDPOINTS in PropertiesService".
Proof.
  revert o. induction ps as [|[key val] ps IH]; intros o Hl Hp;
    cbn [lookup_own Config.override_entries] in *.
  - discriminate Hl.
  - destruct (String.eqb "ENDPOINTS" key) eqn:Ek.
    + apply String.eqb_eq in Ek. subst key. injection Hl as ->.
      unfold Config.override_entry. simpl. rewrite Hp. reflexivity.
    + destruct (Config.override_entry (VObj o) key val) as [o1| |] eqn:E; simpl.
      * apply override_entry_object in E. destruct E as [o' ->]. now apply IH.
      * exfalso. unfold Config.override_entry in E.
        rewrite (String.eqb_sym key "ENDPOINTS"), Ek in E.
        repeat match type of E with
               | (if ?c then _ else _) = _ => destruct c
               end;
          try (unfold set_prop in E; destruct (has_own o _); discriminate E).
        discriminate E.
      * exfalso. unfold Config.override_entry in E.
        rewrite (String.eqb_sym key "ENDPOINTS"), Ek in E.
        repeat match type of E with
               | (if ?c then _ else _) = _ => destruct c
               end;
          try (unfold set_prop in E; destruct (has_own o _); discriminate E).
        discriminate E.
Qed.

Lemma build_config_invalid (script user : list (string * string)) (overrides cfg : value) :
  Config.loadOverrides script user = Ok overrides ->
  Config.mergeConfig Config.DEFAULTS overrides = Ok cfg ->
  valid cfg = false ->
  exists msg, Config.build_config script user = Config.fail msg
              /\ String.prefix "Config validation failed: " msg = true.
Proof.
  intros Hl Hm Hv. unfold Config.build_config. rewrite Hl. cbn [obind]. rewrite Hm.
  cbn [obind].
  destruct (loadOverrides_object _ _ _ Hl) as [o ->].
  destruct (mergeConfig_object _ _ _ Hm) as [m ->].
  destruct (validate_spec (VObj m)) as [Hiff Hor].
  destruct Hor as [Hok | [msg [Hf Hp]]]; try discriminate.
  - apply Hiff in Hok. congruence.
  - exists msg. rewrite Hf. split; [reflexivity | exact Hp].
Qed.

Lemma all_properties_total (script user : list (string * string)) :
  exists ps, Config.all_properties script user = Ok (VObj ps).
Proof.
  assert (Hassign : forall (ps : list (string * string)) (m : list (string * value)),
             exists m', Config.object_assign (VObj m) (Config.properties_object ps)
                        = Ok (VObj m')).
  { unfold Config.object_assign, Config.properties_object. cbn [own_entries].
    induction ps as [|[k v] ps IH]; intros m; cbn [map Config.assign_entries].
    - eauto.
    - assert (Hs : exists m1, set_prop (VObj m) k (VStr v) = Ok (VObj m1)).
      { unfold set_prop. destruct (has_own m k); [eauto|].
        destruct (String.eqb k "__proto__"); eauto. }
      destruct Hs as [m1 ->]. cbn [obind]. apply IH. }
  unfold Config.all_properties.
  destruct (Hassign script []) as [m1 ->]. cbn [obind]. apply Hassign.
Qed.

(** C4. The construction of [_config] fails, with a message that names
    the problem, (1) when the [ENDPOINTS] property is not valid JSON, and,
    once the overrides are merged over the defaults, (2) when the merged
    [apiKey] is absent or empty or (3) when some entry of the merged
    [endpoints] is not a string starting with a slash. *)
Theorem build_config_fails (script user : list (string * string)) :
  (forall ps s,
      Config.all_properties script user = Ok (VObj ps) ->
      lookup_own ps "ENDPOINTS" = Some (VStr s) ->
      JSON_parse s = None ->
      Config.build_config script user
      = Config.fail "Invalid JSON for ENDPOINTS in PropertiesService")
  /\ (forall overrides cfg,
        Config.loadOverrides script user = Ok overrides ->
        Config.mergeConfig Config.DEFAULTS overrides = Ok cfg ->
        (get cfg "apiKey" = VUndefined \/ get cfg "apiKey" = VStr ""
         \/ exists name path,
              In (name, path) (own_entries (get cfg "endpoints"))
              /\ slash_path path = false) ->
        exists msg,
          Config.build_config script user = Config.fail msg
          /\ String.prefix "Config validation failed: " msg = true).
Proof.
  split.
  - intros ps s Ha Hl Hp. unfold Config.build_config, Config.loadOverrides.
    rewrite Ha. cbn [obind own_entries].
    now rewrite (override_entries_invalid_json ps [] s Hl Hp).
  - intros overrides cfg Hl Hm Hbad.
    apply (build_config_invalid script user overrides cfg Hl Hm).
    destruct (loadOverrides_object _ _ _ Hl) as [o ->].
    destruct (mergeConfig_object _ _ _ Hm) as [m ->].
    unfold valid, fields_valid.
    destruct Hbad as [Hk | [Hk | [name [path [Hin Hs]]]]].
    + rewrite Hk. cbn. now rewrite andb_false_r.
    + rewrite Hk. cbn. now rewrite andb_false_r.
    + apply andb_false_iff. right. unfold endpoints_valid.
      destruct (get (VObj m) "endpoints"); try reflexivity.
      * apply not_true_is_false. intros Hall.
        rewrite forallb_forall in Hall. specialize (Hall (name, path) Hin).
        simpl in Hall. congruence.
      * apply not_true_is_false. intros Hall.
        rewrite forallb_forall in Hall. specialize (Hall (name, path) Hin).
        simpl in Hall. congruence.
Qed.

End Construction.

Lemma build_config_fails_witness :
  @Config.build_config Sample.host
    [ ("API_KEY", "secret"); ("ENDPOINTS", "not json") ] []
  = Config.fail "Invalid JSON for ENDPOINTS in PropertiesService"
  /\ (exists msg,
        @Config.build_config Sample.host [] [] = Config.fail msg
        /\ String.prefix "Config validation failed: " msg = true)
  /\ (exists msg,
        @Config.build_config Sample.host
          [ ("API_KEY", "secret") ] [ ("ENDPOINTS", "<relative endpoint>") ]
        = Config.fail msg
        /\ String.prefix "Config validation failed: " msg = true).
Proof.
  split; [|split].
  - eapply (proj1 (@build_config_fails Sample.host _ _)); reflexivity.
  - eapply (proj2 (@build_config_fails Sample.host [] [])).
    + reflexivity.
    + reflexivity.
    + right. left. reflexivity.
  - eapply (proj2 (@build_config_fails Sample.host _ _)).
    + reflexivity.
    + reflexivity.
    + right. right. exists "fetchPets", (VStr "pets"). split; [|reflexivity].
      simpl. left. reflexivity.
Defined.

(** ** Frames: what the helpers leave untouched *)

Section Frames.
Context (R : world -> world -> Prop) `{!PreOrder R}.





Lemma keeps_try_catch {A} (c : M A) (h : thrown -> M A) :
  keeps R c -> (forall t, keeps R (h t)) -> keeps R (try_catch c h).
Proof.
  intros Hc Hh w. unfold try_catch. specialize (Hc w).
  destruct (c w) as [[a|t|] w']; simpl in *; try exact Hc.
  transitivity w'; [exact Hc | apply Hh].
Qed.

End Frames.

#[local] Instance same_sheets_preorder : PreOrder same_sheets.
Proof.
  split.
  - intros w. split; reflexivity.
  - intros a b c [H1 H2] [H3 H4]. split; congruence.
Qed.

#[local] Instance same_requests_preorder : PreOrder same_requests.
Proof. split; [intros w; reflexivity | intros a b c H1 H2; unfold same_requests in *; congruence]. Qed.

#[local] Instance same_triggers_preorder : PreOrder same_triggers.
Proof. split; [intros w; reflexivity | intros a b c H1 H2; unfold same_triggers in *; congruence]. Qed.

Section Logging.
Context `{Host}.

(** [logError] never throws: it appends its line to the log, shows the
    toast or logs that it could not, and touches nothing else. *)
Lemma logError_runs (e : thrown) (w : world) :
  exists w',
    UtilityService.logError e w = (Ok tt, w')
    /\ same_sheets w w' /\ same_requests w w' /\ same_triggers w w'
    /\ exists rest, logger w' = logger w ++ ("ERROR: " +:+ error_text e) :: rest.
Proof.
  unfold UtilityService.logError.
  set (msg := match e with
              | Err _ m => VStr m
              | Raw (VStr s) => VStr s
              | Raw v => match JSON_stringify v with Some s => VStr s | None => VUndefined end
              end).
  assert (Hmsg : ToString msg = Ok (error_text e)).
  { subst msg. unfold error_text. destruct e as [n m|v]; [reflexivity|].
    destruct v; try (destruct (JSON_stringify _)); reflexivity. }
  unfold bind, lift. rewrite Hmsg. unfold Logger_log, try_catch, toast.
  cbn [toast_failure with_logger].
  destruct (toast_failure w) as [[n m]|].
  - cbn [message_of ToString to_string]. eexists. split; [reflexivity|].
    repeat split. cbn. rewrite <- app_assoc. eauto.
  - eexists. split; [reflexivity|]. repeat split. cbn. eauto.
Qed.

End Logging.

(** ** The sync pipeline *)

Section Pipeline.
Context `{Host}.

Lemma validateResponse_without_keys (json : value) :
  exists msg, UtilityService.validateResponse json VUndefined = Throw (Err "Error" msg).
Proof.
  unfold UtilityService.validateResponse.
  destruct (negb (String.eqb (typeof json) "object") || _); eauto.
Qed.

(** No call of the [forEach] callback completes: [validateResponse] is
    called with the response alone, and its second check rejects a
    missing [requiredKeys]. *)
Lemma fetchEndpoint_never_ok (config : value) (allData : list value) (endpoint : value)
  (w : world) :
  is_ok (fst (Code.fetchEndpoint config allData endpoint w)) = false.
Proof.
  unfold Code.fetchEndpoint, bind, lift.
  destruct (Code.js_add (get config "apiUrl") endpoint) as [url| |]; try reflexivity.
  destruct (Code.js_add (VStr "Bearer ") (get config "apiKey")) as [auth| |]; try reflexivity.
  destruct (UrlFetchApp_fetch url _ w) as [[response| |] w1]; try reflexivity.
  destruct (JSON_parse (getContentText response)) as [json|]; try reflexivity.
  cbn [ret throw].
  destruct (validateResponse_without_keys json) as [msg ->]. reflexivity.
Qed.

Lemma forEachEndpoint_never_ok (config : value) (endpoints allData : list value)
  (w : world) :
  endpoints <> [] ->
  is_ok (fst (Code.forEachEndpoint config endpoints allData w)) = false.
Proof.
  destruct endpoints as [|endpoint rest]; [congruence|]. intros _.
  cbn [Code.forEachEndpoint]. unfold bind.
  pose proof (fetchEndpoint_never_ok config allData endpoint w) as Hn.
  destruct (Code.fetchEndpoint config allData endpoint w) as [[a|t|] w1];
    [discriminate Hn | reflexivity | reflexivity].
Qed.




Lemma assign_entries_object (es m : list (string * value)) (r : value) :
  Config.assign_entries (VObj m) es = Ok r -> exists m', r = VObj m'.
Proof.
  revert m. induction es as [|[k v] es IH]; intros m; cbn [Config.assign_entries].
  - intros E. injection E as <-. eauto.
  - destruct (set_prop (VObj m) k v) as [t| |] eqn:E; cbn [obind]; try discriminate.
    apply set_prop_object in E. destruct E as [m' ->]. apply IH.
Qed.

(** Whatever [_config] holds, [getApiConfig] hands out [endpoints] as a
    fresh plain object, never as an array. *)
Lemma getApiConfig_shape (_config a : value) :
  Config.getApiConfig _config = Ok a ->
  exists m, a = VObj [ ("apiUrl", get _config "apiUrl");
                       ("apiKey", get _config "apiKey");
                       ("endpoints", VObj m) ].
Proof.
  unfold Config.getApiConfig, Config.object_assign.
  destruct _config; cbn [read obind]; try discriminate.
  all: match goal with
       | |- (copy <~ Config.assign_entries (VObj []) ?es ;; _) = _ -> _ =>
           destruct (Config.assign_entries (VObj []) es) as [copy| |] eqn:E;
           cbn [obind]; try discriminate;
           apply assign_entries_object in E; destruct E as [m ->];
           intros E; injection E as <-; eauto
       end.
Qed.

(** Bound to [Config], [fetchData] stops at its first check: it issues no
    request, changes no sheet and no trigger, and never returns. *)
Lemma fetchData_try_guard (api ranges : M value) (w w0 : world) (config : value) :
  api w = (Ok config, w0) ->
  negb (truthy config) || negb (truthy (get config "apiUrl"))
  || negb (isArray (get config "endpoints")) = true ->
  Code.fetchData_try api ranges w = (Throw (Err "Error" "Invalid API configuration"), w0).
Proof.
  intros Hapi Hg. unfold Code.fetchData_try.
  rewrite (bind_ok _ _ _ _ _ Hapi). now rewrite Hg.
Qed.

Lemma fetchData_caught (api ranges : M value) (w w1 w2 : world) (t : thrown) :
  Code.fetchData_try api ranges w = (Throw t, w1) ->
  UtilityService.logError t w1 = (Ok tt, w2) ->
  Code.fetchData api ranges w = (Throw t, w2).
Proof.
  intros Et El. unfold Code.fetchData, try_catch. rewrite Et.
  now rewrite (bind_ok _ _ _ _ _ El).
Qed.

Lemma PetSync_fetchData_rejects (_config : value) (w : world) :
  let r := PetSync.fetchData _config w in
  is_ok (fst r) = false
  /\ same_requests w (snd r) /\ same_sheets w (snd r) /\ same_triggers w (snd r)
  /\ (forall a, Config.getApiConfig _config = Ok a ->
      fst r = Throw (Err "Error" "Invalid API configuration")).
Proof.
  cbv zeta. unfold PetSync.fetchData.
  destruct (Config.getApiConfig _config) as [a|t|] eqn:Ea.
  - destruct (getApiConfig_shape _ _ Ea) as [m ->].
    destruct (logError_runs (Err "Error" "Invalid API configuration") w)
      as [w' [E [Hs [Hr [Ht _]]]]].
    rewrite (fetchData_caught _ _ w w w' (Err "Error" "Invalid API configuration")).
    + cbn [fst snd is_ok]. repeat split; try assumption; try apply Hs.
    + apply fetchData_try_guard with (config := VObj [ ("apiUrl", get _config "apiUrl");
                                                       ("apiKey", get _config "apiKey");
                                                       ("endpoints", VObj m) ]).
      * reflexivity.
      * cbn [get lookup_own String.eqb Ascii.eqb Bool.eqb isArray negb]. apply orb_true_r.
    + exact E.
  - destruct (logError_runs t w) as [w' [E [Hs [Hr [Ht _]]]]].
    rewrite (fetchData_caught _ _ w w w' t).
    + cbn [fst snd is_ok]. repeat split; try assumption; try apply Hs.
      intros a Ha. discriminate Ha.
    + unfold Code.fetchData_try. now apply bind_throw.
    + exact E.
  - unfold Code.fetchData, try_catch, Code.fetchData_try, bind, lift.
    cbn [fst snd is_ok]. repeat split. intros a Ha. discriminate Ha.
Qed.

(** With any source of configuration at all, [fetchData] never returns
    a result: an empty list of endpoints is refused by [writeData], and
    the first endpoint of a non-empty one is refused by
    [validateResponse]. *)
Lemma fetchData_never_ok (api ranges : M value) (w : world) :
  is_ok (fst (Code.fetchData api ranges w)) = false.
Proof.
  unfold Code.fetchData, try_catch.
  assert (Hcatch : forall t w1,
             is_ok (fst ((_ <- UtilityService.logError t ;; throw t) w1 : outcome value * world))
             = false).
  { intros t w1. unfold bind. destruct (UtilityService.logError t w1) as [[[]|t'|] w2];
      reflexivity. }
  destruct (Code.fetchData_try api ranges w) as [[a|t|] w1] eqn:E;
    [|apply Hcatch|reflexivity].
  exfalso. revert E. unfold Code.fetchData_try. unfold bind at 1.
  destruct (api w) as [[config|t|] w0]; try discriminate.
  destruct (negb (truthy config) || negb (truthy (get config "apiUrl"))
            || negb (isArray (get config "endpoints"))) eqn:Eg; [discriminate|].
  apply orb_false_iff in Eg. destruct Eg as [_ Eg]. apply negb_false_iff in Eg.
  destruct (get config "endpoints") as [| | | | |endpoints|]; try discriminate Eg.
  unfold bind at 1. destruct endpoints as [|endpoint rest].
  - cbn [Code.forEachEndpoint ret]. unfold bind at 1. cbn [Code.writeData throw].
    discriminate.
  - pose proof (forEachEndpoint_never_ok config (endpoint :: rest) [] w0) as Hn.
    destruct (Code.forEachEndpoint config (endpoint :: rest) [] w0) as [[acc|t|] w2];
      try discriminate. discriminate Hn. congruence.
Qed.


(** With an empty array of endpoints the generic pipeline makes no
    request either, and stops in [writeData], which refuses an empty
    table. *)
Lemma fetchData_no_endpoints (api ranges : M value) (w w0 : world) (config : value) :
  api w = (Ok config, w0) ->
  truthy config = true ->
  truthy (get config "apiUrl") = true ->
  get config "endpoints" = VArr [] ->
  exists w2,
    Code.fetchData api ranges w
    = (Throw (Err "Error" "writeData received invalid data format"), w2)
    /\ same_requests w0 w2 /\ same_sheets w0 w2.
Proof.
  intros Hapi Hc Hu He.
  destruct (logError_runs (Err "Error" "writeData received invalid data format") w0)
    as [w2 [El [Hs [Hr _]]]].
  exists w2. split; [|split; assumption].
  apply fetchData_caught with (w1 := w0); [|exact El].
  unfold Code.fetchData_try. rewrite (bind_ok _ _ _ _ _ Hapi).
  rewrite Hc, Hu, He. reflexivity.
Qed.

(** C8. A configuration whose [endpoints] is the empty object, its
    other fields being well-formed, passes [validate]: the loop over the
    entries has nothing to check.  Running [fetchData] with it issues no
    request (and changes no sheet); the run does not return a result, it
    ends in the error of the entry check. *)
Theorem empty_endpoints_fetch_nothing (config : value) :
  get config "endpoints" = VObj [] ->
  fields_valid config = true ->
  Config.validate config = Ok tt
  /\ Config.validate_endpoints (own_entries (get config "endpoints")) = Ok tt
  /\ forall w,
       let r := PetSync.fetchData config w in
       requests (snd r) = requests w
       /\ sheets (snd r) = sheets w
       /\ sheet_calls (snd r) = sheet_calls w
       /\ is_ok (fst r) = false.
Proof.
  intros He Hf. split; [|split].
  - apply (proj1 (validate_spec config)). unfold valid.
    destruct config; try discriminate He; now rewrite Hf, He.
  - now rewrite He.
  - intros w. cbv zeta.
    destruct (PetSync_fetchData_rejects config w) as [Hn [Hr [[Hs Hc] _]]].
    repeat split; assumption.
Qed.

End Pipeline.

Lemma empty_endpoints_fetch_nothing_witness :
  Config.validate Sample.empty_config = Ok tt
  /\ requests (snd (@PetSync.fetchData Sample.host Sample.empty_config Sample.world0))
     = requests Sample.world0.
Proof.
  destruct (@empty_endpoints_fetch_nothing Sample.host Sample.empty_config eq_refl eq_refl)
    as [Hv [_ Hrun]].
  split; [exact Hv | exact (proj1 (Hrun Sample.world0))].
Defined.



(** The same run with the configuration handed over in the shape
    [fetchData] expects still fails, at the first endpoint, since
    [validateResponse] is called without its second argument. *)
Lemma fetchData_array_configuration_rejected :
  let r := @Code.fetchData Sample.host (ret Sample.array_config)
             (lift (Config.getSheetRanges Sample.config)) Sample.world0 in
  fst r = Throw (Err "Error" "validateResponse: requiredKeys must be an array of strings")
  /\ length (requests (snd r)) = 1%nat
  /\ sheet_calls (snd r) = [].
Proof. cbv zeta. repeat split. Qed.

(** ** writeData *)






Section WriteData.
Context `{Host}.



End WriteData.



(** ** The configuration object stays as it was built *)

Module FrozenFacts.
Import Frozen.

Lemma field_in (fs : list (string * hval)) (k : string) (l : nat) :
  field fs k = HRef l -> exists k', In (k', HRef l) fs.
Proof.
  induction fs as [|[k' v] fs IH]; cbn [field].
  - discriminate.
  - destruct (String.eqb k k').
    + intros ->. exists k'. now left.
    + intros E. destruct (IH E) as [k'' Hin]. exists k''. now right.
Qed.


Lemma replace_field_strings (fs : list (string * hval)) (k : string) (v : hval) :
  is_string v -> Forall (fun e => is_string (snd e)) fs ->
  Forall (fun e => is_string (snd e)) (replace_field fs k v).
Proof.
  intros Hv Hall. induction Hall as [|[k' v'] fs Hv' Hall IH]; cbn [replace_field].
  - constructor.
  - destruct (String.eqb k k'); constructor; assumption.
Qed.

(** Copying string fields never fails and yields string fields. *)
Lemma assign_fields_strings (src target : list (string * hval)) :
  Forall (fun e => is_string (snd e)) src ->
  Forall (fun e => is_string (snd e)) target ->
  exists copied, assign_fields target src = Some copied
                 /\ Forall (fun e => is_string (snd e)) copied.
Proof.
  intros Hsrc. revert target. induction Hsrc as [|[k v] src Hv Hsrc IH]; intros target Ht;
    cbn [assign_fields].
  - eauto.
  - cbn [snd] in Hv. destruct v as [[| | | |s]|l]; try contradiction.
    unfold write_field. destruct (has_field target k).
    + apply IH. now apply replace_field_strings.
    + destruct (String.eqb k "__proto__").
      * apply IH. exact Ht.
      * apply IH. apply Forall_app. split; [exact Ht | constructor; [exact I | constructor]].
Qed.



Lemma root_field_primitive (r0 : hobj) (k : string) :
  Forall (fun e => (fst e = "endpoints" /\ snd e = HRef endpoints_loc)
                   \/ is_primitive (snd e)) (fields r0) ->
  k <> "endpoints" -> is_primitive (field (fields r0) k).
Proof.
  intros Hall Hk. induction Hall as [|[k' v] fs Hv Hall IH]; cbn [field].
  - exact I.
  - destruct (String.eqb k k') eqn:E; [|exact IH].
    apply String.eqb_eq in E. subst k'. cbn [fst snd] in Hv.
    destruct Hv as [[Hk' _] | Hp]; [contradiction | exact Hp].
Qed.





Lemma string_fields_strings (es : list (string * value)) (fs : list (string * hval)) :
  string_fields es = Some fs -> Forall (fun e => is_string (snd e)) fs.
Proof.
  revert fs. induction es as [|[k v] es IH]; intros fs; cbn [string_fields].
  - intros E. injection E as <-. constructor.
  - destruct v; try discriminate. destruct (string_fields es) as [fs'|]; [|discriminate].
    intros E. injection E as <-. constructor; [exact I | now apply IH].
Qed.

Lemma root_fields_refs (es : list (string * value)) (fs : list (string * hval)) :
  root_fields es = Some fs ->
  Forall (fun e => (fst e = "endpoints" /\ snd e = HRef endpoints_loc)
                   \/ is_primitive (snd e)) fs.
Proof.
  revert fs. induction es as [|[k v] es IH]; intros fs; cbn [root_fields].
  - intros E. injection E as <-. constructor.
  - destruct (String.eqb k "endpoints") eqn:Ek.
    + destruct (root_fields es) as [fs'|]; [|discriminate].
      intros E. injection E as <-. apply String.eqb_eq in Ek.
      constructor; [left; now split | now apply IH].
    + destruct (value_prim v) as [p|]; [|discriminate]. cbn [option_map].
      destruct (root_fields es) as [fs'|]; [|discriminate].
      intros E. injection E as <-. constructor; [right; exact I | now apply IH].
Qed.

Lemma root_fields_endpoints (es : list (string * value)) (fs : list (string * hval))
  (e : value) :
  root_fields es = Some fs ->
  lookup_own es "endpoints" = Some e ->
  field fs "endpoints" = HRef endpoints_loc.
Proof.
  revert fs. induction es as [|[k v] es IH]; intros fs; cbn [root_fields lookup_own].
  - discriminate 2.
  - rewrite (String.eqb_sym "endpoints" k).
    destruct (String.eqb k "endpoints") eqn:Ek.
    + destruct (root_fields es) as [fs'|]; [|discriminate].
      intros E _. injection E as <-. cbn [field].
      now rewrite (String.eqb_sym "endpoints" k), Ek.
    + destruct (value_prim v) as [p|]; [|discriminate]. cbn [option_map].
      destruct (root_fields es) as [fs'|]; [|discriminate].
      intros E Hl. injection E as <-. cbn [field].
      rewrite (String.eqb_sym "endpoints" k), Ek. now apply IH.
Qed.

(** The state [construct] builds satisfies the invariant. *)
Lemma construct_sealed (cfg : value) (st0 : state) :
  construct cfg = Some st0 ->
  exists r0 e0, sealed r0 e0 st0 /\ frozen r0 = true /\ frozen e0 = false.
Proof.
  unfold construct. destruct cfg as [| | | | | |props]; try discriminate.
  destruct (lookup_own props "endpoints") as [e|] eqn:El; [|discriminate].
  assert (Hcase : forall (b : bool),
             match root_fields props, string_fields (own_entries e) with
             | Some rf, Some ef =>
                 Some {| heap := <[root := {| frozen := true; is_array := false; fields := rf |}]>
                                   (<[endpoints_loc := {| frozen := false; is_array := b;
                                                          fields := ef |}]> ∅);
                         next := 2; known := ∅ |}
             | _, _ => None
             end = Some st0 ->
             exists r0 e0, sealed r0 e0 st0 /\ frozen r0 = true /\ frozen e0 = false).
  { intros b. destruct (root_fields props) as [rf|] eqn:Er; [|discriminate].
    destruct (string_fields (own_entries e)) as [ef|] eqn:Ee; [|discriminate].
    intros E. injection E as <-.
    exists {| frozen := true; is_array := false; fields := rf |},
           {| frozen := false; is_array := b; fields := ef |}.
    split; [|split; reflexivity].
    constructor; cbn [heap next known fields].
    - apply lookup_insert_eq.
    - rewrite lookup_insert_ne by discriminate. apply lookup_insert_eq.
    - now apply string_fields_strings in Ee.
    - now apply root_fields_refs in Er.
    - now apply (root_fields_endpoints props rf e).
    - lia.
    - intros l Hl. rewrite !lookup_insert_ne by (unfold root, endpoints_loc; lia).
      apply lookup_empty.
    - intros l Hin. now apply elem_of_empty in Hin.
    - intros l o Hl. rewrite !lookup_insert_ne by (unfold root, endpoints_loc; lia).
      rewrite lookup_empty. discriminate. }
  destruct e; try discriminate; apply Hcase.
Qed.



Lemma value_prim_value (v : value) (p : prim) :
  value_prim v = Some p -> prim_value p = v.
Proof. destruct v; try discriminate; intros E; injection E as <-; reflexivity. Qed.

Lemma string_fields_values (es : list (string * value)) (fs : list (string * hval)) :
  string_fields es = Some fs ->
  map (fun e => (fst e, shallow_value (snd e))) fs = es
  /\ map (fun e => shallow_value (snd e)) fs = map snd es.
Proof.
  revert fs. induction es as [|[k v] es IH]; intros fs; cbn [string_fields].
  - intros E. injection E as <-. split; reflexivity.
  - destruct v; try discriminate. destruct (string_fields es) as [fs'|]; [|discriminate].
    intros E. injection E as <-. destruct (IH fs' eq_refl) as [H1 H2].
    cbn [map fst snd shallow_value prim_value]. now rewrite H1, H2.
Qed.

Lemma indexed_from_values (i : nat) (l : list value) : map snd (indexed_from i l) = l.
Proof.
  revert i. induction l as [|x l IH]; intros i; cbn [indexed_from map snd].
  - reflexivity.
  - now rewrite IH.
Qed.

Lemma lookup_own_unique (props : list (string * value)) (k : string) (e v : value) :
  NoDup (map fst props) ->
  lookup_own props k = Some e -> In (k, v) props -> v = e.
Proof.
  induction props as [|[k' v'] props IH]; cbn [map fst lookup_own]; intros Hnd Hl Hin.
  - destruct Hin.
  - apply NoDup_cons in Hnd. destruct Hnd as [Hnotin Hnd].
    destruct (String.eqb k k') eqn:Ek.
    + apply String.eqb_eq in Ek. subst k'. injection Hl as <-.
      destruct Hin as [E | Hin]; [now injection E|].
      exfalso. apply Hnotin. apply list_elem_of_In.
      change k with (fst (k, v)). now apply in_map.
    + apply String.eqb_neq in Ek. destruct Hin as [E | Hin].
      * injection E as -> ->. contradiction.
      * now apply IH.
Qed.

Lemma object_value_root (h : gmap nat hobj) (eo : hobj) (e : value)
  (props : list (string * value)) (rf : list (string * hval)) (b1 b2 : bool) :
  h !! endpoints_loc = Some eo ->
  (if is_array eo then VArr (map (fun x => shallow_value (snd x)) (fields eo))
   else VObj (map (fun x => (fst x, shallow_value (snd x))) (fields eo))) = e ->
  root_fields props = Some rf ->
  (forall v, In ("endpoints", v) props -> v = e) ->
  object_value h {| frozen := b1; is_array := b2; fields := rf |} = VObj props.
Proof.
  intros Hh He. unfold object_value. cbn [fields]. intros Er Hall. f_equal.
  revert rf Er Hall.
  induction props as [|[k v] props IH]; intros rf Er Hall; cbn [root_fields] in Er.
  - injection Er as <-. reflexivity.
  - destruct (String.eqb k "endpoints") eqn:Ek.
    + destruct (root_fields props) as [rf'|] eqn:Er'; [|discriminate].
      injection Er as <-. cbn [map fst snd]. apply String.eqb_eq in Ek. subst k.
      rewrite Hh, He. rewrite (Hall v (or_introl eq_refl)). f_equal.
      apply (IH rf' eq_refl). intros v' Hin. apply Hall. now right.
    + destruct (value_prim v) as [p|] eqn:Ep; [|discriminate]. cbn [option_map] in Er.
      destruct (root_fields props) as [rf'|] eqn:Er'; [|discriminate].
      injection Er as <-. cbn [map fst snd]. rewrite (value_prim_value v p Ep). f_equal.
      apply (IH rf' eq_refl). intros v' Hin. apply Hall. now right.
Qed.

(** Read back, the state [construct] builds is the configuration it was
    built from. *)
Lemma observe_construct (props : list (string * value)) (st0 : state) :
  NoDup (map fst props) ->
  construct (VObj props) = Some st0 ->
  observe st0 = Some (VObj props).
Proof.
  intros Hnd. unfold construct.
  destruct (lookup_own props "endpoints") as [e|] eqn:El; [|discriminate].
  assert (Hall : forall v, In ("endpoints", v) props -> v = e).
  { intros v Hin. now apply (lookup_own_unique props "endpoints" e v). }
  destruct e as [| | | | |l|m]; try discriminate.
  all: destruct (root_fields props) as [rf|] eqn:Er; [|discriminate].
  all: destruct (string_fields (own_entries _)) as [ef|] eqn:Ee; [|discriminate].
  all: intros E; injection E as <-; unfold observe; cbn [heap].
  all: rewrite lookup_insert_eq; f_equal.
  all: eapply object_value_root;
    [ rewrite lookup_insert_ne by discriminate; apply lookup_insert_eq
    | cbn [is_array fields isArray] | exact Er | exact Hall ].
  - cbn [own_entries] in Ee.
    rewrite (proj2 (string_fields_values _ _ Ee)). now rewrite indexed_from_values.
  - cbn [own_entries] in Ee. now rewrite (proj1 (string_fields_values _ _ Ee)).
Qed.

(** The invariant is not a consequence of the model alone:
    [_getRawConfig] hands out [_config] itself, whose [endpoints] object
    is not frozen, and a caller can then change it. *)
Lemma getRawConfig_exposes_endpoints :
  exists st0 st,
    construct Sample.config = Some st0
    /\ run [ GetRawConfig; ReadField root "endpoints";
             WriteField endpoints_loc "fetchPets" (HPrim (PStr "/elsewhere")) ] st0
       = Some st
    /\ observe st0 = Some Sample.config
    /\ observe st <> Some Sample.config.
Proof.
  eexists _, _. split; [reflexivity|]. split; [vm_compute; reflexivity|].
  split; [vm_compute; reflexivity|]. vm_compute. discriminate.
Qed.

End FrozenFacts.


(** ** mergeConfig *)

(** Induction on values, with the hypothesis for every element of an
    array and every property value of an object. *)
Lemma value_ind_nested (P : value -> Prop) :
  P VUndefined -> P VNull -> (forall b, P (VBool b)) -> (forall n, P (VNum n)) ->
  (forall s, P (VStr s)) ->
  (forall l, Forall P l -> P (VArr l)) ->
  (forall m, Forall (fun e => P (snd e)) m -> P (VObj m)) ->
  forall v, P v.
Proof.
  intros Hu Hn Hb Hz Hs Ha Ho.
  fix IH 1. intros v. destruct v as [| |b|n|s|l|m].
  - exact Hu.
  - exact Hn.
  - apply Hb.
  - apply Hz.
  - apply Hs.
  - apply Ha. induction l as [|x l IHl]; constructor; [apply IH | exact IHl].
  - apply Ho. induction m as [|[k x] m IHm]; constructor; [apply IH | exact IHm].
Qed.

Lemma json_like_array (l : list value) : json_like (VArr l) <-> Forall json_like l.
Proof.
  cbn [json_like]. induction l as [|x l IH].
  - split; intros _; [constructor | exact I].
  - rewrite List.Forall_cons_iff. now rewrite <- IH.
Qed.

Lemma json_like_object (m : list (string * value)) :
  json_like (VObj m) <-> NoDup (map fst m) /\ Forall (fun e => json_like (snd e)) m.
Proof.
  cbn [json_like]. apply and_iff_compat_l. induction m as [|e m IH].
  - split; intros _; [constructor | exact I].
  - rewrite List.Forall_cons_iff. now rewrite <- IH.
Qed.

(** The text round trip does not change JSON data. *)
Lemma json_value_id (v : value) : json_like v -> json_value v = v.
Proof.
  induction v as [| |b|n|s|l IH|m IH] using value_ind_nested; intros Hj;
    try reflexivity.
  - apply json_like_array in Hj. cbn [json_value]. f_equal.
    induction IH as [|x l Hx IH IHl]; [reflexivity|].
    apply List.Forall_cons_iff in Hj. destruct Hj as [Hjx Hj]. cbn [map].
    rewrite (IHl Hj). f_equal. destruct x; try reflexivity; try (now apply Hx).
    destruct Hjx.
  - apply json_like_object in Hj. destruct Hj as [_ Hj]. cbn [json_value]. f_equal.
    induction IH as [|[k x] m Hx IH IHm]; [reflexivity|].
    apply List.Forall_cons_iff in Hj. destruct Hj as [Hjx Hj]. cbn [snd] in *.
    rewrite (IHm Hj). destruct x; try reflexivity; try (now rewrite (Hx Hjx)).
    destruct Hjx.
Qed.

Lemma json_clone_id (v : value) : json_like v -> json_clone v = Ok v.
Proof.
  intros Hj. unfold json_clone. destruct v; try (now rewrite json_value_id).
  destruct Hj.
Qed.

(** *** Own properties under replacement and extension *)

Lemma lookup_replace_other (m : list (string * value)) (k k' : string) (v : value) :
  k' <> k -> lookup_own (replace_own m k v) k' = lookup_own m k'.
Proof.
  intros Hne. induction m as [|[k0 v0] m IH]; cbn [replace_own lookup_own]; [reflexivity|].
  destruct (String.eqb k k0) eqn:E; cbn [lookup_own].
  - apply String.eqb_eq in E. subst k0.
    destruct (String.eqb k' k) eqn:E'; [|reflexivity].
    apply String.eqb_eq in E'. contradiction.
  - now rewrite IH.
Qed.

Lemma lookup_replace_same (m : list (string * value)) (k : string) (v : value) :
  has_own m k = true -> lookup_own (replace_own m k v) k = Some v.
Proof.
  unfold has_own. induction m as [|[k0 v0] m IH]; cbn [replace_own lookup_own];
    [discriminate|].
  destruct (String.eqb k k0) eqn:E; cbn [lookup_own]; rewrite E; [reflexivity | exact IH].
Qed.

Lemma replace_own_id (m : list (string * value)) (k : string) (v : value) :
  lookup_own m k = Some v -> replace_own m k v = m.
Proof.
  induction m as [|[k0 v0] m IH]; cbn [replace_own lookup_own]; [reflexivity|].
  destruct (String.eqb k k0) eqn:E.
  - intros H. now injection H as ->.
  - intros H. now rewrite IH.
Qed.

Lemma replace_own_keys (m : list (string * value)) (k : string) (v : value) :
  map fst (replace_own m k v) = map fst m.
Proof.
  induction m as [|[k0 v0] m IH]; cbn [replace_own map fst]; [reflexivity|].
  destruct (String.eqb k k0); cbn [map fst]; [reflexivity | now rewrite IH].
Qed.

Lemma lookup_app_new (m : list (string * value)) (k k' : string) (v : value) :
  lookup_own (m ++ [(k, v)]) k'
  = match lookup_own m k' with
    | Some x => Some x
    | None => if String.eqb k' k then Some v else None
    end.
Proof.
  induction m as [|[k0 v0] m IH]; cbn [app lookup_own]; [reflexivity|].
  destruct (String.eqb k' k0); [reflexivity | exact IH].
Qed.

Lemma has_own_in (m : list (string * value)) (k : string) :
  has_own m k = true <-> k ∈ map fst m.
Proof.
  unfold has_own. induction m as [|[k0 v0] m IH]; cbn [lookup_own map fst].
  - split; [discriminate | intros Hin; now apply elem_of_nil in Hin].
  - rewrite elem_of_cons. destruct (String.eqb k k0) eqn:E.
    + apply String.eqb_eq in E. tauto.
    + apply String.eqb_neq in E. rewrite IH. tauto.
Qed.

Lemma replace_own_values (P : value -> Prop) (m : list (string * value)) (k : string)
  (v : value) :
  P v -> Forall (fun e => P (snd e)) m -> Forall (fun e => P (snd e)) (replace_own m k v).
Proof.
  intros Hv Hall. induction Hall as [|[k0 v0] m H0 Hall IH]; cbn [replace_own].
  - constructor.
  - destruct (String.eqb k k0); constructor; assumption.
Qed.

(** What a successful write on a plain object does: the other keys keep
    their values, and the written key holds the new value -- unless the
    key is an absent [__proto__] and the value a primitive, which is
    dropped. *)
Lemma set_prop_effect (m : list (string * value)) (k : string) (v r : value) :
  set_prop (VObj m) k v = Ok r ->
  exists m',
    r = VObj m'
    /\ (forall k', k' <> k -> lookup_own m' k' = lookup_own m k')
    /\ (lookup_own m' k = Some v
        \/ (k = "__proto__" /\ has_own m k = false /\ m' = m /\ mergeable v = false
            /\ forall m2, has_own m2 k = false -> set_prop (VObj m2) k v = Ok (VObj m2)))
    /\ (NoDup (map fst m) -> NoDup (map fst m'))
    /\ (forall P : value -> Prop,
           P v -> Forall (fun e => P (snd e)) m -> Forall (fun e => P (snd e)) m').
Proof.
  unfold set_prop. destruct (has_own m k) eqn:Eh.
  - intros E. injection E as <-. eexists. split; [reflexivity|]. repeat split.
    + intros k' Hne. now apply lookup_replace_other.
    + left. now apply lookup_replace_same.
    + now rewrite replace_own_keys.
    + intros P Hv Hall. now apply replace_own_values.
  - destruct (String.eqb k "__proto__") eqn:Ep.
    + apply String.eqb_eq in Ep.
      destruct v; intros E; try discriminate E; injection E as <-;
        (eexists; split; [reflexivity|]; repeat split; try tauto;
         right; repeat split; try assumption;
         intros m2 Hm2; unfold set_prop; rewrite Hm2; subst k; reflexivity).
    + intros E. injection E as <-. eexists. split; [reflexivity|]. repeat split.
      * intros k' Hne. rewrite lookup_app_new.
        destruct (lookup_own m k'); [reflexivity|].
        destruct (String.eqb k' k) eqn:E'; [|reflexivity].
        apply String.eqb_eq in E'. contradiction.
      * left. rewrite lookup_app_new. unfold has_own in Eh.
        destruct (lookup_own m k); [discriminate|]. now rewrite String.eqb_refl.
      * intros Hnd. rewrite map_app. cbn [map fst]. apply NoDup_app. repeat split.
        -- exact Hnd.
        -- intros x Hx Hx'. apply list_elem_of_singleton in Hx'. subst x.
           apply has_own_in in Hx. congruence.
        -- apply NoDup_singleton.
      * intros P Hv Hall. apply Forall_app. split; [exact Hall | now repeat constructor].
Qed.

Lemma set_prop_same (m : list (string * value)) (k : string) (v : value) :
  lookup_own m k = Some v -> set_prop (VObj m) k v = Ok (VObj m).
Proof.
  intros Hl. unfold set_prop, has_own. rewrite Hl. now rewrite replace_own_id.
Qed.

(** *** One iteration of the merge loop *)

Lemma value_eq_undefined (v : value) : v = VUndefined \/ v <> VUndefined.
Proof. destruct v; try (right; discriminate). now left. Qed.

Lemma merge_entry_undefined (recur : value -> outcome value) (a : value) (k : string) :
  Config.merge_entry recur a k VUndefined = Ok a.
Proof. reflexivity. Qed.

Lemma merge_entry_cases (recur : value -> outcome value) (a : value) (k : string)
  (v r : value) :
  Config.merge_entry recur a k v = Ok r ->
  v <> VUndefined ->
  exists m x, a = VObj m /\ written recur m k v x /\ set_prop (VObj m) k x = Ok r.
Proof.
  intros E Hv. unfold Config.merge_entry in E.
  destruct v as [| |b|n|s|l|ps]; try contradiction.
  2-5: destruct a as [| | | | | |m]; try discriminate E;
       exists m; eexists; split; [reflexivity|]; split; [|exact E];
       right; split; [reflexivity | left; reflexivity].
  all: destruct a as [| | | | | |m]; try discriminate E.
  all: unfold Config.read_dyn in E.
  all: destruct (lookup_own m k) as [d|] eqn:El.
  all: try (destruct (truthy d) eqn:Et;
            [ destruct (recur d) as [x| |] eqn:Er; cbn [obind] in E; try discriminate E;
              exists m, x; split; [reflexivity|]; split; [|exact E];
              left; split; [reflexivity|]; exists d; repeat split; assumption
            | exists m; eexists; split; [reflexivity|]; split; [|exact E];
              right; split; [reflexivity|]; right; left; exists d; split; assumption ]).
  all: destruct (inherited_name k) eqn:Ei;
    [ destruct (String.eqb k "__proto__"); discriminate E
    | exists m; eexists; split; [reflexivity|]; split; [|exact E];
      right; split; [reflexivity|]; right; right; split; assumption ].
Qed.

(** Conversely, an iteration is determined by what it writes. *)
Lemma merge_entry_written (recur : value -> outcome value) (m : list (string * value))
  (k : string) (v x : value) :
  v <> VUndefined ->
  written recur m k v x ->
  Config.merge_entry recur (VObj m) k v = set_prop (VObj m) k x.
Proof.
  intros Hv [[Hm [d [Hl [Ht Hr]]]] | [-> Hcase]]; unfold Config.merge_entry, Config.read_dyn.
  - destruct v; try discriminate Hm; rewrite Hl, Ht, Hr; reflexivity.
  - destruct v as [| |b|n|s|l|ps]; try contradiction; try reflexivity.
    all: destruct Hcase as [Hm | [[d [Hl Ht]] | [Hl Hi]]]; try discriminate Hm.
    all: try (rewrite Hl, Ht; reflexivity).
    all: rewrite Hl, Hi; reflexivity.
Qed.

Lemma merge_entry_frame (recur : value -> outcome value) (m m1 : list (string * value))
  (k k' : string) (v : value) :
  Config.merge_entry recur (VObj m) k v = Ok (VObj m1) ->
  k' <> k -> lookup_own m1 k' = lookup_own m k'.
Proof.
  intros E Hne. destruct v as [| |b|n|s|l|ps].
  1: { injection E as <-. reflexivity. }
  all: apply merge_entry_cases in E; [|discriminate].
  all: destruct E as (m0 & x & Hm & _ & Hs); injection Hm as <-.
  all: apply set_prop_effect in Hs; destruct Hs as (m' & Hr & Hother & _).
  all: injection Hr as ->; now apply Hother.
Qed.

Lemma merge_entries_frame (ps : list (string * value)) (m m1 : list (string * value))
  (k : string) :
  Config.merge_entries ps (VObj m) = Ok (VObj m1) ->
  k ∉ map fst ps -> lookup_own m1 k = lookup_own m k.
Proof.
  revert m. induction ps as [|[k0 v0] ps IH]; intros m; cbn [Config.merge_entries map fst].
  - intros E _. now injection E as <-.
  - destruct (Config.merge_entry _ (VObj m) k0 v0) as [a1| |] eqn:E1; cbn [obind];
      try discriminate.
    destruct (merge_entry_object _ _ _ _ _ E1) as [ma ->].
    intros E Hnot. rewrite not_elem_of_cons in Hnot. destruct Hnot as [Hne Hnot].
    rewrite (IH ma E Hnot). now apply (merge_entry_frame _ _ _ _ _ _ E1).
Qed.

(** A loop whose every iteration leaves the object as it is. *)
Lemma merge_entries_settled (ps : list (string * value)) (a : value) :
  Forall (fun e => Config.merge_entry (fun d => Config.mergeConfig d (snd e)) a (fst e) (snd e)
                   = Ok a) ps ->
  Config.merge_entries ps a = Ok a.
Proof.
  intros Hall. induction Hall as [|[k v] ps Hkv Hall IH]; cbn [Config.merge_entries].
  - reflexivity.
  - cbn [fst snd] in Hkv. rewrite Hkv. exact IH.
Qed.

Lemma lookup_own_nodup (ps : list (string * value)) (k : string) (v : value) :
  NoDup (map fst ps) -> In (k, v) ps -> lookup_own ps k = Some v.
Proof.
  induction ps as [|[k0 v0] ps IH]; cbn [map fst lookup_own]; intros Hnd Hin.
  - destruct Hin.
  - apply NoDup_cons in Hnd. destruct Hnd as [Hnot Hnd].
    destruct Hin as [E | Hin].
    + injection E as -> ->. now rewrite String.eqb_refl.
    + destruct (String.eqb k k0) eqn:Ek; [|now apply IH].
      apply String.eqb_eq in Ek. subst k0. exfalso. apply Hnot.
      apply list_elem_of_In. change k with (fst (k, v)). now apply in_map.
Qed.

(** The result of a merge into a truthy value is truthy. *)
Lemma merge_entries_truthy (ps : list (string * value)) (a r : value) :
  truthy a = true -> Config.merge_entries ps a = Ok r -> truthy r = true.
Proof.
  revert a. induction ps as [|[k v] ps IH]; intros a Ht; cbn [Config.merge_entries].
  - intros E. now injection E as <-.
  - destruct (Config.merge_entry _ a k v) as [a1| |] eqn:E1; cbn [obind]; try discriminate.
    apply IH. destruct v as [| |b|n|s|l|qs].
    1: { now injection E1 as <-. }
    all: apply merge_entry_cases in E1; [|discriminate].
    all: destruct E1 as (m & x & -> & _ & Hs).
    all: apply set_prop_object in Hs; destruct Hs as [m' ->]; reflexivity.
Qed.

Lemma json_value_truthy (d : value) : truthy (json_value d) = truthy d.
Proof. destruct d; reflexivity. Qed.

Lemma mergeConfig_truthy (d v r : value) :
  truthy d = true -> mergeable v = true -> Config.mergeConfig d v = Ok r -> truthy r = true.
Proof.
  intros Ht Hm. destruct v as [| |b|n|s|l|ps]; try discriminate Hm.
  - destruct d; discriminate.
  - rewrite mergeConfig_entries. unfold json_clone.
    destruct d; try discriminate Ht; cbn [obind]; apply merge_entries_truthy;
      (rewrite json_value_truthy || idtac); exact Ht.
Qed.

(** *** Merging twice *)

Lemma lookup_json_like (m : list (string * value)) (k : string) (d : value) :
  json_like (VObj m) -> lookup_own m k = Some d -> json_like d.
Proof.
  intros Hj. apply json_like_object in Hj. destruct Hj as [_ Hall].
  induction Hall as [|[k0 v0] m H0 Hall IH]; cbn [lookup_own]; [discriminate|].
  destruct (String.eqb k k0); [|exact IH]. intros E. now injection E as <-.
Qed.

Lemma merge_entry_fix (m m1 : list (string * value)) (k : string) (v : value) :
  json_like (VObj m) ->
  v = VUndefined \/ (json_like v /\ settles v) ->
  Config.merge_entry (fun d => Config.mergeConfig d v) (VObj m) k v = Ok (VObj m1) ->
  json_like (VObj m1)
  /\ Config.merge_entry (fun d => Config.mergeConfig d v) (VObj m1) k v = Ok (VObj m1).
Proof.
  intros Hjm [-> | [Hjv Hset]] E.
  { injection E as <-. now split. }
  assert (Hv : v <> VUndefined) by (intros ->; destruct Hjv).
  destruct (merge_entry_cases _ _ _ _ _ E Hv) as (m0 & x & Hm & Hw & Hs).
  injection Hm as <-.
  destruct (set_prop_effect _ _ _ _ Hs) as (m' & Hr & _ & Hk & Hnd & Hval).
  injection Hr as <-.
  assert (Hjx : json_like x /\ (mergeable v = true -> truthy x = true ->
                                 Config.mergeConfig x v = Ok x)).
  { destruct Hw as [[Hm [d [Hl [Ht Hrec]]]] | [-> _]].
    - destruct v as [| |b|n|s|l|ps]; try discriminate Hm.
      + destruct d; discriminate Hrec.
      + destruct (Hset ps eq_refl) as [HA _].
        destruct (HA d x (lookup_json_like _ _ _ Hjm Hl) Hrec) as [Hjx Hfix].
        split; [exact Hjx | intros _ _; exact Hfix].
    - split; [exact Hjv|]. intros Hm Ht.
      destruct v as [| |b|n|s|l|ps]; try discriminate Hm; [discriminate Ht|].
      exact (proj2 (Hset ps eq_refl)). }
  destruct Hjx as [Hjx Hfix].
  split.
  - apply json_like_object. apply json_like_object in Hjm. destruct Hjm as [Hnd0 Hall0].
    split; [now apply Hnd | now apply (Hval json_like)].
  - destruct Hk as [Hl1 | (Hp & Hno & -> & Hnm & Hagain)].
    + rewrite (merge_entry_written _ m1 k v x Hv).
      * now apply set_prop_same.
      * destruct (mergeable v) eqn:Em.
        -- destruct (truthy x) eqn:Etx.
           ++ left. split; [exact Em|]. exists x. repeat split; try assumption.
              now apply Hfix.
           ++ right.
              assert (Hxv : x = v).
              { destruct Hw as [[_ [d [_ [Ht Hrec]]]] | [-> _]]; [|reflexivity].
                rewrite (mergeConfig_truthy d v x Ht Em Hrec) in Etx. discriminate Etx. }
              split; [exact Hxv|]. right. left. exists x. split; assumption.
        -- right. destruct Hw as [[Hm _] | [-> _]]; [congruence|].
           split; [reflexivity | left; exact Em].
    + rewrite (merge_entry_written _ m k v x Hv Hw). exact Hs.
Qed.

Lemma merge_entry_transfer (recur : value -> outcome value)
  (m1 r : list (string * value)) (k : string) (v : value) :
  lookup_own r k = lookup_own m1 k ->
  Config.merge_entry recur (VObj m1) k v = Ok (VObj m1) ->
  Config.merge_entry recur (VObj r) k v = Ok (VObj r).
Proof.
  intros Hl E. destruct (value_eq_undefined v) as [-> | Hv]; [reflexivity|].
  destruct (merge_entry_cases _ _ _ _ _ E Hv) as (m0 & x & Hm & Hw & Hs).
  injection Hm as <-.
  assert (Hw' : written recur r k v x).
  { unfold written in *. now rewrite Hl. }
  rewrite (merge_entry_written _ r k v x Hv Hw').
  destruct (set_prop_effect _ _ _ _ Hs) as (m' & Hr & _ & Hk & _).
  injection Hr as <-.
  destruct Hk as [Hl1 | (_ & Hno & _ & _ & Hagain)].
  - apply set_prop_same. congruence.
  - apply Hagain. unfold has_own in *. now rewrite Hl.
Qed.

(** The loop over a whole overrides object: the result is JSON data,
    and running the loop again on the result changes nothing. *)
Lemma merge_entries_twice (ps : list (string * value)) :
  NoDup (map fst ps) ->
  Forall (fun e => snd e = VUndefined \/ (json_like (snd e) /\ settles (snd e))) ps ->
  forall a r, json_like a -> Config.merge_entries ps a = Ok r ->
              json_like r /\ Config.merge_entries ps r = Ok r.
Proof.
  intros Hnd Hall. induction Hall as [|[k v] ps Hkv Hall IH]; intros a r Hja;
    cbn [Config.merge_entries].
  - intros E. injection E as <-. now split.
  - cbn [map fst] in Hnd. apply NoDup_cons in Hnd. destruct Hnd as [Hnot Hnd].
    cbn [snd] in Hkv.
    destruct (Config.merge_entry _ a k v) as [a1| |] eqn:E1; cbn [obind]; try discriminate.
    intros E.
    destruct (value_eq_undefined v) as [-> | Hv].
    + injection E1 as <-. destruct (IH Hnd a r Hja E) as [Hjr Hfix].
      split; [exact Hjr|]. cbn [Config.merge_entry obind]. exact Hfix.
    + destruct (merge_entry_cases _ _ _ _ _ E1 Hv) as (m & x & -> & _ & Hs).
      destruct (set_prop_object _ _ _ _ Hs) as [m1 ->].
      destruct (merge_entry_fix m m1 k v Hja Hkv E1) as [Hj1 Hfix1].
      destruct (IH Hnd (VObj m1) r Hj1 E) as [Hjr Hfix].
      split; [exact Hjr|].
      destruct (merge_entries_object _ _ _ E) as [mr ->].
      rewrite (merge_entry_transfer _ m1 mr k v); cbn [obind]; try assumption.
      now apply (merge_entries_frame ps m1 mr k).
Qed.

(** Every JSON object is settled. *)
Lemma json_like_settles (v : value) : json_like v -> settles v.
Proof.
  induction v as [| |b|n|s|l IH|ps IH] using value_ind_nested; intros Hj qs Hq;
    try discriminate Hq.
  injection Hq as <-.
  pose proof Hj as Hj0. apply json_like_object in Hj. destruct Hj as [Hnd Hvals].
  assert (Hall : Forall (fun e => snd e = VUndefined \/ (json_like (snd e) /\ settles (snd e)))
                   ps).
  { rewrite List.Forall_forall in *. intros e He. right.
    split; [now apply Hvals | apply IH; [exact He | now apply Hvals]]. }
  split.
  - intros d r Hjd. rewrite mergeConfig_entries, (json_clone_id d Hjd). cbn [obind].
    intros E. destruct (merge_entries_twice ps Hnd Hall d r Hjd E) as [Hjr Hfix].
    split; [exact Hjr|]. now rewrite mergeConfig_entries, (json_clone_id r Hjr).
  - rewrite mergeConfig_entries, (json_clone_id _ Hj0). cbn [obind].
    apply merge_entries_settled. rewrite List.Forall_forall in *.
    intros [k v] Hin. cbn [fst snd].
    assert (Hl : lookup_own ps k = Some v) by now apply lookup_own_nodup.
    assert (Hjv : json_like v) by exact (Hvals _ Hin).
    assert (Hv : v <> VUndefined) by (intros ->; destruct Hjv).
    rewrite (merge_entry_written _ ps k v v Hv).
    + now apply set_prop_same.
    + destruct v as [| |b|n|s|l|qs];
        try (right; split; [reflexivity | left; reflexivity]).
      * right. split; [reflexivity|]. right. left. exists VNull. now split.
      * left. split; [reflexivity|]. exists (VObj qs). repeat split; [exact Hl|].
        exact (proj2 (IH _ Hin Hjv qs eq_refl)).
Qed.

(** The iteration that handles a given key sees the default stored under
    that key and decides what the result stores there. *)
Lemma merge_entries_at (ps : list (string * value)) (m0 mr : list (string * value))
  (k : string) (v : value) :
  NoDup (map fst ps) -> In (k, v) ps ->
  Config.merge_entries ps (VObj m0) = Ok (VObj mr) ->
  exists a a1,
    Config.merge_entry (fun d => Config.mergeConfig d v) (VObj a) k v = Ok (VObj a1)
    /\ lookup_own a k = lookup_own m0 k
    /\ lookup_own mr k = lookup_own a1 k.
Proof.
  revert m0. induction ps as [|[k0 v0] ps IH]; intros m0 Hnd Hin; [destruct Hin|].
  cbn [map fst] in Hnd. apply NoDup_cons in Hnd. destruct Hnd as [Hnot Hnd].
  cbn [Config.merge_entries].
  destruct (Config.merge_entry _ (VObj m0) k0 v0) as [a1| |] eqn:E1; cbn [obind];
    try discriminate.
  destruct (merge_entry_object _ _ _ _ _ E1) as [m1 ->]. intros E.
  destruct Hin as [Heq | Hin].
  - injection Heq as -> ->. exists m0, m1. split; [exact E1 | split; [reflexivity|]].
    now apply (merge_entries_frame ps m1 mr k).
  - destruct (IH m1 Hnd Hin E) as (a & a1 & Hstep & Hbefore & Hafter).
    exists a, a1. split; [exact Hstep | split; [|exact Hafter]].
    rewrite Hbefore. apply (merge_entry_frame _ _ _ _ _ _ E1).
    intros ->. apply Hnot. apply list_elem_of_In.
    change k0 with (fst (k0, v)). now apply in_map.
Qed.

Lemma lookup_own_in (ps : list (string * value)) (k : string) (v : value) :
  lookup_own ps k = Some v -> In (k, v) ps.
Proof.
  induction ps as [|[k0 v0] ps IH]; cbn [lookup_own]; [discriminate|].
  destruct (String.eqb k k0) eqn:E.
  - apply String.eqb_eq in E. subst k0. intros H. injection H as ->. now left.
  - intros H. right. now apply IH.
Qed.

Lemma lookup_own_none (ps : list (string * value)) (k : string) :
  lookup_own ps k = None -> k ∉ map fst ps.
Proof.
  intros Hl Hin. apply has_own_in in Hin. unfold has_own in Hin. now rewrite Hl in Hin.
Qed.

(** C3, as amended.  For defaults that are JSON data and an overrides
    object with recognized keys (each once, each value [undefined] or
    JSON data), whenever the merge returns: a field of the result is
    the default's value where the override is absent or [undefined]; it
    is the merge of the override into the default where the override is
    a non-array object (or [null]) and the default is truthy; it is the
    override's value in every other case.  And merging the result with
    the same overrides again returns the result unchanged. *)
Theorem mergeConfig_deep_and_idempotent (d o : list (string * value)) (merged : value) :
  json_like (VObj d) ->
  overrides_like o ->
  Forall (fun e => In (fst e) recognized) o ->
  Config.mergeConfig (VObj d) (VObj o) = Ok merged ->
  (forall k, merged_field (VObj d) (VObj o) k = Ok (get merged k))
  /\ Config.mergeConfig merged (VObj o) = Ok merged.
Proof.
  intros Hjd [Hnd Hvals] Hrec.
  rewrite mergeConfig_entries, (json_clone_id _ Hjd). cbn [obind]. intros E.
  assert (Hall : Forall (fun e => snd e = VUndefined \/ (json_like (snd e) /\ settles (snd e)))
                   o).
  { rewrite List.Forall_forall in *. intros e He.
    destruct (Hvals e He) as [Hu | Hj]; [now left | right].
    split; [exact Hj | now apply json_like_settles]. }
  destruct (merge_entries_twice o Hnd Hall (VObj d) merged Hjd E) as [Hjm Hfix].
  split; [| now rewrite mergeConfig_entries, (json_clone_id _ Hjm)].
  destruct (merge_entries_object _ _ _ E) as [m ->].
  intros k. unfold merged_field. cbn [own_entries get].
  destruct (lookup_own o k) as [v|] eqn:Hl.
  - pose proof (lookup_own_in _ _ _ Hl) as Hin.
    assert (Hk : k <> "__proto__").
    { rewrite List.Forall_forall in Hrec. specialize (Hrec _ Hin). cbn [fst] in Hrec.
      intros ->. cbn in Hrec. intuition discriminate. }
    destruct (merge_entries_at o d m k v Hnd Hin E) as (a & a1 & Hstep & Hbefore & Hafter).
    rewrite Hafter, <- Hbefore.
    destruct (value_eq_undefined v) as [-> | Hv].
    { injection Hstep as <-. reflexivity. }
    assert (Hnu : is_undefined v = false) by (destruct v; try reflexivity; contradiction).
    rewrite Hnu.
    destruct (merge_entry_cases _ _ _ _ _ Hstep Hv) as (a0 & x & Ha & Hw & Hs).
    injection Ha as <-.
    destruct (set_prop_effect _ _ _ _ Hs) as (m' & Hr & _ & Hkx & _).
    injection Hr as <-.
    destruct Hkx as [Hlx | [Hp _]]; [|contradiction].
    rewrite Hlx.
    destruct Hw as [[Hm [dk [Hld [Ht Hrecur]]]] | [-> Hcase]].
    + now rewrite Hm, Hld, Ht.
    + destruct Hcase as [Hm | [[dk [Hld Ht]] | [Hld _]]].
      * now rewrite Hm.
      * rewrite Hld, Ht. now rewrite andb_false_r.
      * rewrite Hld. now rewrite andb_false_r.
  - now rewrite (merge_entries_frame o d m k E (lookup_own_none _ _ Hl)).
Qed.

Lemma distinct_NoDup (l : list string) : distinct l = true -> NoDup l.
Proof.
  induction l as [|x l IH]; intros Hd; [constructor|].
  cbn [distinct] in Hd. apply andb_true_iff in Hd. destruct Hd as [Hx Hd].
  apply NoDup_cons. split; [|now apply IH]. intros Hin. apply list_elem_of_In in Hin.
  apply negb_true_iff in Hx.
  assert (Hex : existsb (String.eqb x) l = true).
  { apply existsb_exists. exists x. split; [exact Hin | apply String.eqb_refl]. }
  congruence.
Qed.

Ltac json_data :=
  cbn [json_like map fst snd];
  repeat split; try exact I; try (apply distinct_NoDup; reflexivity).

Lemma DEFAULTS_json_like : json_like Config.DEFAULTS.
Proof. unfold Config.DEFAULTS. json_data. Qed.

Lemma mergeConfig_deep_and_idempotent_witness :
  let d := own_entries Config.DEFAULTS in
  let o := [ ("apiKey", VStr "secret");
             ("endpoints", VObj [ ("extra", VStr "/x") ]);
             ("sheetName", VUndefined) ] in
  exists merged,
    Config.mergeConfig (VObj d) (VObj o) = Ok merged
    /\ get merged "apiKey" = VStr "secret"
    /\ get merged "sheetName" = VStr "Pets"
    /\ Config.mergeConfig (get Config.DEFAULTS "endpoints") (VObj [ ("extra", VStr "/x") ])
       = Ok (get merged "endpoints")
    /\ Config.mergeConfig merged (VObj o) = Ok merged.
Proof.
  cbv zeta.
  destruct (Config.mergeConfig (VObj (own_entries Config.DEFAULTS))
              (VObj [ ("apiKey", VStr "secret");
                      ("endpoints", VObj [ ("extra", VStr "/x") ]);
                      ("sheetName", VUndefined) ])) as [merged| |] eqn:E;
    try discriminate E.
  destruct (mergeConfig_deep_and_idempotent
              (own_entries Config.DEFAULTS)
              [ ("apiKey", VStr "secret");
                ("endpoints", VObj [ ("extra", VStr "/x") ]);
                ("sheetName", VUndefined) ] merged) as [Hfields Hidem].
  - exact DEFAULTS_json_like.
  - split; [apply distinct_NoDup; reflexivity|].
    apply List.Forall_cons; [right; json_data|].
    apply List.Forall_cons; [right; json_data|].
    apply List.Forall_cons; [left; reflexivity|].
    apply List.Forall_nil.
  - repeat apply List.Forall_cons; try apply List.Forall_nil; cbn; tauto.
  - exact E.
  - exists merged. split; [reflexivity|].
    pose proof (Hfields "apiKey") as H1. pose proof (Hfields "sheetName") as H2.
    pose proof (Hfields "endpoints") as H3. cbn in H1, H2.
    injection H1 as H1. injection H2 as H2.
    repeat split; try congruence. exact H3.
Defined.

(** C3 as stated fails: with the defaults of the script and the single
    recognized override [endpoints = {extra: '/x'}], the merged
    [endpoints] is not the override's value -- the two default endpoints
    are still there. *)
Lemma mergeConfig_override_not_taken :
  let overrides := VObj [ ("endpoints", VObj [ ("extra", VStr "/x") ]) ] in
  In "endpoints" recognized
  /\ exists merged,
       Config.mergeConfig Config.DEFAULTS overrides = Ok merged
       /\ get merged "endpoints"
          = VObj [ ("fetchPets", VStr "/pets"); ("fetchOwners", VStr "/owners");
                   ("extra", VStr "/x") ]
       /\ override_or_default Config.DEFAULTS overrides "endpoints"
          = VObj [ ("extra", VStr "/x") ]
       /\ get merged "endpoints" <> override_or_default Config.DEFAULTS overrides "endpoints".
Proof.
  cbv zeta. split; [cbn; tauto|]. eexists. split; [reflexivity|].
  repeat split. discriminate.
Qed.

(** When no override is an object (or [null]) the merge always returns,
    and the claim holds as it was stated: override where present and not
    [undefined], default elsewhere. *)
Lemma merge_entries_flat (o : list (string * value)) :
  NoDup (map fst o) ->
  Forall (fun e => mergeable (snd e) = false /\ fst e <> "__proto__") o ->
  forall a, exists m,
    Config.merge_entries o (VObj a) = Ok (VObj m)
    /\ forall k, lookup_own m k
                 = match lookup_own o k with
                   | Some v => if is_undefined v then lookup_own a k else Some v
                   | None => lookup_own a k
                   end.
Proof.
  intros Hnd Hall. induction Hall as [|[k0 v0] o [Hflat Hk0] Hall IH]; intros a.
  - exists a. split; reflexivity.
  - cbn [map fst] in Hnd. apply NoDup_cons in Hnd. destruct Hnd as [Hnot Hnd].
    cbn [fst snd] in *. cbn [Config.merge_entries].
    assert (Hstep : exists a1,
               Config.merge_entry (fun d => Config.mergeConfig d v0) (VObj a) k0 v0
               = Ok (VObj a1)
               /\ (forall k, k <> k0 -> lookup_own a1 k = lookup_own a k)
               /\ lookup_own a1 k0 = if is_undefined v0 then lookup_own a k0 else Some v0).
    { destruct (value_eq_undefined v0) as [-> | Hv].
      - exists a. repeat split.
      - assert (Hw : written (fun d => Config.mergeConfig d v0) a k0 v0 v0).
        { right. split; [reflexivity | now left]. }
        rewrite (merge_entry_written _ a k0 v0 v0 Hv Hw).
        assert (Hset : exists a1, set_prop (VObj a) k0 v0 = Ok (VObj a1)).
        { unfold set_prop. destruct (has_own a k0); [eauto|].
          destruct (String.eqb k0 "__proto__") eqn:Ep; [|eauto].
          apply String.eqb_eq in Ep. contradiction. }
        destruct Hset as [a1 Hset]. exists a1. split; [exact Hset|].
        destruct (set_prop_effect _ _ _ _ Hset) as (m' & Hr & Hother & Hkx & _).
        injection Hr as <-. split; [exact Hother|].
        destruct Hkx as [-> | [Hp _]]; [|contradiction].
        destruct v0; try reflexivity. contradiction. }
    destruct Hstep as (a1 & -> & Hother & Hown). cbn [obind].
    destruct (IH Hnd a1) as (m & -> & Hm). exists m. split; [reflexivity|].
    intros k. rewrite Hm. cbn [lookup_own].
    destruct (String.eqb k k0) eqn:Ek.
    + apply String.eqb_eq in Ek. subst k0.
      destruct (lookup_own o k) as [v|] eqn:Hl; [|exact Hown].
      exfalso. apply Hnot. apply list_elem_of_In.
      change k with (fst (k, v)). apply in_map. now apply lookup_own_in.
    + apply String.eqb_neq in Ek.
      destruct (lookup_own o k) as [v|]; [destruct (is_undefined v)|]; try reflexivity;
        now apply Hother.
Qed.

(** X29. When no override is an object or [null] (and none is called
    [__proto__]), the merge always returns, and each field of the result
    is the override's value where the override is present and not
    [undefined], and the default's value elsewhere. *)
Lemma mergeConfig_flat (d o : list (string * value)) :
  json_like (VObj d) ->
  NoDup (map fst o) ->
  Forall (fun e => mergeable (snd e) = false /\ fst e <> "__proto__") o ->
  exists merged,
    Config.mergeConfig (VObj d) (VObj o) = Ok merged
    /\ forall k, get merged k = override_or_default (VObj d) (VObj o) k.
Proof.
  intros Hjd Hnd Hall.
  destruct (merge_entries_flat o Hnd Hall d) as (m & E & Hm).
  exists (VObj m). rewrite mergeConfig_entries, (json_clone_id _ Hjd). cbn [obind].
  split; [exact E|]. intros k. unfold override_or_default. cbn [get own_entries].
  rewrite Hm. destruct (lookup_own o k) as [v|]; [destruct (is_undefined v)|]; reflexivity.
Qed.

(** ** From the property stores to the frozen object *)

Lemma set_prop_recognized (o : list (string * value)) (k : string) (v r : value) :
  In k recognized ->
  Forall (fun e => In (fst e) recognized) o ->
  set_prop (VObj o) k v = Ok r ->
  exists o', r = VObj o' /\ Forall (fun e => In (fst e) recognized) o'.
Proof.
  intros Hk Ho E. unfold set_prop in E. destruct (has_own o k).
  - injection E as <-. eexists. split; [reflexivity|].
    clear Hk. induction Ho as [|[k0 v0] o H0 Ho IH]; cbn [replace_own]; [constructor|].
    destruct (String.eqb k k0); constructor; assumption.
  - destruct (String.eqb k "__proto__") eqn:Ep.
    + apply String.eqb_eq in Ep. subst k. cbn in Hk. intuition discriminate.
    + injection E as <-. eexists. split; [reflexivity|].
      apply Forall_app. split; [exact Ho|].
      apply List.Forall_cons; [exact Hk | apply List.Forall_nil].
Qed.

Section Built.
Context `{Host}.

Lemma override_entries_recognized (es o : list (string * value)) (r : value) :
  Forall (fun e => In (fst e) recognized) o ->
  Config.override_entries (VObj o) es = Ok r ->
  exists o', r = VObj o' /\ Forall (fun e => In (fst e) recognized) o'.
Proof.
  revert o. induction es as [|[key val] es IH]; intros o Ho; cbn [Config.override_entries].
  - intros E. injection E as <-. eauto.
  - destruct (Config.override_entry (VObj o) key val) as [o1| |] eqn:E1; cbn [obind];
      try discriminate.
    assert (H1 : exists o', o1 = VObj o' /\ Forall (fun e => In (fst e) recognized) o').
    { unfold Config.override_entry in E1.
      repeat match type of E1 with
             | (if ?c then _ else _) = _ => destruct c
             end.
      all: try (eapply set_prop_recognized; [|exact Ho|exact E1]; cbn; tauto).
      - destruct (s <~ ToString val ;; _) as [v| |]; try discriminate E1.
        eapply set_prop_recognized; [|exact Ho|exact E1]; cbn; tauto.
      - injection E1 as <-. eauto. }
    destruct H1 as (o' & -> & Ho'). now apply IH.
Qed.

Lemma loadOverrides_recognized (script user : list (string * string)) (r : value) :
  Config.loadOverrides script user = Ok r ->
  exists o, r = VObj o /\ Forall (fun e => In (fst e) recognized) o.
Proof.
  unfold Config.loadOverrides.
  destruct (Config.all_properties script user); cbn [obind]; try discriminate.
  apply override_entries_recognized. constructor.
Qed.

End Built.

(** Merging overrides whose keys the target already has keeps the keys
    of the target. *)
Lemma merge_entries_keys (ps : list (string * value)) (a b : list (string * value)) :
  Forall (fun e => has_own a (fst e) = true) ps ->
  Config.merge_entries ps (VObj a) = Ok (VObj b) ->
  map fst b = map fst a.
Proof.
  revert a. induction ps as [|[k v] ps IH]; intros a Hall; cbn [Config.merge_entries].
  - intros E. now injection E as <-.
  - apply List.Forall_cons_iff in Hall. destruct Hall as [Hk Hall]. cbn [fst] in Hk.
    destruct (Config.merge_entry _ (VObj a) k v) as [a1| |] eqn:E1; cbn [obind];
      try discriminate.
    assert (H1 : exists m1, a1 = VObj m1 /\ map fst m1 = map fst a).
    { destruct (value_eq_undefined v) as [-> | Hv].
      - injection E1 as <-. eauto.
      - destruct (merge_entry_cases _ _ _ _ _ E1 Hv) as (m & x & Hm & _ & Hs).
        injection Hm as <-. unfold set_prop in Hs. rewrite Hk in Hs.
        injection Hs as <-. eexists. split; [reflexivity | apply replace_own_keys]. }
    destruct H1 as (m1 & -> & Hkeys). intros E.
    rewrite <- Hkeys. apply IH; [|exact E].
    rewrite List.Forall_forall in *. intros e He. specialize (Hall e He).
    apply has_own_in. apply has_own_in in Hall. now rewrite Hkeys.
Qed.

Lemma slash_paths_strings (es : list (string * value)) :
  forallb (fun e => slash_path (snd e)) es = true ->
  exists fs, Frozen.string_fields es = Some fs.
Proof.
  induction es as [|[k v] es IH]; cbn [forallb Frozen.string_fields snd]; [eauto|].
  intros Hall. apply andb_true_iff in Hall. destruct Hall as [Hv Hall].
  destruct v; try discriminate Hv. destruct (IH Hall) as [fs ->]. eauto.
Qed.

Section BuiltFrozen.
Context `{Host}.

(** Every configuration [build_config] returns has the seven fields of
    the defaults, in their order, and can be laid out in the heap; read
    back, the layout is that configuration. *)
Lemma build_config_constructs (script user : list (string * string)) (cfg : value) :
  Config.build_config script user = Ok cfg ->
  exists props st0,
    cfg = VObj props
    /\ map fst props = recognized
    /\ Frozen.construct cfg = Some st0
    /\ Frozen.observe st0 = Some cfg.
Proof.
  unfold Config.build_config.
  destruct (Config.loadOverrides script user) as [overrides| |] eqn:El; cbn [obind];
    try discriminate.
  destruct (loadOverrides_recognized _ _ _ El) as (o & -> & Ho).
  destruct (Config.mergeConfig Config.DEFAULTS (VObj o)) as [merged| |] eqn:Em;
    cbn [obind]; try discriminate.
  destruct (Config.validate merged) as [[]| |] eqn:Ev; cbn [obind]; try discriminate.
  intros E. injection E as <-.
  destruct (mergeConfig_object _ _ _ Em) as [m ->].
  assert (Hkeys : map fst m = recognized).
  { unfold Config.DEFAULTS in Em. rewrite mergeConfig_entries in Em.
    cbn [json_clone json_value obind] in Em.
    eapply eq_trans; [eapply merge_entries_keys; [|exact Em] | reflexivity].
    rewrite List.Forall_forall in *. intros e He. specialize (Ho e He).
    cbn in Ho. destruct Ho as [<- | [<- | [<- | [<- | [<- | [<- | [<- | []]]]]]]];
      reflexivity. }
  apply (proj1 (validate_spec (VObj m))) in Ev.
  destruct m as [|[k1 v1] [|[k2 v2] [|[k3 v3] [|[k4 v4] [|[k5 v5] [|[k6 v6]
                 [|[k7 v7] [|? ?]]]]]]]]; try discriminate Hkeys.
  cbn [map fst] in Hkeys. unfold recognized in Hkeys.
  injection Hkeys as -> -> -> -> -> -> ->.
  unfold valid, fields_valid in Ev.
  cbn [get lookup_own String.eqb Ascii.eqb Bool.eqb] in Ev.
  repeat (apply andb_true_iff in Ev; destruct Ev as [Ev ?]).
  assert (Hstr : forall v, Config.nonempty_string v = true -> exists s, v = VStr s).
  { intros v Hv. unfold Config.nonempty_string in Hv. destruct v; cbn in Hv;
      rewrite ?andb_false_r in Hv; try discriminate Hv. eauto. }
  destruct v1 as [| | | |s1| |]; try discriminate Ev.
  repeat match goal with
         | Hn : Config.nonempty_string ?v = true |- _ =>
             destruct (Hstr v Hn) as [? ->]; clear Hn
         end.
  assert (Hend : exists ef, Frozen.string_fields (own_entries v3) = Some ef
                            /\ (isArray v3 = true \/ exists ps, v3 = VObj ps)).
  { unfold endpoints_valid in *.
    destruct v3; try discriminate;
      match goal with
      | Hf : forallb _ _ = true |- _ => destruct (slash_paths_strings _ Hf) as [ef ->]
      end; eauto. }
  destruct Hend as (ef & Hef & Hkind).
  match goal with
  | |- exists props st0, ?c = VObj props /\ _ =>
      assert (Hc : exists st0, Frozen.construct c = Some st0)
  end.
  { unfold Frozen.construct.
    cbn [lookup_own String.eqb Ascii.eqb Bool.eqb Frozen.root_fields Frozen.value_prim
           option_map].
    rewrite Hef. destruct Hkind as [Ha | [ps ->]]; [destruct v3; try discriminate Ha|];
      eauto. }
  destruct Hc as [st0 Hc]. eexists _, st0.
  split; [reflexivity|]. split; [reflexivity|]. split; [exact Hc|].
  apply FrozenFacts.observe_construct; [|exact Hc].
  apply distinct_NoDup. reflexivity.
Qed.

End BuiltFrozen.

(** ** [_getRawConfig] without writes on [endpoints] *)

Module RawFacts.
Import Frozen.

Lemma stable_alloc (r0 e0 o : hobj) (st : state) :
  stable r0 e0 st -> frozen o = true -> stable r0 e0 (snd (alloc o st)).
Proof.
  intros [Hroot Hend Hfr Hflat Hrefs Hre Hnext Hothers] Ho.
  unfold alloc. cbn [snd]. constructor; cbn [heap next]; try assumption.
  - rewrite lookup_insert_ne; [exact Hroot | unfold root; lia].
  - rewrite lookup_insert_ne; [exact Hend | unfold endpoints_loc; lia].
  - lia.
  - intros l o' Hl. destruct (decide (next st = l)) as [<-|Hne].
    + rewrite lookup_insert_eq. intros E. now injection E as <-.
    + rewrite lookup_insert_ne by exact Hne. now apply Hothers.
Qed.

Lemma stable_learn (r0 e0 : hobj) (v : hval) (st : state) :
  stable r0 e0 st -> stable r0 e0 (learn v st).
Proof.
  intros Hs. destruct v as [p|l]; [exact Hs|].
  destruct Hs as [Hroot Hend Hfr Hflat Hrefs Hre Hnext Hothers]. now constructor.
Qed.

Lemma call_stable (r0 e0 : hobj) (o : op) (st : state) :
  spares_endpoints o = true ->
  stable r0 e0 st ->
  exists v st', call o st = Some (v, st') /\ stable r0 e0 st'.
Proof.
  intros Hsp Hs. pose proof Hs as Hs0.
  destruct Hs as [Hroot Hend Hfr Hflat Hrefs Hre Hnext Hothers].
  assert (Hfrozen : forall l o', l <> endpoints_loc -> heap st !! l = Some o' ->
                                 frozen o' = true).
  { intros l o' Hne Ho'. destruct (decide (l = root)) as [->|Hnr].
    - rewrite Hroot in Ho'. now injection Ho' as <-.
    - apply (Hothers l o'); [unfold root, endpoints_loc in *; lia | exact Ho']. }
  destruct o as [| | | |l k|l k v|l k]; cbn [call].
  - unfold root_field. rewrite Hroot, Hre, Hend.
    destruct (FrozenFacts.assign_fields_strings (fields e0) [] Hflat (List.Forall_nil _))
      as [copied [-> _]].
    eexists _, _. split; [reflexivity|]. apply stable_learn.
    apply stable_alloc; [|reflexivity]. apply stable_alloc; [exact Hs0 | reflexivity].
  - eexists _, _. split; [reflexivity|]. apply stable_learn.
    apply stable_alloc; [exact Hs0 | reflexivity].
  - eexists _, _. split; [reflexivity|]. now apply stable_learn.
  - eexists _, _. split; [reflexivity|]. now apply stable_learn.
  - destruct (decide (l ∈ known st)) as [Hin|Hin]; [|eauto].
    destruct (heap st !! l) as [o|] eqn:Eo; [|eauto].
    eexists _, _. split; [reflexivity|]. now apply stable_learn.
  - cbn [spares_endpoints] in Hsp. apply negb_true_iff, Nat.eqb_neq in Hsp.
    destruct (decide (l ∈ known st)) as [Hin|Hin]; [|eauto].
    destruct (heap st !! l) as [o|] eqn:Eo; [|eauto].
    rewrite (Hfrozen l o Hsp Eo). eauto.
  - cbn [spares_endpoints] in Hsp. apply negb_true_iff, Nat.eqb_neq in Hsp.
    destruct (decide (l ∈ known st)) as [Hin|Hin]; [|eauto].
    destruct (heap st !! l) as [o|] eqn:Eo; [|eauto].
    rewrite (Hfrozen l o Hsp Eo). eauto.
Qed.

Lemma observe_stable (r0 e0 : hobj) (st st' : state) :
  stable r0 e0 st -> stable r0 e0 st' -> observe st = observe st'.
Proof.
  intros [Hroot Hend _ _ Hrefs _ _ _] [Hroot' Hend' _ _ _ _ _ _].
  unfold observe. rewrite Hroot, Hroot'. f_equal. unfold object_value. f_equal.
  apply map_ext_in. intros [k v] Hin. f_equal.
  rewrite List.Forall_forall in Hrefs. specialize (Hrefs _ Hin). cbn [snd] in *.
  destruct Hrefs as [[_ ->] | Hp].
  - now rewrite Hend, Hend'.
  - destruct v; [reflexivity | contradiction].
Qed.

(** X28. Calling the accessors, [_getRawConfig] included, and reading
    what they return never changes the configuration; only a write on the
    object behind [endpoints], reachable through [_getRawConfig] alone,
    can. *)
Lemma accessors_never_mutate (cfg : value) (st0 : state) (ops : list op) :
  construct cfg = Some st0 ->
  forallb spares_endpoints ops = true ->
  exists st, run ops st0 = Some st /\ observe st = observe st0.
Proof.
  intros Hc Hops.
  destruct (FrozenFacts.construct_sealed cfg st0 Hc) as (r0 & e0 & Hs & Hfr & _).
  assert (Hs0 : stable r0 e0 st0).
  { destruct Hs as [Hroot Hend Hflat Hrefs Hre Hnext Hfresh Hknown Hhanded].
    constructor; try assumption. intros l o Hl Ho. exact (proj1 (Hhanded l o Hl Ho)). }
  clear Hs Hc.
  assert (Hrun : forall st, stable r0 e0 st ->
                            exists st', run ops st = Some st' /\ stable r0 e0 st').
  { induction ops as [|o ops IH]; intros st Hst; cbn [run]; [eauto|].
    cbn [forallb] in Hops. apply andb_true_iff in Hops. destruct Hops as [Ho Hops].
    destruct (call_stable r0 e0 o st Ho Hst) as (v & st1 & -> & Hst1).
    now apply IH. }
  destruct (Hrun st0 Hs0) as (st & Hr & Hst).
  exists st. split; [exact Hr | exact (observe_stable r0 e0 st st0 Hst Hs0)].
Qed.

End RawFacts.

(** ** The two readings of [getApiConfig] agree *)

Module AccessorFacts.
Import Frozen.

Lemma has_field_props (fs : list (string * hval)) (k : string) :
  has_own (as_props fs) k = has_field fs k.
Proof.
  unfold has_own. induction fs as [|[k0 v0] fs IH]; cbn [as_props map fst snd lookup_own has_field];
    [reflexivity|].
  destruct (String.eqb k k0); [reflexivity | exact IH].
Qed.

Lemma replace_field_props (fs : list (string * hval)) (k : string) (v : hval) :
  as_props (replace_field fs k v) = replace_own (as_props fs) k (shallow_value v).
Proof.
  induction fs as [|[k0 v0] fs IH]; cbn [as_props map fst snd replace_field replace_own];
    [reflexivity|].
  destruct (String.eqb k k0); cbn [map fst snd]; [reflexivity|].
  f_equal. exact IH.
Qed.

(** [Object.assign] on string entries, on values and in the heap. *)
Lemma assign_agree (es : list (string * value)) (ef : list (string * hval)) :
  string_fields es = Some ef ->
  forall th th',
    assign_fields th ef = Some th' ->
    Config.assign_entries (VObj (as_props th)) es = Ok (VObj (as_props th')).
Proof.
  revert ef. induction es as [|[k v] es IH]; intros ef; cbn [string_fields].
  - intros E. injection E as <-. intros th th' E. injection E as <-. reflexivity.
  - destruct v as [| | | |s| |]; try discriminate.
    destruct (string_fields es) as [ef'|] eqn:Ee; [|discriminate].
    intros E. injection E as <-. intros th th'. cbn [assign_fields Config.assign_entries].
    unfold write_field, set_prop. rewrite has_field_props.
    destruct (has_field th k).
    + cbn [obind]. intros E.
      pose proof (replace_field_props th k (HPrim (PStr s))) as Hrep.
      cbn [shallow_value prim_value] in Hrep. rewrite <- Hrep. now apply (IH ef').
    + destruct (String.eqb k "__proto__"); cbn [obind]; intros E.
      * now apply (IH ef').
      * change (as_props th ++ [(k, VStr s)]) with
          (as_props th ++ as_props [(k, HPrim (PStr s))]).
        unfold as_props. rewrite <- map_app. now apply (IH ef').
Qed.

Lemma root_fields_field (props : list (string * value)) (rf : list (string * hval))
  (k : string) :
  root_fields props = Some rf ->
  k <> "endpoints" ->
  shallow_value (field rf k) = get (VObj props) k.
Proof.
  intros Er Hk. cbn [get]. revert rf Er.
  induction props as [|[k0 v0] props IH]; intros rf; cbn [root_fields lookup_own].
  - intros E. injection E as <-. reflexivity.
  - destruct (String.eqb k0 "endpoints") eqn:E0.
    + destruct (root_fields props) as [rf'|]; [|discriminate].
      intros E. injection E as <-. cbn [field].
      apply String.eqb_eq in E0. subst k0.
      destruct (String.eqb k "endpoints") eqn:Ek; [|now apply IH].
      apply String.eqb_eq in Ek. contradiction.
    + destruct (value_prim v0) as [p|] eqn:Ep; [|discriminate]. cbn [option_map].
      destruct (root_fields props) as [rf'|]; [|discriminate].
      intros E. injection E as <-. cbn [field].
      destruct (String.eqb k k0); [|now apply IH].
      cbn [shallow_value]. now apply FrozenFacts.value_prim_value.
Qed.

(** Right after construction, the object [getApiConfig] allocates in the
    heap reads as the value the functional [Config.getApiConfig]
    returns. *)
Lemma getApiConfig_agrees (cfg : value) (st0 : state) :
  construct cfg = Some st0 ->
  exists hv st',
    call GetApiConfig st0 = Some (hv, st')
    /\ Config.getApiConfig cfg = Ok (result_value st' hv).
Proof.
  unfold construct. destruct cfg as [| | | | | |props]; try discriminate.
  destruct (lookup_own props "endpoints") as [e|] eqn:El; [|discriminate].
  assert (Hcase : forall b : bool,
             (exists l, e = VArr l) \/ (exists m, e = VObj m) ->
             match root_fields props, string_fields (own_entries e) with
             | Some rf, Some ef =>
                 Some {| heap := <[root := {| frozen := true; is_array := false; fields := rf |}]>
                                   (<[endpoints_loc := {| frozen := false; is_array := b;
                                                          fields := ef |}]> ∅);
                         next := 2; known := ∅ |}
             | _, _ => None
             end = Some st0 ->
             exists hv st',
               call GetApiConfig st0 = Some (hv, st')
               /\ Config.getApiConfig (VObj props) = Ok (result_value st' hv)).
  { intros b Hkind. destruct (root_fields props) as [rf|] eqn:Er; [|discriminate].
    destruct (string_fields (own_entries e)) as [ef|] eqn:Ee; [|discriminate].
    intros E. injection E as <-.
    pose proof (FrozenFacts.string_fields_strings _ _ Ee) as Hstr.
    destruct (FrozenFacts.assign_fields_strings ef [] Hstr (List.Forall_nil _))
      as [copied [Ea _]].
    assert (Hp : forall k, k <> "endpoints" ->
                           exists p, field rf k = HPrim p
                                     /\ prim_value p = get (VObj props) k).
    { intros k Hk.
      pose proof (FrozenFacts.root_field_primitive
                    {| frozen := true; is_array := false; fields := rf |} k
                    (FrozenFacts.root_fields_refs props rf Er) Hk) as Hprim.
      pose proof (root_fields_field props rf k Er Hk) as Hval.
      cbn [fields] in Hprim. destruct (field rf k) as [p|l]; [|contradiction].
      exists p. split; [reflexivity | exact Hval]. }
    destruct (Hp "apiUrl" ltac:(discriminate)) as (p1 & Hf1 & Hv1).
    destruct (Hp "apiKey" ltac:(discriminate)) as (p2 & Hf2 & Hv2).
    cbn [call]. unfold root_field. cbn [heap]. rewrite lookup_insert_eq. cbn [fields].
    rewrite (FrozenFacts.root_fields_endpoints props rf e Er El).
    rewrite lookup_insert_ne by discriminate. rewrite lookup_insert_eq. cbn [fields].
    rewrite Ea. unfold alloc. cbn [heap next known learn].
    eexists _, _. split; [reflexivity|].
    unfold result_value. cbn [heap]. rewrite lookup_insert_eq.
    unfold object_value. cbn [fields map fst snd].
    rewrite lookup_insert_ne by discriminate. rewrite lookup_insert_eq. cbn [is_array fields].
    unfold Config.getApiConfig. cbn [read obind].
    assert (Hcopy : Config.object_assign (VObj []) (get (VObj props) "endpoints")
                    = Ok (VObj (as_props copied))).
    { cbn [get]. rewrite El. unfold Config.object_assign.
      exact (assign_agree (own_entries e) ef Ee [] copied Ea). }
    rewrite Hcopy. cbn [obind]. rewrite Hf1, Hf2, Hv1, Hv2. reflexivity. }
  destruct e as [| | | | |l|m]; try discriminate; apply Hcase; eauto.
Qed.

End AccessorFacts.

(** ** sanitizeString *)

Module TextFacts.
Import Text.

(** What is left of a tag once its ['<'] is passed. *)
Lemma tag_match_rest (s : string) :
  tag_match (String "<" s)
  = Some (S (run_without_gt s
             + match after (run_without_gt s) s with
               | String c _ => if Ascii.eqb c ">" then 1 else 0
               | EmptyString => 0
               end)).
Proof. reflexivity. Qed.

(** The replacement is the two-state scanner. *)
Lemma replace_tags_scan (s : string) :
  replace_tags 0 s = scan false s
  /\ replace_tags (run_without_gt s
                   + match after (run_without_gt s) s with
                     | String c _ => if Ascii.eqb c ">" then 1 else 0
                     | EmptyString => 0
                     end) s = scan true s.
Proof.
  induction s as [|c s [IH0 IH1]].
  - split; reflexivity.
  - split.
    + cbn [replace_tags scan]. destruct (Ascii.eqb c "<") eqn:Ec.
      * apply Ascii.eqb_eq in Ec. subst c. rewrite tag_match_rest. exact IH1.
      * unfold tag_match. rewrite Ec. now rewrite IH0.
    + cbn [run_without_gt scan]. destruct (Ascii.eqb c ">") eqn:Ec.
      * apply Ascii.eqb_eq in Ec. subst c. exact IH0.
      * cbn [after Nat.add replace_tags]. exact IH1.
Qed.

Lemma scan_no_lt (b : bool) (s : string) : occurs "<" (scan b s) = false.
Proof.
  revert b. induction s as [|c s IH]; intros b; [destruct b; reflexivity|].
  cbn [scan]. destruct b.
  - destruct (Ascii.eqb c ">"); apply IH.
  - destruct (Ascii.eqb c "<") eqn:Ec; [apply IH|].
    cbn [occurs]. rewrite IH, orb_false_r. rewrite Ascii.eqb_sym. exact Ec.
Qed.

Lemma scan_length (b : bool) (s : string) :
  (String.length (scan b s) <= String.length s)%nat.
Proof.
  revert b. induction s as [|c s IH]; intros b; [destruct b; apply Nat.le_refl|].
  cbn [scan String.length]. destruct b.
  - destruct (Ascii.eqb c ">"); eapply Nat.le_trans; try apply IH; apply Nat.le_succ_diag_r.
  - destruct (Ascii.eqb c "<").
    + eapply Nat.le_trans; [apply IH|apply Nat.le_succ_diag_r].
    + cbn [String.length]. apply le_n_S, IH.
Qed.

(** Text without ['<'] is left as it is. *)
Lemma scan_plain (s : string) : occurs "<" s = false -> scan false s = s.
Proof.
  induction s as [|c s IH]; [reflexivity|]. cbn [occurs scan]. intros Ho.
  apply orb_false_iff in Ho. destruct Ho as [Hc Ho]. rewrite Ascii.eqb_sym in Hc.
  rewrite Hc. now rewrite IH.
Qed.

(** Inside a tag that is never closed, everything goes. *)
Lemma scan_open (s : string) : occurs ">" s = false -> scan true s = EmptyString.
Proof.
  induction s as [|c s IH]; [reflexivity|]. cbn [occurs scan]. intros Ho.
  apply orb_false_iff in Ho. destruct Ho as [Hc Ho]. rewrite Ascii.eqb_sym in Hc.
  rewrite Hc. now apply IH.
Qed.

Lemma scan_unclosed (b : bool) (a t : string) :
  occurs ">" t = false -> scan b (a ++ String "<" t) = scan b a.
Proof.
  intros Ht. revert b. induction a as [|c a IH]; intros b.
  - destruct b; cbn; now apply scan_open.
  - destruct b; simpl.
    + destruct (Ascii.eqb c ">"); apply IH.
    + destruct (Ascii.eqb c "<"); [apply IH|now rewrite IH].
Qed.

(** *** trim *)

Lemma trim_start_occurs (c : ascii) (s : string) :
  occurs c (trim_start s) = true -> occurs c s = true.
Proof.
  induction s as [|x s IH]; [easy|]. cbn [trim_start].
  destruct (is_white_space x); [|easy]. intros Ho. cbn [occurs].
  rewrite (IH Ho). apply orb_true_r.
Qed.

Lemma trim_end_occurs (c : ascii) (s : string) :
  occurs c (trim_end s) = true -> occurs c s = true.
Proof.
  induction s as [|x s IH]; [easy|]. cbn [trim_end].
  destruct (trim_end s) as [|y r] eqn:Er.
  - destruct (is_white_space x); [easy|]. cbn [occurs]. rewrite orb_false_r.
    intros ->. reflexivity.
  - cbn [occurs] in *. intros Ho. apply orb_true_iff in Ho. destruct Ho as [->|Ho]; [reflexivity|].
    rewrite (IH Ho). apply orb_true_r.
Qed.

Lemma trim_start_length (s : string) :
  (String.length (trim_start s) <= String.length s)%nat.
Proof.
  induction s as [|x s IH]; [apply Nat.le_refl|]. cbn [trim_start].
  destruct (is_white_space x); [|apply Nat.le_refl].
  cbn [String.length]. eapply Nat.le_trans; [apply IH|apply Nat.le_succ_diag_r].
Qed.

Lemma trim_end_length (s : string) :
  (String.length (trim_end s) <= String.length s)%nat.
Proof.
  induction s as [|x s IH]; [apply Nat.le_refl|]. cbn [trim_end].
  destruct (trim_end s) as [|y r] eqn:Er.
  - destruct (is_white_space x); cbn [String.length]; lia.
  - cbn [String.length] in *. lia.
Qed.

Lemma trim_start_first (s : string) (c : ascii) :
  first_char (trim_start s) = Some c -> is_white_space c = false.
Proof.
  induction s as [|x s IH]; [easy|]. cbn [trim_start].
  destruct (is_white_space x) eqn:Ex; [exact IH|].
  cbn. intros E. injection E as <-. exact Ex.
Qed.

Lemma trim_end_last (s : string) (c : ascii) :
  last_char (trim_end s) = Some c -> is_white_space c = false.
Proof.
  induction s as [|x s IH]; [easy|]. cbn [trim_end].
  destruct (trim_end s) as [|y r] eqn:Er.
  - destruct (is_white_space x) eqn:Ex; [easy|]. cbn. intros E. injection E as <-. exact Ex.
  - exact IH.
Qed.

(** Trimming the end keeps a first character that is not white space. *)
Lemma trim_end_first (s : string) (c : ascii) :
  first_char s = Some c -> is_white_space c = false ->
  first_char (trim_end s) = Some c.
Proof.
  destruct s as [|x s]; [easy|]. cbn [first_char trim_end]. intros E Hc.
  injection E as ->. destruct (trim_end s); [now rewrite Hc|reflexivity].
Qed.

Lemma trim_end_first_inv (s : string) (c : ascii) :
  first_char (trim_end s) = Some c -> first_char s = Some c.
Proof.
  destruct s as [|x s]; [easy|]. cbn [first_char trim_end].
  destruct (trim_end s); [destruct (is_white_space x); easy|easy].
Qed.

Lemma trim_start_fixed (s : string) :
  (forall c, first_char s = Some c -> is_white_space c = false) -> trim_start s = s.
Proof.
  destruct s as [|x s]; [reflexivity|]. cbn. intros Hc. now rewrite (Hc x eq_refl).
Qed.

Lemma trim_end_fixed (s : string) :
  (forall c, last_char s = Some c -> is_white_space c = false) -> trim_end s = s.
Proof.
  induction s as [|x s IH]; [reflexivity|]. intros Hc. cbn [trim_end].
  destruct s as [|y s].
  - cbn. now rewrite (Hc x eq_refl).
  - rewrite IH by exact Hc. reflexivity.
Qed.

Lemma trim_first (s : string) (c : ascii) :
  first_char (trim s) = Some c -> is_white_space c = false.
Proof.
  unfold trim. intros E. apply trim_end_first_inv in E. exact (trim_start_first _ _ E).
Qed.

Lemma trim_last (s : string) (c : ascii) :
  last_char (trim s) = Some c -> is_white_space c = false.
Proof. apply trim_end_last. Qed.

Lemma trim_trim (s : string) : trim (trim s) = trim s.
Proof.
  unfold trim at 1. rewrite trim_start_fixed by apply trim_first.
  apply trim_end_fixed, trim_last.
Qed.

Lemma trim_occurs (c : ascii) (s : string) :
  occurs c (trim s) = true -> occurs c s = true.
Proof. intros Ho. apply trim_start_occurs, trim_end_occurs, Ho. Qed.

Lemma trim_length (s : string) : (String.length (trim s) <= String.length s)%nat.
Proof.
  unfold trim. eapply Nat.le_trans; [apply trim_end_length|apply trim_start_length].
Qed.

Lemma occurs_false (c : ascii) (s : string) :
  occurs c s = false <-> (forall x, occurs x s = true -> x <> c).
Proof.
  split.
  - intros Hc x Hx ->. congruence.
  - intros Hx. destruct (occurs c s) eqn:E; [|reflexivity].
    now destruct (Hx c E).
Qed.

(** X1. [sanitizeString] returns for strings and for nothing else.  What
    it returns holds no ['<'] at all, neither starts nor ends with white
    space, and is never longer than the input. *)
Theorem sanitizeString_strips_and_trims (input : value) :
  match input with
  | VStr s =>
      exists r,
        sanitizeString input = Ok (VStr r)
        /\ occurs "<" r = false
        /\ (forall c, first_char r = Some c -> is_white_space c = false)
        /\ (forall c, last_char r = Some c -> is_white_space c = false)
        /\ (String.length r <= String.length s)%nat
  | _ => sanitizeString input = Throw (Err "Error" "sanitizeString: input must be a string")
  end.
Proof.
  destruct input as [| | | |s| |]; try reflexivity.
  exists (trim (replace_tags 0 s)). split; [reflexivity|].
  rewrite (proj1 (replace_tags_scan s)). repeat split.
  - destruct (occurs "<" (trim (scan false s))) eqn:E; [|reflexivity].
    apply trim_occurs in E. now rewrite scan_no_lt in E.
  - apply trim_first.
  - apply trim_last.
  - eapply Nat.le_trans; [apply trim_length|apply scan_length].
Qed.

(** X2. Sanitizing is idempotent: a sanitized string is sanitized to
    itself, and an input that is refused is refused with the same error. *)
Theorem sanitizeString_idempotent (input : value) :
  (r <~ sanitizeString input ;; sanitizeString r) = sanitizeString input.
Proof.
  destruct input as [| | | |s| |]; try reflexivity.
  cbn [sanitizeString obind]. rewrite !(proj1 (replace_tags_scan _)).
  rewrite scan_plain.
  - now rewrite trim_trim.
  - destruct (occurs "<" (trim (scan false s))) eqn:E; [|reflexivity].
    apply trim_occurs in E. now rewrite scan_no_lt in E.
Qed.

(** X3. A ['<'] that no ['>'] follows takes the rest of the text with
    it: the result is that of the text before it. *)
Theorem sanitizeString_unclosed_tag (before rest : string) :
  occurs ">" rest = false ->
  sanitizeString (VStr (before ++ String "<" rest)) = sanitizeString (VStr before).
Proof.
  intros Hr. cbn [sanitizeString]. rewrite !(proj1 (replace_tags_scan _)).
  now rewrite scan_unclosed.
Qed.

(** X4. Text without ['<'] is only trimmed; a ['>'] in it stays. *)
Theorem sanitizeString_plain_text (s : string) :
  occurs "<" s = false ->
  sanitizeString (VStr s) = Ok (VStr (trim s)).
Proof.
  intros Hs. cbn [sanitizeString]. rewrite (proj1 (replace_tags_scan _)).
  now rewrite scan_plain.
Qed.

End TextFacts.

Lemma sanitizeString_unclosed_tag_witness :
  Text.sanitizeString (VStr "1 < 2 is true") = Ok (VStr "1").
Proof.
  exact (eq_trans (TextFacts.sanitizeString_unclosed_tag "1 " " 2 is true" eq_refl) eq_refl).
Defined.

Lemma sanitizeString_plain_text_witness :
  Text.sanitizeString (VStr " a > b ") = Ok (VStr "a > b").
Proof.
  exact (eq_trans (TextFacts.sanitizeString_plain_text " a > b " eq_refl) eq_refl).
Defined.

(** ** setupTimeTrigger *)

Module ScheduleFacts.
Import Schedule.

Lemma trigger_eqb_refl (t : trigger) : trigger_eqb t t = true.
Proof.
  unfold trigger_eqb. rewrite String.eqb_refl. destruct (every t); cbn; apply Z.eqb_refl.
Qed.

Lemma remove_one_middle (t : trigger) (pre rest : list trigger) :
  Forall (fun u => String.eqb (handlerFunction u) (handlerFunction t) = false) pre ->
  remove_one t (pre ++ t :: rest) = Some (pre ++ rest).
Proof.
  induction pre as [|u pre IH]; intros Hpre; cbn [remove_one app].
  - now rewrite trigger_eqb_refl.
  - apply List.Forall_cons_iff in Hpre. destruct Hpre as [Hu Hpre].
    unfold trigger_eqb at 1. rewrite String.eqb_sym, Hu. cbn [andb].
    now rewrite IH.
Qed.

Lemma unbound_from_app (h : string) (ts us : list trigger) :
  unbound_from h (ts ++ us) = unbound_from h ts ++ unbound_from h us.
Proof. unfold unbound_from. apply List.filter_app. Qed.

Lemma unbound_from_none (h : string) (ts : list trigger) :
  bound_to h (unbound_from h ts) = 0%nat.
Proof.
  unfold bound_to, unbound_from. induction ts as [|t ts IH]; [reflexivity|].
  cbn [List.filter]. destruct (String.eqb (handlerFunction t) h) eqn:E; cbn [negb]; [exact IH|].
  cbn [List.filter]. now rewrite E.
Qed.

Lemma unbound_from_others (h k : string) (ts : list trigger) :
  k <> h -> bound_to k (unbound_from h ts) = bound_to k ts.
Proof.
  intros Hk. unfold bound_to, unbound_from. induction ts as [|t ts IH]; [reflexivity|].
  cbn [List.filter]. destruct (String.eqb (handlerFunction t) h) eqn:E; cbn [negb].
  - apply String.eqb_eq in E. destruct (String.eqb (handlerFunction t) k) eqn:E'; [|exact IH].
    apply String.eqb_eq in E'. congruence.
  - cbn [List.filter]. destruct (String.eqb (handlerFunction t) k); cbn [length]; now rewrite IH.
Qed.

Section WithHost.
Context `{TriggerHost}.

(** The loop over the triggers read at the start removes exactly the
    triggers of ['fetchData']: each is still in the project when its turn
    comes. *)
Lemma delete_fetchData_runs (rest pre : list trigger) (w : world) :
  triggers w = pre ++ rest ->
  Forall (fun u => String.eqb (handlerFunction u) "fetchData" = false) pre ->
  delete_fetchData rest w
  = (Ok tt, with_triggers (pre ++ unbound_from "fetchData" rest) w).
Proof.
  revert pre w. induction rest as [|t rest IH]; intros pre w Hw Hpre.
  - cbn. rewrite app_nil_r in *. rewrite <- Hw. now destruct w.
  - cbn [delete_fetchData]. unfold bind.
    destruct (String.eqb (handlerFunction t) "fetchData") eqn:Et.
    + unfold deleteTrigger. rewrite Hw, remove_one_middle.
      * rewrite (IH pre) by (try reflexivity; exact Hpre).
        unfold unbound_from. cbn [List.filter]. rewrite Et. reflexivity.
      * apply String.eqb_eq in Et. now rewrite Et.
    + cbn [ret]. rewrite (IH (pre ++ [t])).
      * unfold unbound_from. cbn [List.filter]. rewrite Et. cbn [negb].
        now rewrite <- app_assoc.
      * now rewrite <- app_assoc.
      * apply Forall_app. split; [exact Hpre|]. now apply List.Forall_cons.
Qed.

Lemma delete_fetchData_all (w : world) :
  delete_fetchData (triggers w) w
  = (Ok tt, with_triggers (unbound_from "fetchData" (triggers w)) w).
Proof. now apply (delete_fetchData_runs (triggers w) []). Qed.

(** X5. Called with [enabled === false], [setupTimeTrigger] removes
    every trigger of ['fetchData'] and no other, and creates none,
    whatever the interval; the triggers are removed even where the
    closing dialog cannot be shown, in which case the call throws what
    [getUi] threw. *)
Theorem setupTimeTrigger_disable (intervalMinutes : value) (d : desk) :
  let r := setupTimeTrigger intervalMinutes (VBool false) d in
  book (snd r) = with_triggers (unbound_from "fetchData" (triggers (book d))) (book d)
  /\ bound_to "fetchData" (triggers (book (snd r))) = 0%nat
  /\ (forall h, h <> "fetchData" ->
        bound_to h (triggers (book (snd r))) = bound_to h (triggers (book d)))
  /\ match ui_failure d with
     | None => fst r = Ok tt /\ alerts (snd r) = alerts d ++ [ "Auto sync disabled." ]
     | Some (n, m) => fst r = Throw (Err n m) /\ alerts (snd r) = alerts d
     end.
Proof.
  cbv zeta. unfold setupTimeTrigger, dbind, on_book, getProjectTriggers.
  cbn [fst snd book with_book]. rewrite delete_fetchData_all. cbn [fst snd].
  unfold alert. cbn [ui_failure with_book book alerts].
  assert (Hb : forall r : outcome unit * desk,
             book (snd r) = with_triggers (unbound_from "fetchData" (triggers (book d))) (book d) ->
             book (snd r) = with_triggers (unbound_from "fetchData" (triggers (book d))) (book d)
             /\ bound_to "fetchData" (triggers (book (snd r))) = 0%nat
             /\ (forall h, h <> "fetchData" ->
                   bound_to h (triggers (book (snd r))) = bound_to h (triggers (book d)))).
  { intros r ->. cbn [triggers with_triggers]. split; [reflexivity|].
    split; [apply unbound_from_none|]. intros h Hh. now apply unbound_from_others. }
  destruct (ui_failure d) as [[n m]|]; cbn [fst snd book alerts];
    (destruct (Hb (Ok tt, with_book (with_triggers (unbound_from "fetchData" (triggers (book d))) (book d)) d) eq_refl)
      as (H1 & H2 & H3));
    cbn [snd with_book book] in H1, H2, H3; repeat split; assumption.
Qed.

(** With anything but [false] for [enabled]: the triggers of
    ['fetchData'] are removed, then the builder is asked for the new
    one, then the dialog is shown. *)
Lemma setupTimeTrigger_enabled (intervalMinutes enabled : value) (d : desk) :
  enabled <> VBool false ->
  let minutes := match intervalMinutes with VNum n => n | _ => 60%Z end in
  let cleared := unbound_from "fetchData" (triggers (book d)) in
  setupTimeTrigger intervalMinutes enabled d
  = if everyMinutes_accepted minutes then
      alert ("Auto sync set to every " +:+ string_of_Z minutes +:+ " minutes.")
        (with_book
           (with_triggers
              (cleared ++ [ {| handlerFunction := "fetchData"; every := EveryMinutes minutes |} ])
              (book d)) d)
    else (Throw (everyMinutes_error minutes), with_book (with_triggers cleared (book d)) d).
Proof.
  intros He minutes cleared.
  unfold setupTimeTrigger, dbind, on_book, getProjectTriggers.
  cbn [fst snd book with_book].
  destruct enabled as [| |[|]| | | |]; try (now destruct He);
    rewrite delete_fetchData_all; cbn [fst snd book with_book];
    unfold create_everyMinutes; fold minutes; fold cleared;
    destruct (everyMinutes_accepted minutes); reflexivity.
Qed.

(** The triggers after a call that set an interval. *)
Lemma setupTimeTrigger_triggers (intervalMinutes enabled : value) (d : desk) :
  enabled <> VBool false ->
  let minutes := match intervalMinutes with VNum n => n | _ => 60%Z end in
  everyMinutes_accepted minutes = true ->
  triggers (book (snd (setupTimeTrigger intervalMinutes enabled d)))
  = unbound_from "fetchData" (triggers (book d))
    ++ [ {| handlerFunction := "fetchData"; every := EveryMinutes minutes |} ].
Proof.
  intros He minutes Hacc. rewrite setupTimeTrigger_enabled by exact He.
  fold minutes. rewrite Hacc. unfold alert. cbn [ui_failure with_book].
  destruct (ui_failure d) as [[n m]|]; reflexivity.
Qed.

(** X6. Called with anything but [false] for [enabled] and an interval
    the trigger builder accepts, [setupTimeTrigger] replaces the triggers
    of ['fetchData'], however many there were, by one that fires every
    [minutes] minutes -- the argument when it is a number, 60 otherwise --
    and leaves the triggers of other handlers as they were. *)
Theorem setupTimeTrigger_replaces (intervalMinutes enabled : value) (d : desk) :
  enabled <> VBool false ->
  let minutes := match intervalMinutes with VNum n => n | _ => 60%Z end in
  everyMinutes_accepted minutes = true ->
  let r := setupTimeTrigger intervalMinutes enabled d in
  triggers (book (snd r))
  = unbound_from "fetchData" (triggers (book d))
    ++ [ {| handlerFunction := "fetchData"; every := EveryMinutes minutes |} ]
  /\ bound_to "fetchData" (triggers (book (snd r))) = 1%nat
  /\ (forall h, h <> "fetchData" ->
        bound_to h (triggers (book (snd r))) = bound_to h (triggers (book d)))
  /\ match ui_failure d with
     | None =>
         fst r = Ok tt
         /\ alerts (snd r)
            = alerts d ++ [ "Auto sync set to every " +:+ string_of_Z minutes +:+ " minutes." ]
     | Some (n, m) => fst r = Throw (Err n m) /\ alerts (snd r) = alerts d
     end.
Proof.
  intros He minutes Hacc. cbv zeta.
  rewrite setupTimeTrigger_enabled by exact He. fold minutes. rewrite Hacc.
  unfold alert. cbn [ui_failure with_book book alerts].
  assert (Hc : bound_to "fetchData"
                 (unbound_from "fetchData" (triggers (book d))
                  ++ [ {| handlerFunction := "fetchData"; every := EveryMinutes minutes |} ])
               = 1%nat).
  { rewrite bound_to_app, unbound_from_none. reflexivity. }
  assert (Ho : forall h, h <> "fetchData" ->
                 bound_to h
                   (unbound_from "fetchData" (triggers (book d))
                    ++ [ {| handlerFunction := "fetchData"; every := EveryMinutes minutes |} ])
                 = bound_to h (triggers (book d))).
  { intros h Hh. rewrite bound_to_app, unbound_from_others by exact Hh.
    unfold bound_to at 2. cbn [List.filter handlerFunction].
    destruct (String.eqb "fetchData" h) eqn:E; [apply String.eqb_eq in E; congruence|].
    cbn. lia. }
  destruct (ui_failure d) as [[n m]|]; cbn [fst snd book with_book triggers with_triggers alerts];
    repeat split; try assumption; try reflexivity.
Qed.

(** X7. When the trigger builder refuses the interval, the triggers of
    ['fetchData'] are already gone: the call throws the builder's error
    and leaves the project without any automatic sync, and without a
    dialog. *)
Theorem setupTimeTrigger_refused_interval (intervalMinutes enabled : value) (d : desk) :
  enabled <> VBool false ->
  let minutes := match intervalMinutes with VNum n => n | _ => 60%Z end in
  everyMinutes_accepted minutes = false ->
  let r := setupTimeTrigger intervalMinutes enabled d in
  fst r = Throw (everyMinutes_error minutes)
  /\ triggers (book (snd r)) = unbound_from "fetchData" (triggers (book d))
  /\ bound_to "fetchData" (triggers (book (snd r))) = 0%nat
  /\ alerts (snd r) = alerts d.
Proof.
  intros He minutes Hacc. cbv zeta.
  rewrite setupTimeTrigger_enabled by exact He. fold minutes. rewrite Hacc.
  cbn [fst snd book with_book triggers with_triggers alerts].
  repeat split. apply unbound_from_none.
Qed.

(** X8. The two schedulers do not pile up triggers.  After
    [setupTimeTrigger] has set an interval, [setupTriggers] (the step at
    the end of [fetchData]) changes nothing; and a trigger that
    [setupTriggers] created is replaced by the next [setupTimeTrigger],
    which ends with the same triggers as if [setupTriggers] had not
    run. *)
Theorem setupTimeTrigger_absorbs_setupTriggers (intervalMinutes enabled : value) (d : desk) :
  enabled <> VBool false ->
  everyMinutes_accepted (match intervalMinutes with VNum n => n | _ => 60%Z end) = true ->
  let after := book (snd (setupTimeTrigger intervalMinutes enabled d)) in
  Code.setupTriggers after = (Ok tt, after)
  /\ triggers (book (snd (setupTimeTrigger intervalMinutes enabled
                            (with_book (snd (Code.setupTriggers (book d))) d))))
     = triggers after.
Proof.
  intros He Hacc. cbv zeta.
  pose proof (setupTimeTrigger_triggers intervalMinutes enabled d He Hacc) as Ht.
  pose proof (setupTimeTrigger_triggers intervalMinutes enabled
                (with_book (snd (Code.setupTriggers (book d))) d) He Hacc) as Ht'.
  cbv zeta in Ht, Ht'. split.
  - unfold Code.setupTriggers. rewrite Ht, existsb_app. cbn. now rewrite orb_true_r.
  - rewrite Ht, Ht'. f_equal. cbn [book with_book]. unfold Code.setupTriggers.
    destruct (existsb (fun t => String.eqb (handlerFunction t) "fetchData")
                (triggers (book d))); cbn [negb snd]; [reflexivity|].
    cbn [triggers with_triggers]. rewrite unbound_from_app. cbn. apply app_nil_r.
Qed.

End WithHost.

End ScheduleFacts.

Lemma setupTimeTrigger_replaces_witness :
  triggers (book (snd (@Schedule.setupTimeTrigger Sample2.trigger_host (VNum 15) VUndefined
                         Sample2.desk0)))
  = [ {| handlerFunction := "cleanUp"; every := EveryHours 24 |};
      {| handlerFunction := "fetchData"; every := EveryMinutes 15 |} ].
Proof.
  refine (proj1 (@ScheduleFacts.setupTimeTrigger_replaces Sample2.trigger_host
                   (VNum 15) VUndefined Sample2.desk0 _ eq_refl)).
  discriminate.
Defined.

(** The menu item runs [setupTimeTrigger] without arguments. *)
Lemma setupTimeTrigger_refused_interval_witness :
  bound_to "fetchData"
    (triggers (book (snd (@Schedule.setupTimeTrigger Sample2.trigger_host VUndefined VUndefined
                            Sample2.desk0))))
  = 0%nat.
Proof.
  refine (proj1 (proj2 (proj2 (@ScheduleFacts.setupTimeTrigger_refused_interval
                   Sample2.trigger_host VUndefined VUndefined Sample2.desk0 _ eq_refl)))).
  discriminate.
Defined.

Lemma setupTimeTrigger_absorbs_setupTriggers_witness :
  let after := book (snd (@Schedule.setupTimeTrigger Sample2.trigger_host (VNum 5) (VBool true)
                            Sample2.desk0)) in
  Code.setupTriggers after = (Ok tt, after).
Proof.
  refine (proj1 (@ScheduleFacts.setupTimeTrigger_absorbs_setupTriggers Sample2.trigger_host
                   (VNum 5) (VBool true) Sample2.desk0 _ eq_refl)).
  discriminate.
Defined.

(** ** callApi and the log helpers, beyond the status check *)

Section CallApiMore.
Context `{Host}.

(** What [callApi] does when the transport itself fails. *)
Lemma callApi_after_failure (u : string) (options : value) (w : world)
  (n m : string) :
  u <> "" ->
  let opts := if truthy options then options else VObj [] in
  let rq := {| req_url := VStr u; req_params := UtilityService.fetchOptions opts |} in
  transport w (length (requests w)) rq = Fails n m ->
  let w1 := with_requests (requests w ++ [rq]) (with_clock_reads (S (clock_reads w)) w) in
  UtilityService.callApi (VStr u) options w
  = (Throw (Err "Error" ("callApi: request failed for " +:+ u +:+ " - " +:+ m)),
     snd (UtilityService.logError (Err n m) w1)).
Proof.
  intros Hu opts rq Ht w1.
  unfold UtilityService.callApi.
  destruct (String.eqb u "") eqn:Eu.
  { apply String.eqb_eq in Eu. contradiction. }
  fold opts.
  unfold bind at 1. unfold now at 1. unfold bind at 1. unfold try_catch at 1.
  unfold UrlFetchApp_fetch at 1.
  cbn [transport requests with_clock_reads with_requests].
  fold rq. rewrite Ht.
  destruct (logError_runs (Err n m) w1) as (w2 & El & _).
  unfold bind at 1. fold w1. rewrite El. cbn [snd]. reflexivity.
Qed.

(** What [logError] does with an [Error]. *)
Lemma logError_Err (n m : string) (w : world) :
  UtilityService.logError (Err n m) w
  = (Ok tt,
     match toast_failure w with
     | Some (_, tm) =>
         with_logger (logger w ++ [ "ERROR: " +:+ m; "PetSync error toast failed: " +:+ tm ]) w
     | None =>
         with_toasts (toasts w ++ [ (VStr m, "PetSync Error") ])
           (with_logger (logger w ++ [ "ERROR: " +:+ m ]) w)
     end).
Proof.
  unfold UtilityService.logError, bind, lift, Logger_log, try_catch, toast.
  cbn [ToString to_string toast_failure with_logger].
  destruct (toast_failure w) as [[tn tm]|]; cbn; [now rewrite <- app_assoc|reflexivity].
Qed.

(** X9. A call whose URL is a non-empty string makes exactly one
    request, with [muteHttpExceptions] set, whatever comes of it
    (nothing is retried); any other call makes none.  No call touches a
    sheet or a trigger. *)
Theorem callApi_single_attempt (url options : value) (w : world) :
  let r := UtilityService.callApi url options w in
  let opts := if truthy options then options else VObj [] in
  requests (snd r)
  = requests w
    ++ match url with
       | VStr u =>
           if String.eqb u "" then []
           else [ {| req_url := url; req_params := UtilityService.fetchOptions opts |} ]
       | _ => []
       end
  /\ get (UtilityService.fetchOptions opts) "muteHttpExceptions" = VBool true
  /\ sheets (snd r) = sheets w
  /\ sheet_calls (snd r) = sheet_calls w
  /\ triggers (snd r) = triggers w.
Proof.
  cbv zeta. split; [|split; [reflexivity|]].
  - destruct url as [| | | |u| |]; try (cbn; now rewrite app_nil_r).
    destruct (String.eqb u "") eqn:Eu.
    + apply String.eqb_eq in Eu. subst u. rewrite callApi_empty_url. cbn. now rewrite app_nil_r.
    + assert (Hu : u <> "") by (intros ->; discriminate Eu).
      set (opts := if truthy options then options else VObj []).
      set (rq := {| req_url := VStr u; req_params := UtilityService.fetchOptions opts |}).
      destruct (transport w (length (requests w)) rq) as [code body|n m] eqn:Et.
      * rewrite (callApi_after_response u options w code body Hu Et).
        destruct ((code <? 200)%Z || (300 <=? code)%Z); [reflexivity|].
        destruct (JSON_parse body); reflexivity.
      * rewrite (callApi_after_failure u options w n m Hu Et). fold opts. fold rq.
        destruct (logError_runs (Err n m)
                    (with_requests (requests w ++ [rq])
                       (with_clock_reads (S (clock_reads w)) w))) as (w2 & El & _ & Hr & _).
        rewrite El. cbn [snd]. exact Hr.
  - destruct url as [| | | |u| |]; try (cbn; repeat split; reflexivity).
    destruct (String.eqb u "") eqn:Eu.
    + apply String.eqb_eq in Eu. subst u. rewrite callApi_empty_url. repeat split; reflexivity.
    + assert (Hu : u <> "") by (intros ->; discriminate Eu).
      set (opts := if truthy options then options else VObj []).
      set (rq := {| req_url := VStr u; req_params := UtilityService.fetchOptions opts |}).
      destruct (transport w (length (requests w)) rq) as [code body|n m] eqn:Et.
      * rewrite (callApi_after_response u options w code body Hu Et).
        destruct ((code <? 200)%Z || (300 <=? code)%Z); [repeat split; reflexivity|].
        destruct (JSON_parse body); repeat split; reflexivity.
      * rewrite (callApi_after_failure u options w n m Hu Et). fold opts. fold rq.
        destruct (logError_runs (Err n m)
                    (with_requests (requests w ++ [rq])
                       (with_clock_reads (S (clock_reads w)) w)))
          as (w2 & El & [Hs Hc] & _ & Ht & _).
        rewrite El. cbn [snd]. repeat split; assumption.
Qed.

(** X10. Whatever [callApi] throws is an [Error] whose message starts
    with ['callApi: ']: a transport failure, an HTTP status and a body
    that is not JSON are all reported in the function's own words, and
    no run leaves the fragment. *)
Theorem callApi_errors_are_wrapped (url options : value) (w : world) :
  match fst (UtilityService.callApi url options w) with
  | Ok _ => True
  | Throw t => exists msg, t = Err "Error" ("callApi: " +:+ msg)
  | OutOfFragment => False
  end.
Proof.
  destruct url as [| | | |u| |]; try (cbn; eexists; reflexivity).
  destruct (String.eqb u "") eqn:Eu.
  - apply String.eqb_eq in Eu. subst u. rewrite callApi_empty_url. cbn. eexists. reflexivity.
  - assert (Hu : u <> "") by (intros ->; discriminate Eu).
    set (opts := if truthy options then options else VObj []).
    set (rq := {| req_url := VStr u; req_params := UtilityService.fetchOptions opts |}).
    destruct (transport w (length (requests w)) rq) as [code body|n m] eqn:Et.
    + rewrite (callApi_after_response u options w code body Hu Et).
      destruct ((code <? 200)%Z || (300 <=? code)%Z); [cbn; eexists; reflexivity|].
      destruct (JSON_parse body); [exact I|cbn; eexists; reflexivity].
    + rewrite (callApi_after_failure u options w n m Hu Et). cbn. eexists. reflexivity.
Qed.

(** X11. When the transport fails, [callApi] logs the original error
    with [logError], reads the clock no second time and logs no timing
    line, and throws an error naming the URL and carrying the original
    message; the request was attempted once. *)
Theorem callApi_transport_failure (u : string) (options : value) (w : world)
  (n m : string) :
  u <> "" ->
  let opts := if truthy options then options else VObj [] in
  let rq := {| req_url := VStr u; req_params := UtilityService.fetchOptions opts |} in
  transport w (length (requests w)) rq = Fails n m ->
  let r := UtilityService.callApi (VStr u) options w in
  fst r = Throw (Err "Error" ("callApi: request failed for " +:+ u +:+ " - " +:+ m))
  /\ requests (snd r) = requests w ++ [rq]
  /\ clock_reads (snd r) = S (clock_reads w)
  /\ logger (snd r)
     = logger w ++ ("ERROR: " +:+ m)
         :: match toast_failure w with
            | Some (_, tm) => [ "PetSync error toast failed: " +:+ tm ]
            | None => []
            end.
Proof.
  intros Hu opts rq Ht. cbv zeta.
  rewrite (callApi_after_failure u options w n m Hu Ht). fold opts. fold rq.
  cbn [fst snd]. split; [reflexivity|].
  rewrite logError_Err. cbn [toast_failure with_requests with_clock_reads].
  destruct (toast_failure w) as [[tn tm]|]; repeat split; reflexivity.
Qed.

(** X12. A toast that fails is never fatal to the log helpers: with a
    spreadsheet that refuses toasts, [logSuccess] of a string and
    [logError] of anything still return, having logged their line and,
    after it, the reason the toast failed; [logSuccess] of anything but a
    string throws before it logs. *)
Theorem log_helpers_survive_toast_failure (w : world) (tn tm : string) :
  toast_failure w = Some (tn, tm) ->
  (forall s,
      UtilityService.logSuccess (VStr s) w
      = (Ok tt, with_logger (logger w ++ [ "SUCCESS: " +:+ s;
                                           "PetSync toast failed: " +:+ tm ]) w))
  /\ (forall e,
        UtilityService.logError e w
        = (Ok tt, with_logger (logger w ++ [ "ERROR: " +:+ error_text e;
                                             "PetSync error toast failed: " +:+ tm ]) w))
  /\ (forall v, typeof v <> "string" ->
        UtilityService.logSuccess v w
        = (Throw (Err "Error" "logSuccess: message must be a string"), w)).
Proof.
  intros Ht. split; [|split].
  - intros s. unfold UtilityService.logSuccess, bind, Logger_log, try_catch, toast.
    cbn [toast_failure with_logger]. rewrite Ht. cbn. now rewrite <- app_assoc.
  - intros e. unfold UtilityService.logError, error_text.
    assert (Hrun : forall msg t, ToString msg = Ok t ->
              (t <- lift (ToString msg) ;;
               _ <- Logger_log ("ERROR: " +:+ t) ;;
               try_catch (toast msg "PetSync Error")
                 (fun e0 =>
                    m <- lift (message_of e0) ;;
                    t0 <- lift (ToString m) ;;
                    Logger_log ("PetSync error toast failed: " +:+ t0))) w
              = (Ok tt, with_logger (logger w ++ [ "ERROR: " +:+ t;
                                                   "PetSync error toast failed: " +:+ tm ]) w)).
    { intros msg t Hm. unfold bind, lift, Logger_log, try_catch, toast. rewrite Hm.
      cbn [toast_failure with_logger]. rewrite Ht. cbn. now rewrite <- app_assoc. }
    destruct e as [en em|v]; [now apply Hrun|].
    destruct v; try (destruct (JSON_stringify _); now apply Hrun); now apply Hrun.
  - intros v Hv. destruct v; try reflexivity. now destruct Hv.
Qed.

End CallApiMore.

Lemma callApi_transport_failure_witness :
  fst (@UtilityService.callApi Sample.host (VStr "https://api.example.com/petsync/pets")
         VUndefined Sample2.offline)
  = Throw (Err "Error" "callApi: request failed for https://api.example.com/petsync/pets - Address unavailable").
Proof.
  refine (proj1 (@callApi_transport_failure Sample.host "https://api.example.com/petsync/pets"
                   VUndefined Sample2.offline "Exception" "Address unavailable" _ eq_refl)).
  discriminate.
Defined.

Lemma log_helpers_survive_toast_failure_witness :
  @UtilityService.logError Sample.host (Err "Error" "boom") Sample2.offline
  = (Ok tt, with_logger [ "ERROR: boom"; "PetSync error toast failed: No active spreadsheet" ]
              Sample2.offline).
Proof.
  exact (proj1 (proj2 (@log_helpers_survive_toast_failure Sample.host Sample2.offline
                         "Exception" "No active spreadsheet" eq_refl))
           (Err "Error" "boom")).
Defined.

(** ** writeData: what is written, and where *)




Section WriteDataMore.
Context `{Host}.






End WriteDataMore.




(** ** fetchData: how far a run gets *)

Section FetchDataMore.
Context `{Host}.

(** The callback leaves the world as it was or with one more request. *)
Lemma fetchEndpoint_world (config : value) (allData : list value) (endpoint : value)
  (w : world) :
  snd (Code.fetchEndpoint config allData endpoint w) = w
  \/ exists rq, snd (Code.fetchEndpoint config allData endpoint w)
                = with_requests (requests w ++ [rq]) w.
Proof.
  unfold Code.fetchEndpoint, bind, lift.
  destruct (Code.js_add (get config "apiUrl") endpoint) as [url| |]; try (left; reflexivity).
  destruct (Code.js_add (VStr "Bearer ") (get config "apiKey")) as [auth| |];
    try (left; reflexivity).
  right. eexists. unfold UrlFetchApp_fetch.
  destruct (transport w _ _) as [code body|n m]; [|reflexivity].
  cbn [getContentText].
  destruct (JSON_parse body) as [json|]; [|reflexivity].
  cbn [ret throw].
  destruct (validateResponse_without_keys json) as [msg ->]. reflexivity.
Qed.

(** The loop stops in its first round. *)
Lemma forEachEndpoint_world (config : value) (endpoints allData : list value) (w : world) :
  snd (Code.forEachEndpoint config endpoints allData w) = w
  \/ exists rq, snd (Code.forEachEndpoint config endpoints allData w)
                = with_requests (requests w ++ [rq]) w.
Proof.
  destruct endpoints as [|endpoint rest]; [left; reflexivity|].
  cbn [Code.forEachEndpoint]. unfold bind.
  pose proof (fetchEndpoint_never_ok config allData endpoint w) as Hn.
  pose proof (fetchEndpoint_world config allData endpoint w) as Hw.
  destruct (Code.fetchEndpoint config allData endpoint w) as [[a|t|] w1];
    [discriminate Hn | exact Hw | exact Hw].
Qed.

(** The toast of [logError], when one is shown, is the error toast. *)
Lemma logError_world (e : thrown) (w : world) :
  exists w',
    UtilityService.logError e w = (Ok tt, w')
    /\ requests w' = requests w /\ triggers w' = triggers w
    /\ sheets w' = sheets w /\ sheet_calls w' = sheet_calls w
    /\ (toasts w' = toasts w
        \/ exists msg, toasts w' = toasts w ++ [ (msg, "PetSync Error") ]).
Proof.
  unfold UtilityService.logError.
  assert (Hrun : forall msg t, ToString msg = Ok t ->
            exists w',
              (t <- lift (ToString msg) ;;
               _ <- Logger_log ("ERROR: " +:+ t) ;;
               try_catch (toast msg "PetSync Error")
                 (fun e0 =>
                    m <- lift (message_of e0) ;;
                    t0 <- lift (ToString m) ;;
                    Logger_log ("PetSync error toast failed: " +:+ t0))) w
              = (Ok tt, w')
              /\ requests w' = requests w /\ triggers w' = triggers w
              /\ sheets w' = sheets w /\ sheet_calls w' = sheet_calls w
              /\ (toasts w' = toasts w
                  \/ exists msg, toasts w' = toasts w ++ [ (msg, "PetSync Error") ])).
  { intros msg t Hm. unfold bind, lift, Logger_log, try_catch, toast. rewrite Hm.
    cbn [toast_failure with_logger].
    destruct (toast_failure w) as [[tn tm]|]; cbn; eexists; (split; [reflexivity|]);
      cbn; repeat split; eauto. }
  destruct e as [en em|v]; [eapply Hrun; reflexivity|].
  destruct v; try (destruct (JSON_stringify _); eapply Hrun; reflexivity);
    eapply Hrun; reflexivity.
Qed.

(** X16. No run of [fetchData] completes, whatever configuration it is
    handed: the run ends in the first round of the endpoint loop at the
    latest.  So it makes one request at most, never writes a sheet,
    never reaches [setupTriggers] (the triggers stay as they were) and
    never shows the success toast -- at most the error toast. *)
Theorem fetchData_stops_at_first_endpoint (api ranges : M value) (w : world) :
  let w0 := snd (api w) in
  let r := Code.fetchData api ranges w in
  is_ok (fst r) = false
  /\ (requests (snd r) = requests w0 \/ exists rq, requests (snd r) = requests w0 ++ [rq])
  /\ triggers (snd r) = triggers w0
  /\ sheets (snd r) = sheets w0
  /\ sheet_calls (snd r) = sheet_calls w0
  /\ (toasts (snd r) = toasts w0
      \/ exists msg, toasts (snd r) = toasts w0 ++ [ (msg, "PetSync Error") ]).
Proof.
  cbv zeta. split; [apply fetchData_never_ok|].
  (* the world the [try] block ends in *)
  assert (Htry : exists o w1,
             Code.fetchData_try api ranges w = (o, w1)
             /\ is_ok o = false
             /\ (w1 = snd (api w)
                 \/ exists rq, w1 = with_requests (requests (snd (api w)) ++ [rq])
                                      (snd (api w)))).
  { unfold Code.fetchData_try. unfold bind at 1.
    destruct (api w) as [[config|t|] w0]; cbn [snd];
      try (do 2 eexists; split; [reflexivity|]; split; [reflexivity|left; reflexivity]).
    destruct (negb (truthy config) || negb (truthy (get config "apiUrl"))
              || negb (isArray (get config "endpoints"))) eqn:Eg.
    { do 2 eexists. split; [reflexivity|]. split; [reflexivity|left; reflexivity]. }
    apply orb_false_iff in Eg. destruct Eg as [_ Eg]. apply negb_false_iff in Eg.
    destruct (get config "endpoints") as [| | | | |endpoints|]; try discriminate Eg.
    unfold bind at 1.
    destruct endpoints as [|endpoint rest].
    - cbn [Code.forEachEndpoint ret]. unfold bind at 1. cbn [Code.writeData throw].
      do 2 eexists. split; [reflexivity|]. split; [reflexivity|left; reflexivity].
    - pose proof (forEachEndpoint_never_ok config (endpoint :: rest) [] w0) as Hn.
      pose proof (forEachEndpoint_world config (endpoint :: rest) [] w0) as Hw.
      destruct (Code.forEachEndpoint config (endpoint :: rest) [] w0) as [[acc|t|] w1];
        cbn [fst snd] in Hn, Hw.
      + discriminate Hn. congruence.
      + do 2 eexists. split; [reflexivity|]. split; [reflexivity|].
        destruct Hw as [->|[rq ->]]; eauto.
      + do 2 eexists. split; [reflexivity|]. split; [reflexivity|].
        destruct Hw as [->|[rq ->]]; eauto. }
  destruct Htry as (o & w1 & Et & Ho & Hw1).
  assert (Hsame : triggers w1 = triggers (snd (api w))
                  /\ sheets w1 = sheets (snd (api w))
                  /\ sheet_calls w1 = sheet_calls (snd (api w))
                  /\ toasts w1 = toasts (snd (api w))
                  /\ (requests w1 = requests (snd (api w))
                      \/ exists rq, requests w1 = requests (snd (api w)) ++ [rq])).
  { destruct Hw1 as [->|[rq ->]]; cbn; repeat split; eauto. }
  destruct Hsame as (Ht & Hs & Hc & Hto & Hr).
  unfold Code.fetchData, try_catch. rewrite Et.
  destruct o as [a|t|]; [discriminate Ho| |].
  - destruct (logError_world t w1) as (w2 & El & Hr2 & Ht2 & Hs2 & Hc2 & Hto2).
    rewrite (bind_ok _ _ _ _ _ El). cbn [throw snd].
    rewrite Hr2, Ht2, Hs2, Hc2. repeat split; try assumption.
    rewrite <- Hto. exact Hto2.
  - cbn [snd]. repeat split; try assumption. left. exact Hto.
Qed.

End FetchDataMore.

(** ** From the property stores to the configuration *)

Lemma set_prop_string (m : list (string * value)) (k s : string) :
  exists m', set_prop (VObj m) k (VStr s) = Ok (VObj m').
Proof.
  unfold set_prop. destruct (has_own m k); [eauto|].
  destruct (String.eqb k "__proto__"); eauto.
Qed.

(** [set_prop] keeps a property of the entries that the new entry has. *)
Lemma set_prop_entries (Q : string * value -> Prop) (m m' : list (string * value))
  (k : string) (v : value) :
  set_prop (VObj m) k v = Ok (VObj m') ->
  Q (k, v) -> Forall Q m -> Forall Q m'.
Proof.
  unfold set_prop. intros E Hq Hm. destruct (has_own m k).
  - injection E as <-. clear -Hq Hm. induction m as [|[k' v'] m IH]; [constructor|].
    apply List.Forall_cons_iff in Hm. destruct Hm as [Hh Hm]. cbn [replace_own].
    destruct (String.eqb k k') eqn:Ek.
    + apply String.eqb_eq in Ek. subst k'. now apply List.Forall_cons.
    + apply List.Forall_cons; [exact Hh|now apply IH].
  - destruct (String.eqb k "__proto__").
    + destruct v; try discriminate E; now injection E as <-.
    + injection E as <-. apply Forall_app. split; [exact Hm|].
      now apply List.Forall_cons.
Qed.

(** [Object.assign] of a store onto an object. *)
Lemma assign_properties (es : list (string * string)) (m : list (string * value)) :
  exists m',
    Config.assign_entries (VObj m) (map (fun '(k, s) => (k, VStr s)) es) = Ok (VObj m')
    /\ (NoDup (map fst m) -> NoDup (map fst m'))
    /\ (Forall (fun e => exists s, snd e = VStr s) m ->
        Forall (fun e => exists s, snd e = VStr s) m')
    /\ forall key, key <> "__proto__" ->
         lookup_own m' key
         = match stored es key with
           | Some v => Some (VStr v)
           | None => lookup_own m key
           end.
Proof.
  revert m. induction es as [|[k v] es IH]; intros m.
  - exists m. cbn. repeat split; auto.
  - cbn [map Config.assign_entries].
    destruct (set_prop_string m k v) as [m1 E1]. rewrite E1. cbn [obind].
    destruct (set_prop_effect m k (VStr v) (VObj m1) E1)
      as (m1' & Hm1 & Hother & Hsame & Hnd & Hall).
    injection Hm1 as <-.
    destruct (IH m1) as (m' & E' & Hnd' & Hall' & Hl').
    exists m'. split; [exact E'|]. split; [auto|]. split.
    + intros Hm. apply Hall'. apply (Hall (fun x => exists s, x = VStr s)); eauto.
    + intros key Hkey. rewrite (Hl' key Hkey). cbn [stored].
      destruct (stored es key); [reflexivity|].
      destruct (String.eqb key k) eqn:Ek.
      * apply String.eqb_eq in Ek. subst k.
        destruct Hsame as [Hs|[Hp _]]; [exact Hs|contradiction].
      * apply Hother. intros ->. now rewrite String.eqb_refl in Ek.
Qed.

(** The properties [loadOverrides] goes through: each key once, each
    value a string, the user's value before the script's. *)
Lemma all_properties_spec (script user : list (string * string)) :
  exists ps,
    Config.all_properties script user = Ok (VObj ps)
    /\ NoDup (map fst ps)
    /\ Forall (fun e => exists s, snd e = VStr s) ps
    /\ forall key, key <> "__proto__" ->
         lookup_own ps key = option_map VStr (property script user key).
Proof.
  unfold Config.all_properties, Config.object_assign, Config.properties_object.
  cbn [own_entries].
  destruct (assign_properties script []) as (a & Ea & Hnd & Hall & Hl).
  rewrite Ea. cbn [obind].
  destruct (assign_properties user a) as (ps & Eps & Hnd' & Hall' & Hl').
  exists ps. split; [exact Eps|]. split; [apply Hnd', Hnd; constructor|].
  split; [apply Hall', Hall; constructor|].
  intros key Hkey. rewrite (Hl' key Hkey). unfold property.
  destruct (stored user key); [reflexivity|].
  rewrite (Hl key Hkey). cbn [lookup_own]. now destruct (stored script key).
Qed.

(** A [case] of the [switch] that copies the property into [field]. *)
Ltac sets_field Ek Hset field :=
  let E := fresh "E" in
  let o1 := fresh "o1" in
  let Hs := fresh "Hs" in
  let Ho := fresh "Ho" in
  let Hin := fresh "Hin" in
  apply String.eqb_eq in Ek; subst; intros E;
  destruct (Hset field _ ltac:(discriminate) ltac:(eauto) E) as (o1 & -> & ? & ? & Hs & Ho);
  exists o1; repeat split; try assumption;
  [ intros ? ? Hin; cbn in Hin;
    repeat (destruct Hin as [Hin|Hin];
            [injection Hin as <- <-; cbn; first [exact Hs | apply Ho; discriminate]|]);
    destruct Hin
  | cbn; apply Ho; discriminate ].

Section Settings.
Context `{Host}.

(** One round of the [switch]. *)
Lemma override_entry_spec (o : list (string * value)) (k sv : string) (r : value) :
  NoDup (map fst o) ->
  Forall (fun e => fst e = "endpoints" \/ exists s, snd e = VStr s) o ->
  Config.override_entry (VObj o) k (VStr sv) = Ok r ->
  exists o1,
    r = VObj o1
    /\ NoDup (map fst o1)
    /\ Forall (fun e => fst e = "endpoints" \/ exists s, snd e = VStr s) o1
    /\ (forall key field, In (key, field) settings ->
          lookup_own o1 field
          = if String.eqb key k then Some (VStr sv) else lookup_own o field)
    /\ (if String.eqb k "ENDPOINTS"
        then exists v, JSON_parse sv = Some v /\ lookup_own o1 "endpoints" = Some v
        else lookup_own o1 "endpoints" = lookup_own o "endpoints").
Proof.
  intros Hnd Hall. unfold Config.override_entry.
  assert (Hset : forall f v,
             f <> "__proto__" ->
             (f = "endpoints" \/ exists s, v = VStr s) ->
             set_prop (VObj o) f v = Ok r ->
             exists o1,
               r = VObj o1
               /\ NoDup (map fst o1)
               /\ Forall (fun e => fst e = "endpoints" \/ exists s, snd e = VStr s) o1
               /\ lookup_own o1 f = Some v
               /\ forall f', f' <> f -> lookup_own o1 f' = lookup_own o f').
  { intros f v Hf Hv E.
    destruct (set_prop_effect o f v r E) as (o1 & -> & Hother & Hsame & Hnd1 & _).
    exists o1. split; [reflexivity|]. split; [auto|]. split.
    - apply (set_prop_entries _ o o1 f v E); [exact Hv|exact Hall].
    - split; [|exact Hother]. destruct Hsame as [Hs|[Hp _]]; [exact Hs|contradiction]. }
  destruct (String.eqb k "API_URL") eqn:E1; [sets_field E1 Hset "apiUrl"|].
  destruct (String.eqb k "API_KEY") eqn:E2; [sets_field E2 Hset "apiKey"|].
  destruct (String.eqb k "ENDPOINTS") eqn:E3.
  { apply String.eqb_eq in E3. subst k. cbn [ToString to_string obind].
    destruct (JSON_parse sv) as [v|] eqn:Ep; [|discriminate]. intros E.
    destruct (Hset "endpoints" v ltac:(discriminate) ltac:(eauto) E)
      as (o1 & -> & Hnd1 & Hall1 & Hs & Ho).
    exists o1. repeat split; try assumption.
    - intros key field Hin. cbn in Hin.
      repeat (destruct Hin as [Hin|Hin]; [injection Hin as <- <-; cbn;
                                          apply Ho; discriminate|]).
      destruct Hin.
    - exists v. split; [reflexivity|exact Hs]. }
  destruct (String.eqb k "SHEET_NAME") eqn:E4; [sets_field E4 Hset "sheetName"|].
  destruct (String.eqb k "FULL_REFRESH_RANGE") eqn:E5;
    [sets_field E5 Hset "fullRefreshRange"|].
  destruct (String.eqb k "INCREMENTAL_REFRESH_RANGE") eqn:E6;
    [sets_field E6 Hset "incrementalRefreshRange"|].
  destruct (String.eqb k "TRIGGER_NAME") eqn:E7; [sets_field E7 Hset "triggerName"|].
  intros E. injection E as <-. exists o. repeat split; try assumption.
  intros key field Hin. cbn in Hin.
  repeat (destruct Hin as [Hin|Hin];
          [injection Hin as <- <-; rewrite String.eqb_sym;
           first [now rewrite E1 | now rewrite E2 | now rewrite E4 | now rewrite E5
                 | now rewrite E6 | now rewrite E7]|]).
  destruct Hin.
Qed.

(** The whole loop, over properties that are strings and name each key
    once. *)
Lemma override_entries_spec (es o : list (string * value)) (r : value) :
  NoDup (map fst es) ->
  Forall (fun e => exists s, snd e = VStr s) es ->
  NoDup (map fst o) ->
  Forall (fun e => fst e = "endpoints" \/ exists s, snd e = VStr s) o ->
  Config.override_entries (VObj o) es = Ok r ->
  exists o',
    r = VObj o'
    /\ NoDup (map fst o')
    /\ Forall (fun e => fst e = "endpoints" \/ exists s, snd e = VStr s) o'
    /\ (forall key field, In (key, field) settings ->
          lookup_own o' field
          = match lookup_own es key with
            | Some v => Some v
            | None => lookup_own o field
            end)
    /\ match lookup_own es "ENDPOINTS" with
       | Some v =>
           exists s e, v = VStr s /\ JSON_parse s = Some e
                       /\ lookup_own o' "endpoints" = Some e
       | None => lookup_own o' "endpoints" = lookup_own o "endpoints"
       end.
Proof.
  revert o. induction es as [|[k v] es IH]; intros o Hes Hstr Hnd Hall E.
  - cbn in E. injection E as <-. exists o. repeat split; auto.
  - cbn [Config.override_entries] in E.
    apply List.Forall_cons_iff in Hstr. destruct Hstr as [[sv Hv] Hstr].
    cbn [snd] in Hv. subst v.
    cbn [map fst] in Hes. apply NoDup_cons in Hes. destruct Hes as [Hk Hes].
    destruct (Config.override_entry (VObj o) k (VStr sv)) as [r1| |] eqn:E1;
      cbn [obind] in E; try discriminate E.
    destruct (override_entry_spec o k sv r1 Hnd Hall E1)
      as (o1 & -> & Hnd1 & Hall1 & Hs1 & He1).
    destruct (IH o1 Hes Hstr Hnd1 Hall1 E) as (o' & -> & Hnd' & Hall' & Hs' & He').
    assert (Hfresh : forall key, String.eqb key k = true -> lookup_own es key = None).
    { intros key Ek. apply String.eqb_eq in Ek. subst key.
      destruct (lookup_own es k) as [x|] eqn:El; [|reflexivity].
      apply lookup_own_in in El. destruct Hk. apply list_elem_of_In.
      apply (in_map fst) in El. exact El. }
    exists o'. split; [reflexivity|]. split; [exact Hnd'|]. split; [exact Hall'|]. split.
    + intros key field Hin. rewrite (Hs' key field Hin), (Hs1 key field Hin).
      cbn [lookup_own]. destruct (String.eqb key k) eqn:Ek.
      * now rewrite (Hfresh key Ek).
      * reflexivity.
    + cbn [lookup_own]. rewrite String.eqb_sym. destruct (String.eqb k "ENDPOINTS") eqn:Ek.
      * rewrite String.eqb_sym in Ek. rewrite (Hfresh _ Ek) in He'.
        destruct He1 as (e & Hp & Hl). exists sv, e. repeat split; congruence.
      * destruct (lookup_own es "ENDPOINTS"); [exact He'|congruence].
Qed.

(** What [loadOverrides] returns, in terms of the two stores. *)
Lemma loadOverrides_spec (script user : list (string * string)) (r : value) :
  Config.loadOverrides script user = Ok r ->
  exists o,
    r = VObj o
    /\ NoDup (map fst o)
    /\ Forall (fun e => fst e = "endpoints" \/ exists s, snd e = VStr s) o
    /\ (forall key field, In (key, field) settings ->
          lookup_own o field = option_map VStr (property script user key))
    /\ match property script user "ENDPOINTS" with
       | Some s => exists e, JSON_parse s = Some e /\ lookup_own o "endpoints" = Some e
       | None => lookup_own o "endpoints" = None
       end.
Proof.
  unfold Config.loadOverrides.
  destruct (all_properties_spec script user) as (ps & Eps & Hnd & Hstr & Hl).
  rewrite Eps. cbn [obind own_entries]. intros E.
  destruct (override_entries_spec ps [] r Hnd Hstr ltac:(constructor) ltac:(constructor) E)
    as (o & -> & Hndo & Hallo & Hs & He).
  exists o. split; [reflexivity|]. split; [exact Hndo|]. split; [exact Hallo|]. split.
  - intros key field Hin. rewrite (Hs key field Hin).
    assert (Hkey : key <> "__proto__").
    { cbn in Hin. repeat (destruct Hin as [Hin|Hin]; [injection Hin as <- _; discriminate|]).
      destruct Hin. }
    rewrite (Hl key Hkey). now destruct (property script user key).
  - rewrite (Hl "ENDPOINTS" ltac:(discriminate)) in He.
    destruct (property script user "ENDPOINTS") as [s|]; cbn [option_map] in He.
    + destruct He as (s' & e & Hv & Hp & Hlo). injection Hv as <-. eauto.
    + exact He.
Qed.

End Settings.

(** A string given for a field replaces the default; a field no
    override names keeps it. *)
Lemma merge_entries_settings (o d mr : list (string * value)) (f : string) :
  NoDup (map fst o) ->
  f <> "__proto__" ->
  Config.merge_entries o (VObj d) = Ok (VObj mr) ->
  lookup_own mr f
  = match lookup_own o f with
    | Some (VStr s) => Some (VStr s)
    | Some _ => lookup_own mr f
    | None => lookup_own d f
    end.
Proof.
  intros Hnd Hf E. destruct (lookup_own o f) as [v|] eqn:El.
  - destruct v; try reflexivity.
    apply lookup_own_in in El.
    destruct (merge_entries_at o d mr f (VStr s) Hnd El E) as (a & a1 & Ea & _ & Hr).
    rewrite Hr. cbn [Config.merge_entry] in Ea.
    destruct (set_prop_effect a f (VStr s) (VObj a1) Ea) as (a1' & Ha1 & _ & Hsame & _).
    injection Ha1 as <-. destruct Hsame as [Hs|[Hp _]]; [exact Hs|contradiction].
  - apply lookup_own_none in El. now apply (merge_entries_frame o d mr f).
Qed.

Section BuiltSettings.
Context `{Host}.

(** The pieces of a construction that succeeded. *)
Lemma build_config_parts (script user : list (string * string)) (cfg : value) :
  Config.build_config script user = Ok cfg ->
  exists o mr,
    Config.loadOverrides script user = Ok (VObj o)
    /\ cfg = VObj mr
    /\ Config.merge_entries o Config.DEFAULTS = Ok (VObj mr)
    /\ valid cfg = true.
Proof.
  unfold Config.build_config. intros E.
  destruct (Config.loadOverrides script user) as [r| |] eqn:El; cbn [obind] in E;
    try discriminate E.
  destruct (loadOverrides_object script user r El) as [o ->].
  destruct (Config.mergeConfig Config.DEFAULTS (VObj o)) as [merged| |] eqn:Em;
    cbn [obind] in E; try discriminate E.
  destruct (Config.validate merged) as [[]| |] eqn:Ev; cbn [obind] in E; try discriminate E.
  injection E as <-.
  rewrite mergeConfig_entries, (json_clone_id _ DEFAULTS_json_like) in Em. cbn [obind] in Em.
  destruct (merge_entries_object _ _ _ Em) as [mr ->].
  exists o, mr. repeat split; try assumption.
  now apply (proj1 (validate_spec (VObj mr))).
Qed.

(** Each string setting of a configuration that was built. *)
Lemma build_config_field (script user : list (string * string)) (cfg : value)
  (key field : string) :
  Config.build_config script user = Ok cfg ->
  In (key, field) settings ->
  get cfg field
  = match property script user key with
    | Some v => VStr v
    | None => get Config.DEFAULTS field
    end.
Proof.
  intros E Hin.
  destruct (build_config_parts script user cfg E) as (o & mr & El & -> & Em & _).
  destruct (loadOverrides_spec script user (VObj o) El) as (o' & Ho & Hnd & _ & Hs & _).
  injection Ho as <-.
  assert (Hf : field <> "__proto__").
  { cbn in Hin. repeat (destruct Hin as [Hin|Hin]; [injection Hin as _ <-; discriminate|]).
    destruct Hin. }
  cbn [get]. unfold Config.DEFAULTS in Em.
  rewrite (merge_entries_settings o _ mr field Hnd Hf Em), (Hs key field Hin).
  destruct (property script user key); reflexivity.
Qed.

(** X17. Each of the six string settings of a configuration that was
    built is the user property of its name when there is one, the script
    property otherwise, and the default when neither store has it. *)
Theorem build_config_settings (script user : list (string * string)) (cfg : value) :
  Config.build_config script user = Ok cfg ->
  forall key field, In (key, field) settings ->
    get cfg field
    = match stored user key, stored script key with
      | Some v, _ => VStr v
      | None, Some v => VStr v
      | None, None => get Config.DEFAULTS field
      end.
Proof.
  intros E key field Hin. rewrite (build_config_field script user cfg key field E Hin).
  unfold property. destruct (stored user key); [reflexivity|].
  destruct (stored script key); reflexivity.
Qed.

(** X18. Without a non-empty [API_KEY] in one of the stores no
    configuration is built: the default key is empty and [validate]
    refuses it (when nothing fails before). *)
Theorem build_config_requires_api_key (script user : list (string * string)) :
  property script user "API_KEY" = None \/ property script user "API_KEY" = Some "" ->
  is_ok (Config.build_config script user) = false.
Proof.
  intros Hkey. destruct (Config.build_config script user) as [cfg| |] eqn:E; try reflexivity.
  exfalso.
  pose proof (build_config_field script user cfg "API_KEY" "apiKey" E
                ltac:(cbn; tauto)) as Hf.
  destruct (build_config_parts script user cfg E) as (o & mr & _ & -> & _ & Hv).
  unfold valid, fields_valid in Hv.
  assert (Hk : get (VObj mr) "apiKey" = VStr "").
  { rewrite Hf. destruct Hkey as [->| ->]; reflexivity. }
  rewrite Hk in Hv. cbn [Config.nonempty_string truthy String.eqb negb andb] in Hv.
  rewrite !andb_false_r in Hv. discriminate Hv.
Qed.

End BuiltSettings.

Lemma build_config_settings_witness :
  get Sample2.built "sheetName" = VStr "Mine"
  /\ get Sample2.built "apiKey" = VStr "secret"
  /\ get Sample2.built "triggerName" = VStr "PetSync_FetchData".
Proof.
  pose proof (@build_config_settings Sample.host Sample2.script_store Sample2.user_store
                Sample2.built eq_refl) as Hs.
  split; [|split].
  - exact (Hs "SHEET_NAME" "sheetName" ltac:(cbn; tauto)).
  - exact (Hs "API_KEY" "apiKey" ltac:(cbn; tauto)).
  - exact (Hs "TRIGGER_NAME" "triggerName" ltac:(cbn; tauto)).
Defined.

Lemma build_config_requires_api_key_witness :
  is_ok (@Config.build_config Sample.host [ ("SHEET_NAME", "Animals") ] [ ("API_KEY", "") ])
  = false.
Proof.
  exact (@build_config_requires_api_key Sample.host [ ("SHEET_NAME", "Animals") ]
           [ ("API_KEY", "") ] (or_intror eq_refl)).
Defined.

(** ** The endpoints of a configuration that was built *)

Lemma set_prop_plain (m : list (string * value)) (k : string) (v : value) :
  k <> "__proto__" -> exists m', set_prop (VObj m) k v = Ok (VObj m').
Proof.
  intros Hk. unfold set_prop. destruct (has_own m k); [eauto|].
  destruct (String.eqb k "__proto__") eqn:E; [|eauto].
  apply String.eqb_eq in E. contradiction.
Qed.

(** Merging never removes a property. *)
Lemma merge_entry_has_own (recur : value -> outcome value) (a a1 : list (string * value))
  (key k : string) (ov : value) :
  Config.merge_entry recur (VObj a) key ov = Ok (VObj a1) ->
  has_own a k = true -> has_own a1 k = true.
Proof.
  intros E Hk. destruct (value_eq_undefined ov) as [->|Hov].
  - rewrite merge_entry_undefined in E. now injection E as <-.
  - destruct (merge_entry_cases recur (VObj a) key ov (VObj a1) E Hov)
      as (m & x & Hm & _ & Es).
    injection Hm as <-.
    destruct (set_prop_effect a key x (VObj a1) Es) as (a1' & Ha1 & Hother & Hsame & _).
    injection Ha1 as <-. unfold has_own in *.
    destruct (String.eqb k key) eqn:Ek.
    + apply String.eqb_eq in Ek. subst k.
      destruct Hsame as [->|(_ & _ & -> & _)]; [reflexivity|exact Hk].
    + rewrite Hother; [exact Hk|]. intros ->. now rewrite String.eqb_refl in Ek.
Qed.

Lemma merge_entries_has_own (ps a b : list (string * value)) (k : string) :
  Config.merge_entries ps (VObj a) = Ok (VObj b) ->
  has_own a k = true -> has_own b k = true.
Proof.
  revert a. induction ps as [|[key ov] ps IH]; intros a E Hk.
  - cbn in E. now injection E as <-.
  - cbn [Config.merge_entries] in E.
    destruct (Config.merge_entry _ (VObj a) key ov) as [r1| |] eqn:E1; cbn [obind] in E;
      try discriminate E.
    destruct (merge_entry_object _ _ _ _ _ E1) as [a1 ->].
    apply (IH a1 E). exact (merge_entry_has_own _ _ _ _ _ _ E1 Hk).
Qed.

(** A [null] given for [endpoints] stops the merge. *)
Lemma merge_entries_null (o a : list (string * value)) (d : value) :
  Forall (fun e => fst e = "endpoints" \/ exists s, snd e = VStr s) o ->
  lookup_own o "endpoints" = Some VNull ->
  lookup_own a "endpoints" = Some d ->
  truthy d = true ->
  Config.merge_entries o (VObj a)
  = Throw (Err "TypeError" "Cannot convert undefined or null to object").
Proof.
  revert a. induction o as [|[k v] o IH]; intros a Hall Ho Ha Hd; [discriminate Ho|].
  apply List.Forall_cons_iff in Hall. destruct Hall as [Hh Hall].
  cbn [lookup_own] in Ho. cbn [Config.merge_entries].
  destruct (String.eqb "endpoints" k) eqn:Ek.
  - apply String.eqb_eq in Ek. subst k. injection Ho as ->.
    cbn [Config.merge_entry]. unfold Config.read_dyn. rewrite Ha, Hd.
    destruct d; try discriminate Hd; reflexivity.
  - cbn [fst snd] in Hh. destruct Hh as [->|[s ->]]; [discriminate Ek|].
    cbn [Config.merge_entry].
    destruct (set_prop_string a k s) as [a1 E1]. rewrite E1. cbn [obind].
    apply (IH a1 Hall Ho); [|exact Hd].
    destruct (set_prop_effect a k (VStr s) (VObj a1) E1) as (a1' & Ha1 & Hother & _).
    injection Ha1 as <-. rewrite Hother; [exact Ha|].
    intros E. rewrite E, String.eqb_refl in Ek. discriminate Ek.
Qed.

Section Endpoints.
Context `{Host}.

(** The loop of [loadOverrides] fails on one thing only. *)
Lemma override_entries_total (es o : list (string * value)) :
  Forall (fun e => exists s, snd e = VStr s) es ->
  (forall s, In ("ENDPOINTS", VStr s) es -> JSON_parse s <> None) ->
  exists o', Config.override_entries (VObj o) es = Ok (VObj o').
Proof.
  revert o. induction es as [|[k v] es IH]; intros o Hstr Hp; [cbn; eauto|].
  apply List.Forall_cons_iff in Hstr. destruct Hstr as [[sv Hv] Hstr]. cbn [snd] in Hv.
  subst v. cbn [Config.override_entries].
  assert (E1 : exists o1, Config.override_entry (VObj o) k (VStr sv) = Ok (VObj o1)).
  { unfold Config.override_entry.
    repeat match goal with
           | |- exists _, (if String.eqb k ?lit then _ else _) = _ =>
               destruct (String.eqb k lit) eqn:?
           end;
      try (apply set_prop_plain; discriminate); [|eauto].
    cbn [ToString to_string obind].
    destruct (JSON_parse sv) as [e|] eqn:Ep.
    - apply set_prop_plain. discriminate.
    - exfalso. apply (Hp sv); [|exact Ep]. left.
      match goal with E : String.eqb k "ENDPOINTS" = true |- _ =>
        apply String.eqb_eq in E; now rewrite E end. }
  destruct E1 as [o1 ->]. cbn [obind]. apply IH; [exact Hstr|].
  intros s Hin. apply Hp. now right.
Qed.

(** X19. An [ENDPOINTS] property holding the JSON text of [null] is
    accepted by the reader and then stops the construction with a
    TypeError of the runtime, not with a message about the
    configuration. *)
Theorem build_config_endpoints_null (script user : list (string * string)) :
  endpoints_override script user = Some VNull ->
  Config.build_config script user
  = Throw (Err "TypeError" "Cannot convert undefined or null to object").
Proof.
  unfold endpoints_override. intros Hnull.
  destruct (property script user "ENDPOINTS") as [s|] eqn:Hprop; [|discriminate Hnull].
  destruct (all_properties_spec script user) as (ps & Eps & Hnd & Hstr & Hl).
  assert (Hload : exists o, Config.loadOverrides script user = Ok (VObj o)).
  { unfold Config.loadOverrides. rewrite Eps. cbn [obind own_entries].
    apply override_entries_total; [exact Hstr|].
    intros s' Hin. apply (lookup_own_nodup ps _ _ Hnd) in Hin.
    rewrite (Hl "ENDPOINTS" ltac:(discriminate)), Hprop in Hin.
    injection Hin as <-. congruence. }
  destruct Hload as [o El].
  destruct (loadOverrides_spec script user (VObj o) El) as (o' & Ho & _ & Hall & _ & He).
  injection Ho as <-. rewrite Hprop in He. destruct He as (e & Hp & Hlo).
  assert (e = VNull) by congruence. subst e.
  unfold Config.build_config. rewrite El. cbn [obind].
  rewrite mergeConfig_entries, (json_clone_id _ DEFAULTS_json_like). cbn [obind].
  unfold Config.DEFAULTS.
  erewrite merge_entries_null; [reflexivity|exact Hall|exact Hlo|reflexivity|reflexivity].
Qed.

(** X20. In a configuration that was built, a JSON object given under
    [ENDPOINTS] has been merged into the default endpoints: it may add
    endpoints and redirect the two defaults, it cannot remove them (nor
    can any other JSON text that is not an array).  A JSON array replaces
    the defaults as a whole. *)
Theorem build_config_endpoints (script user : list (string * string)) (cfg : value) :
  Config.build_config script user = Ok cfg ->
  match endpoints_override script user with
  | Some (VArr l) => get cfg "endpoints" = VArr l
  | _ =>
      exists m,
        get cfg "endpoints" = VObj m
        /\ has_own m "fetchPets" = true /\ has_own m "fetchOwners" = true
  end.
Proof.
  intros E.
  destruct (build_config_parts script user cfg E) as (o & mr & El & -> & Em & Hv).
  destruct (loadOverrides_spec script user (VObj o) El) as (o' & Ho & Hnd & _ & _ & He).
  injection Ho as <-. unfold endpoints_override.
  set (dE := VObj [ ("fetchPets", VStr "/pets"); ("fetchOwners", VStr "/owners") ]).
  assert (Hdef : lookup_own
                   (match Config.DEFAULTS with VObj d => d | _ => [] end) "endpoints"
                 = Some dE) by reflexivity.
  unfold Config.DEFAULTS in Em, Hdef. cbn [get].
  destruct (property script user "ENDPOINTS") as [s|].
  2: { rewrite (merge_entries_frame o _ mr "endpoints" Em) by now apply lookup_own_none.
       rewrite Hdef. exists [ ("fetchPets", VStr "/pets"); ("fetchOwners", VStr "/owners") ].
       repeat split. }
  destruct He as (e & -> & Hlo).
  apply lookup_own_in in Hlo.
  destruct (merge_entries_at o _ mr "endpoints" e Hnd Hlo Em) as (a & a1 & Ea & Hla & Hlr).
  rewrite Hdef in Hla. rewrite Hlr.
  assert (Hprim : set_prop (VObj a) "endpoints" e = Ok (VObj a1) ->
                  lookup_own a1 "endpoints" = Some e).
  { intros Es. destruct (set_prop_effect a "endpoints" e (VObj a1) Es)
      as (a1' & Ha1 & _ & Hsame & _).
    injection Ha1 as <-. destruct Hsame as [Hs|[Hp _]]; [exact Hs|discriminate Hp]. }
  assert (Hbad : lookup_own a1 "endpoints" = Some e -> endpoints_valid e = false -> False).
  { intros Hl1 Hbad. unfold valid in Hv. cbn [get] in Hv.
    rewrite Hlr, Hl1, Hbad, andb_false_r in Hv. discriminate Hv. }
  destruct e as [| |b|n|t|l|eo].
  - (* undefined: nothing is written *)
    rewrite merge_entry_undefined in Ea. injection Ea as <-. rewrite Hla.
    exists [ ("fetchPets", VStr "/pets"); ("fetchOwners", VStr "/owners") ]. repeat split.
  - (* null *)
    exfalso. cbn [Config.merge_entry] in Ea. unfold Config.read_dyn in Ea.
    rewrite Hla in Ea. discriminate Ea.
  - exfalso. apply Hbad; [apply Hprim; exact Ea|reflexivity].
  - exfalso. apply Hbad; [apply Hprim; exact Ea|reflexivity].
  - exfalso. apply Hbad; [apply Hprim; exact Ea|reflexivity].
  - now rewrite (Hprim Ea).
  - cbn [Config.merge_entry] in Ea. unfold Config.read_dyn in Ea. rewrite Hla in Ea.
    cbn [truthy dE] in Ea.
    destruct (Config.mergeConfig dE (VObj eo)) as [r| |] eqn:Er; cbn [obind] in Ea;
      try discriminate Ea.
    destruct (set_prop_effect a "endpoints" r (VObj a1) Ea) as (a1' & Ha1 & _ & Hsame & _).
    injection Ha1 as <-.
    destruct Hsame as [Hs|[Hp _]]; [|discriminate Hp]. rewrite Hs.
    rewrite mergeConfig_entries in Er. cbn [json_clone json_value dE map obind] in Er.
    destruct (merge_entries_object _ _ _ Er) as [rm ->].
    exists rm. split; [reflexivity|].
    split; apply (merge_entries_has_own _ _ _ _ Er); reflexivity.
Qed.

(** What [valid] says of a plain object makes every check of the
    self-test pass. *)
Lemma assign_strings_total (es m : list (string * value)) :
  forallb (fun e => slash_path (snd e)) es = true ->
  exists m', Config.assign_entries (VObj m) es = Ok (VObj m').
Proof.
  revert m. induction es as [|[k v] es IH]; intros m Hes; [cbn; eauto|].
  cbn [forallb snd] in Hes. apply andb_true_iff in Hes. destruct Hes as [Hv Hes].
  destruct v; try discriminate Hv. cbn [Config.assign_entries].
  destruct (set_prop_string m k s) as [m1 ->]. cbn [obind]. now apply IH.
Qed.

Lemma nonempty_string_truthy (v : value) :
  Config.nonempty_string v = true -> truthy v = true.
Proof. unfold Config.nonempty_string. intros Hv. now apply andb_true_iff in Hv. Qed.

(** X21. The self-test that runs when Config.gs is loaded cannot fail
    once the configuration is built: what [validate] accepted has the
    fields the test looks for, and both accessors it calls return. *)
Theorem testConfig_passes (script user : list (string * string)) (cfg : value) :
  Config.build_config script user = Ok cfg ->
  Config.testConfig cfg = Ok tt
  /\ is_ok (Config.getApiConfig cfg) = true
  /\ is_ok (Config.getSheetRanges cfg) = true.
Proof.
  intros E.
  destruct (build_config_parts script user cfg E) as (o & mr & _ & -> & _ & Hv).
  unfold valid in Hv. apply andb_true_iff in Hv. destruct Hv as [Hf He].
  unfold fields_valid in Hf.
  apply andb_true_iff in Hf. destruct Hf as [Hf Htrigger].
  apply andb_true_iff in Hf. destruct Hf as [Hf Hincremental].
  apply andb_true_iff in Hf. destruct Hf as [Hf Hfull].
  apply andb_true_iff in Hf. destruct Hf as [Hf Hsheet].
  apply andb_true_iff in Hf. destruct Hf as [Hf Hkey].
  assert (Hcopy : exists copy,
             Config.object_assign (VObj []) (get (VObj mr) "endpoints") = Ok (VObj copy)).
  { unfold Config.object_assign, endpoints_valid in *.
    destruct (get (VObj mr) "endpoints"); try discriminate He;
      now apply assign_strings_total. }
  destruct Hcopy as [copy Hcopy].
  assert (Hapi : Config.getApiConfig (VObj mr)
                 = Ok (VObj [ ("apiUrl", get (VObj mr) "apiUrl");
                              ("apiKey", get (VObj mr) "apiKey");
                              ("endpoints", VObj copy) ])).
  { unfold Config.getApiConfig. cbn [read obind]. now rewrite Hcopy. }
  assert (Hurl : truthy (get (VObj mr) "apiUrl") = true).
  { destruct (get (VObj mr) "apiUrl") as [| | | |u| |]; try discriminate Hf.
    destruct u; [discriminate Hf|reflexivity]. }
  assert (Hranges : Config.getSheetRanges (VObj mr)
                    = Ok (VObj [ ("sheetName", get (VObj mr) "sheetName");
                                 ("fullRefreshRange", get (VObj mr) "fullRefreshRange");
                                 ("incrementalRefreshRange",
                                  get (VObj mr) "incrementalRefreshRange");
                                 ("incrementalRange",
                                  get (VObj mr) "incrementalRefreshRange") ]))
    by reflexivity.
  split; [|split].
  - unfold Config.testConfig. rewrite Hapi, Hranges. cbn [obind].
    remember (get (VObj mr) "apiUrl") as url.
    remember (get (VObj mr) "apiKey") as key.
    remember (get (VObj mr) "sheetName") as sheetName.
    remember (get (VObj mr) "fullRefreshRange") as full.
    remember (get (VObj mr) "incrementalRefreshRange") as incremental.
    cbn [get lookup_own String.eqb Ascii.eqb Bool.eqb].
    now rewrite Hurl, (nonempty_string_truthy _ Hkey), (nonempty_string_truthy _ Hsheet),
      (nonempty_string_truthy _ Hfull), (nonempty_string_truthy _ Hincremental).
  - now rewrite Hapi.
  - now rewrite Hranges.
Qed.

End Endpoints.

Lemma build_config_endpoints_null_witness :
  @Config.build_config Sample2.null_host [ ("API_KEY", "secret"); ("ENDPOINTS", "null") ] []
  = Throw (Err "TypeError" "Cannot convert undefined or null to object").
Proof.
  exact (@build_config_endpoints_null Sample2.null_host
           [ ("API_KEY", "secret"); ("ENDPOINTS", "null") ] [] eq_refl).
Defined.

Lemma build_config_endpoints_witness :
  exists m,
    get Sample2.built "endpoints" = VObj m
    /\ has_own m "fetchPets" = true /\ has_own m "fetchOwners" = true.
Proof.
  exact (@build_config_endpoints Sample.host Sample2.script_store Sample2.user_store
           Sample2.built eq_refl).
Defined.

Lemma testConfig_passes_witness :
  Config.testConfig Sample2.built = Ok tt.
Proof.
  exact (proj1 (@testConfig_passes Sample.host Sample2.script_store Sample2.user_store
                  Sample2.built eq_refl)).
Defined.

(** ** What [_getRawConfig] gives away *)

Module ShallowFacts.
Import Frozen.

Lemma field_replace_field (fs : list (string * hval)) (k : string) (v : hval) :
  has_field fs k = true -> field (replace_field fs k v) k = v.
Proof.
  induction fs as [|[k' v'] fs IH]; [discriminate|]. cbn [has_field replace_field].
  destruct (String.eqb k k') eqn:Ek; cbn [field]; rewrite Ek; [reflexivity|].
  cbn [orb]. exact IH.
Qed.

Lemma field_app_new (fs : list (string * hval)) (k : string) (v : hval) :
  has_field fs k = false -> field (fs ++ [(k, v)]) k = v.
Proof.
  induction fs as [|[k' v'] fs IH]; cbn [has_field app field].
  - now rewrite String.eqb_refl.
  - destruct (String.eqb k k'); [discriminate|]. exact IH.
Qed.

Lemma write_field_field (fs fs' : list (string * hval)) (k s : string) :
  k <> "__proto__" ->
  write_field fs k (HPrim (PStr s)) = Some fs' ->
  field fs' k = HPrim (PStr s).
Proof.
  intros Hk. unfold write_field. destruct (has_field fs k) eqn:Eh.
  - intros E. injection E as <-. now apply field_replace_field.
  - destruct (String.eqb k "__proto__") eqn:Ep.
    + apply String.eqb_eq in Ep. contradiction.
    + intros E. injection E as <-. now apply field_app_new.
Qed.

Lemma write_field_string (fs : list (string * hval)) (k s : string) :
  exists fs', write_field fs k (HPrim (PStr s)) = Some fs'.
Proof.
  unfold write_field. destruct (has_field fs k); [eauto|].
  destruct (String.eqb k "__proto__"); eauto.
Qed.

(** X22. [Object.freeze] is shallow and [_getRawConfig] returns
    [_config] itself: whoever calls it can reach the object behind
    [endpoints] and write on it.  After the three steps -- take the raw
    configuration, read its [endpoints], set an entry -- the
    configuration's own endpoints object (a plain object here) holds the
    new path, while the frozen root is as it was. *)
Theorem raw_config_endpoints_writable (cfg : value) (st0 : state) (k path : string) :
  construct cfg = Some st0 ->
  isArray (get cfg "endpoints") = false ->
  k <> "__proto__" ->
  exists st e0 e1,
    run [ GetRawConfig; ReadField root "endpoints";
          WriteField endpoints_loc k (HPrim (PStr path)) ] st0 = Some st
    /\ heap st0 !! endpoints_loc = Some e0
    /\ heap st !! endpoints_loc = Some e1
    /\ is_array e1 = false
    /\ field (fields e1) k = HPrim (PStr path)
    /\ heap st !! root = heap st0 !! root.
Proof.
  intros Hc Harr Hk. unfold construct in Hc.
  destruct cfg as [| | | | | |props]; try discriminate Hc.
  destruct (lookup_own props "endpoints") as [e|] eqn:El; [|discriminate Hc].
  cbn [get] in Harr. rewrite El in Harr.
  assert (Hshape : exists rf ef,
             root_fields props = Some rf
             /\ st0 = {| heap := <[root := {| frozen := true; is_array := false;
                                              fields := rf |}]>
                                   (<[endpoints_loc := {| frozen := false; is_array := false;
                                                          fields := ef |}]> ∅);
                         next := 2; known := ∅ |}).
  { destruct e; try discriminate Hc; try discriminate Harr;
      destruct (root_fields props) as [rf|]; try discriminate Hc;
      destruct (string_fields _) as [ef|]; try discriminate Hc;
      injection Hc as <-; eauto. }
  destruct Hshape as (rf & ef & Hrf & ->).
  pose proof (FrozenFacts.root_fields_endpoints props rf e Hrf El) as Hre.
  destruct (write_field_string ef k path) as [ef' Hw].
  exists {| heap := <[endpoints_loc := {| frozen := false; is_array := false; fields := ef' |}]>
                      (<[root := {| frozen := true; is_array := false; fields := rf |}]>
                         (<[endpoints_loc := {| frozen := false; is_array := false;
                                                fields := ef |}]> ∅));
            next := 2;
            known := {[ endpoints_loc ]} ∪ ({[ root ]} ∪ ∅) |},
    {| frozen := false; is_array := false; fields := ef |},
    {| frozen := false; is_array := false; fields := ef' |}.
  split; [|split; [|split; [|split; [reflexivity|split]]]].
  - cbn [run call learn known heap next].
    rewrite decide_True by set_solver.
    rewrite lookup_insert_eq. cbn [fields]. rewrite Hre. cbn [learn known heap next].
    rewrite decide_True by set_solver.
    rewrite lookup_insert_ne by discriminate. rewrite lookup_insert_eq.
    cbn [frozen fields is_array]. rewrite Hw. reflexivity.
  - cbn [heap]. rewrite lookup_insert_ne by discriminate. apply lookup_insert_eq.
  - cbn [heap]. apply lookup_insert_eq.
  - cbn [fields]. exact (write_field_field ef ef' k path Hk Hw).
  - cbn [heap]. rewrite lookup_insert_ne by discriminate. reflexivity.
Qed.

End ShallowFacts.

Lemma raw_config_endpoints_writable_witness :
  exists st0 st e1,
    Frozen.construct Sample.config = Some st0
    /\ Frozen.run [ Frozen.GetRawConfig; Frozen.ReadField Frozen.root "endpoints";
                    Frozen.WriteField Frozen.endpoints_loc "fetchPets"
                      (Frozen.HPrim (Frozen.PStr "/elsewhere")) ] st0 = Some st
    /\ Frozen.heap st !! Frozen.endpoints_loc = Some e1
    /\ Frozen.field (Frozen.fields e1) "fetchPets" = Frozen.HPrim (Frozen.PStr "/elsewhere").
Proof.
  destruct (Frozen.construct Sample.config) as [st0|] eqn:Ec; [|discriminate Ec].
  destruct (ShallowFacts.raw_config_endpoints_writable Sample.config st0
              "fetchPets" "/elsewhere" Ec eq_refl ltac:(discriminate))
    as (st & e0 & e1 & Hrun & _ & He1 & _ & Hf & _).
  exists st0, st, e1. split; [reflexivity|]. split; [exact Hrun|]. split; assumption.
Defined.

Lemma accessors_never_mutate_witness :
  exists st0 st,
    Frozen.construct Sample.config = Some st0
    /\ Frozen.run [ Frozen.GetRawConfig;
                    Frozen.WriteField Frozen.root "apiKey" (Frozen.HPrim (Frozen.PStr "stolen"));
                    Frozen.DeleteField Frozen.root "endpoints";
                    Frozen.ReadField Frozen.root "endpoints";
                    Frozen.ReadField Frozen.endpoints_loc "fetchPets";
                    Frozen.GetApiConfig ] st0 = Some st
    /\ Frozen.observe st = Frozen.observe st0.
Proof.
  destruct (Frozen.construct Sample.config) as [st0|] eqn:Ec; [|discriminate Ec].
  destruct (RawFacts.accessors_never_mutate Sample.config st0
              [ Frozen.GetRawConfig;
                Frozen.WriteField Frozen.root "apiKey" (Frozen.HPrim (Frozen.PStr "stolen"));
                Frozen.DeleteField Frozen.root "endpoints";
                Frozen.ReadField Frozen.root "endpoints";
                Frozen.ReadField Frozen.endpoints_loc "fetchPets";
                Frozen.GetApiConfig ] Ec eq_refl)
    as (st & Hrun & Hobs).
  exists st0, st. split; [reflexivity|]. split; assumption.
Defined.

Lemma mergeConfig_flat_witness :
  exists merged,
    Config.mergeConfig Config.DEFAULTS
      (VObj [ ("apiKey", VStr "secret"); ("endpoints", VArr [ VStr "/x" ]);
              ("sheetName", VUndefined) ]) = Ok merged
    /\ get merged "apiKey" = VStr "secret"
    /\ get merged "endpoints" = VArr [ VStr "/x" ]
    /\ get merged "sheetName" = VStr "Pets".
Proof.
  destruct (mergeConfig_flat
              [ ("apiUrl", VStr "https://api.example.com/petsync");
                ("apiKey", VStr "");
                ("endpoints", VObj [ ("fetchPets", VStr "/pets");
                                     ("fetchOwners", VStr "/owners") ]);
                ("sheetName", VStr "Pets");
                ("fullRefreshRange", VStr "A2:Z");
                ("incrementalRefreshRange", VStr "A2:Z");
                ("triggerName", VStr "PetSync_FetchData") ]
              [ ("apiKey", VStr "secret"); ("endpoints", VArr [ VStr "/x" ]);
                ("sheetName", VUndefined) ]
              DEFAULTS_json_like
              (distinct_NoDup [ "apiKey"; "endpoints"; "sheetName" ] eq_refl))
    as (merged & Hm & Hf).
  - repeat (apply List.Forall_cons; [split; [reflexivity|discriminate]|]).
    apply List.Forall_nil.
  - exists merged. split; [exact Hm|].
    split; [exact (Hf "apiKey")|]. split; [exact (Hf "endpoints")|exact (Hf "sheetName")].
Defined.

(** ** validateResponse on responses without a shadowing property *)

Lemma has_own_keys (m m' : list (string * value)) (k : string) :
  map fst m = map fst m' -> has_own m k = has_own m' k.
Proof.
  intros Hk. pose proof (has_own_in m k) as H1. pose proof (has_own_in m' k) as H2.
  rewrite Hk in H1. destruct (has_own m k), (has_own m' k); try reflexivity.
  - symmetry. apply H2, H1. reflexivity.
  - apply H1, H2. reflexivity.
Qed.

(** X23. For a response that is a plain object without a property of
    its own called [hasOwnProperty], and required keys that are strings:
    [validateResponse] returns [true] when every key is a property of the
    response and otherwise throws an error naming the first key that is
    not.  Only the names of the properties count: two responses with the
    same property names get the same answer, whatever their values. *)
Theorem validateResponse_presence_only (m : list (string * value)) (keys : list string) :
  has_own m "hasOwnProperty" = false ->
  UtilityService.validateResponse (VObj m) (VArr (map VStr keys))
  = match List.find (fun k => negb (has_own m k)) keys with
    | Some k =>
        Throw (Err "Error" ("validateResponse: missing required key "
                            +:+ dquote +:+ k +:+ dquote))
    | None => Ok (VBool true)
    end
  /\ forall m', map fst m' = map fst m ->
       UtilityService.validateResponse (VObj m') (VArr (map VStr keys))
       = UtilityService.validateResponse (VObj m) (VArr (map VStr keys)).
Proof.
  intros Hs.
  assert (Hrun : forall m0, has_own m0 "hasOwnProperty" = false ->
             UtilityService.validateResponse (VObj m0) (VArr (map VStr keys))
             = match List.find (fun k => negb (has_own m0 k)) keys with
               | Some k =>
                   Throw (Err "Error" ("validateResponse: missing required key "
                                       +:+ dquote +:+ k +:+ dquote))
               | None => Ok (VBool true)
               end).
  { intros m0 H0. unfold UtilityService.validateResponse. cbn [typeof String.eqb negb orb].
    cbn. induction keys as [|k keys IH]; [reflexivity|].
    cbn [map UtilityService.require_keys UtilityService.hasOwnProperty List.find].
    rewrite H0. cbn [ToString to_string obind].
    destruct (has_own m0 k); cbn [negb obind]; [exact IH|reflexivity]. }
  split; [now apply Hrun|].
  intros m' Hk. rewrite (Hrun m Hs), (Hrun m') by now rewrite (has_own_keys m' m _ Hk).
  assert (Hfind : List.find (fun k => negb (has_own m' k)) keys
                  = List.find (fun k => negb (has_own m k)) keys).
  { clear Hrun. induction keys as [|k keys IH]; [reflexivity|]. cbn [List.find].
    rewrite (has_own_keys m' m k Hk). destruct (negb (has_own m k)); [reflexivity|exact IH]. }
  now rewrite Hfind.
Qed.

Lemma validateResponse_presence_only_witness :
  UtilityService.validateResponse (VObj [ ("a", VNull); ("c", VUndefined) ])
    (VArr [ VStr "a"; VStr "b"; VStr "c" ])
  = Throw (Err "Error" ("validateResponse: missing required key " +:+ dquote +:+ "b" +:+ dquote)).
Proof.
  exact (proj1 (validateResponse_presence_only [ ("a", VNull); ("c", VUndefined) ]
                  [ "a"; "b"; "c" ] eq_refl)).
Defined.

(** ** The sidebar *)

Module SidebarFacts.
Import Sidebar.

Lemma in_token_add (x t : string) (l : list string) :
  In x (token_add t l) <-> x = t \/ In x l.
Proof.
  unfold token_add. destruct (existsb (String.eqb t) l) eqn:E.
  - split; [tauto|]. intros [->|Hx]; [|exact Hx].
    apply existsb_exists in E. destruct E as (y & Hy & Ey).
    apply String.eqb_eq in Ey. now subst y.
  - rewrite in_app_iff. cbn. split.
    + intros [Hx|[<-|[]]]; auto.
    + intros [->|Hx]; auto.
Qed.

Lemma in_token_remove (x t : string) (l : list string) :
  In x (token_remove t l) <-> x <> t /\ In x l.
Proof.
  unfold token_remove. rewrite filter_In. rewrite negb_true_iff, String.eqb_neq.
  split; intros [H1 H2]; split; auto.
Qed.

Lemma get_set_same (n v : string) (a : list (string * string)) :
  getAttribute (setAttribute n v a) n = Some v.
Proof.
  induction a as [|[k x] a IH]; cbn [setAttribute getAttribute].
  - now rewrite String.eqb_refl.
  - destruct (String.eqb n k) eqn:E; cbn [getAttribute]; rewrite E; [reflexivity|exact IH].
Qed.

Lemma get_set_other (n v k : string) (a : list (string * string)) :
  k <> n -> getAttribute (setAttribute n v a) k = getAttribute a k.
Proof.
  intros Hk. induction a as [|[k' x] a IH]; cbn [setAttribute getAttribute].
  - apply String.eqb_neq in Hk. now rewrite Hk.
  - destruct (String.eqb n k') eqn:E; cbn [getAttribute].
    + apply String.eqb_eq in E. subst k'. apply String.eqb_neq in Hk. now rewrite Hk.
    + now rewrite IH.
Qed.

Lemma get_remove_same (n : string) (a : list (string * string)) :
  getAttribute (removeAttribute n a) n = None.
Proof.
  unfold removeAttribute. induction a as [|[k x] a IH]; [reflexivity|].
  cbn [List.filter fst]. destruct (String.eqb n k) eqn:E; cbn [negb]; [exact IH|].
  cbn [getAttribute]. now rewrite E.
Qed.

Lemma get_remove_other (n k : string) (a : list (string * string)) :
  k <> n -> getAttribute (removeAttribute n a) k = getAttribute a k.
Proof.
  intros Hk. unfold removeAttribute. induction a as [|[k' x] a IH]; [reflexivity|].
  cbn [List.filter fst getAttribute]. destruct (String.eqb n k') eqn:E; cbn [negb].
  - apply String.eqb_eq in E. subst k'. apply String.eqb_neq in Hk. now rewrite Hk.
  - cbn [getAttribute]. now rewrite IH.
Qed.

(** *** Elements under the helpers *)

Lemma idle_released (n : node) : idle (released n).
Proof.
  unfold idle, released. cbn [disabled classList attributes].
  repeat split.
  - rewrite !in_token_remove. intros (_ & H & _). now apply H.
  - rewrite in_token_remove. intros (H & _). now apply H.
  - apply get_remove_same.
Qed.

Lemma idle_cleared (n : node) : idle n -> idle (cleared n).
Proof.
  unfold idle, cleared. cbn [disabled classList attributes].
  intros (Hd & H1 & H2 & Ha). repeat split; try assumption.
  - rewrite !in_token_remove. tauto.
  - rewrite !in_token_remove. tauto.
  - rewrite get_remove_other by discriminate. exact Ha.
Qed.

Lemma idle_showing (text class state : string) (n : node) :
  class = "ps-success" \/ class = "ps-error" ->
  idle n -> idle (showing text class state n).
Proof.
  unfold idle, showing. cbn [disabled classList attributes].
  intros Hc (Hd & H1 & H2 & Ha). repeat split; try assumption.
  - rewrite in_token_add. intros [E|E]; [|now apply H1].
    destruct Hc as [->| ->]; discriminate E.
  - rewrite in_token_add. intros [E|E]; [|now apply H2].
    destruct Hc as [->| ->]; discriminate E.
  - rewrite get_set_other by discriminate. exact Ha.
Qed.

Lemma shows_showing (text class state : string) (n : node) :
  shows text class state (showing text class state n).
Proof.
  unfold shows, showing. cbn [textContent classList attributes].
  repeat split.
  - apply in_token_add. now left.
  - apply get_set_same.
Qed.

(** A status element that was cleared and then shows an answer carries
    the class of that answer only. *)
Lemma showing_cleared_only (text class state other : string) (n : node) :
  other = "ps-success" \/ other = "ps-error" -> other <> class ->
  ~ In other (classList (showing text class state (cleared n)))
  /\ ~ In other (classList (showing text class state (released (cleared n)))).
Proof.
  intros Ho Hne. unfold showing, released, cleared. cbn [classList].
  rewrite !in_token_add, !in_token_remove.
  destruct Ho as [->| ->]; tauto.
Qed.

(** *** The page under [update] *)

Lemma update_lookup (i k : nat) (f : node -> node) (c : client) (n : node) :
  page c !! i = Some n ->
  page (update i f c) !! k = if decide (k = i) then Some (f n) else page c !! k.
Proof.
  intros Hn. unfold update. rewrite Hn. cbn [page with_page].
  destruct (decide (k = i)) as [->|Hk].
  - apply list_lookup_insert_eq. apply lookup_lt_is_Some_1. eauto.
  - apply list_lookup_insert_ne. congruence.
Qed.

Lemma update_fields (i : nat) (f : node -> node) (c : client) :
  fetchBtn (update i f c) = fetchBtn c
  /\ statusEl (update i f c) = statusEl c
  /\ pending (update i f c) = pending c
  /\ fetch_listener (update i f c) = fetch_listener c.
Proof. unfold update. destruct (page c !! i); repeat split. Qed.

(** The page after a click on the fetch button and the answer to it,
    whichever handler receives the answer. *)
Lemma answer_shown (c0 : client) (i j : nat) (b0 s0 : node) (text class state : string) :
  fetchBtn c0 = Some i -> statusEl c0 = Some j ->
  page c0 !! i = Some b0 -> page c0 !! j = Some s0 ->
  class = "ps-success" \/ class = "ps-error" ->
  let c2 := clearStatus (update i busy c0) in
  let c := update j (showing text class state)
             (update i released (with_pending (pending c2) (with_pending (S (pending c2)) c2))) in
  exists b s,
    page c !! i = Some b /\ idle b
    /\ page c !! j = Some s /\ shows text class state s
    /\ (forall other, other = "ps-success" \/ other = "ps-error" -> other <> class ->
          ~ In other (classList s))
    /\ pending c = pending c0.
Proof.
  intros Hf Hs Hb Hst Hc. cbv zeta.
  unfold clearStatus. rewrite (proj1 (proj2 (update_fields i busy c0))), Hs.
  set (c1 := update i busy c0).
  assert (H1 : forall k, page c1 !! k = if decide (k = i) then Some (busy b0) else page c0 !! k).
  { intros k. now apply update_lookup. }
  set (n1 := if decide (j = i) then busy b0 else s0).
  assert (H1j : page c1 !! j = Some n1).
  { rewrite H1. unfold n1. destruct (decide (j = i)); [reflexivity|exact Hst]. }
  set (c2 := update j cleared c1).
  assert (H2 : forall k, page c2 !! k = if decide (k = j) then Some (cleared n1)
                                        else page c1 !! k).
  { intros k. now apply update_lookup. }
  set (c3 := with_pending (pending c2) (with_pending (S (pending c2)) c2)).
  assert (H3 : forall k, page c3 !! k = page c2 !! k) by reflexivity.
  set (n3 := if decide (i = j) then cleared n1 else busy b0).
  assert (H3i : page c3 !! i = Some n3).
  { rewrite H3, H2. unfold n3. destruct (decide (i = j)); [reflexivity|].
    rewrite H1. now rewrite decide_True. }
  set (c4 := update i released c3).
  assert (H4 : forall k, page c4 !! k = if decide (k = i) then Some (released n3)
                                        else page c3 !! k).
  { intros k. now apply update_lookup. }
  set (n4 := if decide (j = i) then released n3 else cleared n1).
  assert (H4j : page c4 !! j = Some n4).
  { rewrite H4. unfold n4. destruct (decide (j = i)); [reflexivity|].
    rewrite H3, H2. now rewrite decide_True. }
  set (c5 := update j (showing text class state) c4).
  assert (H5 : forall k, page c5 !! k = if decide (k = j) then Some (showing text class state n4)
                                        else page c4 !! k).
  { intros k. now apply update_lookup. }
  assert (Hp : pending c5 = pending c0).
  { unfold c5. rewrite (proj1 (proj2 (proj2 (update_fields _ _ _)))).
    unfold c4. rewrite (proj1 (proj2 (proj2 (update_fields _ _ _)))).
    unfold c3. cbn [pending with_pending]. unfold c2.
    rewrite (proj1 (proj2 (proj2 (update_fields _ _ _)))). unfold c1.
    now rewrite (proj1 (proj2 (proj2 (update_fields _ _ _)))). }
  destruct (decide (i = j)) as [Hij|Hij].
  - subst j. exists (showing text class state n4), (showing text class state n4).
    rewrite H5, decide_True by reflexivity.
    unfold n4, n3. rewrite !decide_True by reflexivity.
    split; [reflexivity|].
    split; [apply idle_showing; [exact Hc|apply idle_released]|].
    split; [reflexivity|]. split; [apply shows_showing|]. split; [|exact Hp].
    intros other Ho Hne. now apply showing_cleared_only.
  - exists (released n3), (showing text class state n4).
    rewrite !H5. rewrite decide_False by exact Hij. rewrite decide_True by reflexivity.
    rewrite H4, decide_True by reflexivity.
    unfold n4. rewrite decide_False by congruence.
    split; [reflexivity|]. split; [apply idle_released|].
    split; [reflexivity|]. split; [apply shows_showing|]. split; [|exact Hp].
    intros other Ho Hne. now apply showing_cleared_only.
Qed.

Lemma first_index_lookup (p : node -> bool) (elements : list node) (i : nat) :
  first_index p elements = Some i -> exists n, elements !! i = Some n /\ p n = true.
Proof.
  revert i. induction elements as [|n elements IH]; intros i; [discriminate|].
  cbn [first_index]. destruct (p n) eqn:Ep.
  - intros E. injection E as <-. now exists n.
  - destruct (first_index p elements) as [i'|]; [|discriminate].
    intros E. injection E as <-. cbn. now apply IH.
Qed.

(** [init] wires what it finds. *)
Lemma init_wired (c : client) (i j : nat) :
  fetchBtn (init c) = Some i -> statusEl (init c) = Some j -> wired (init c) i j.
Proof.
  unfold wired, init. cbn [fetchBtn statusEl fetch_listener page].
  intros Hf Hs. rewrite Hf. repeat split; try assumption.
  - unfold or_else in Hf.
    destruct (getElementById (page c) "ps-fetch-button") as [i'|] eqn:E.
    + injection Hf as <-. apply first_index_lookup in E. destruct E as (n & -> & _). eauto.
    + apply first_index_lookup in Hf. destruct Hf as (n & -> & _). eauto.
  - apply first_index_lookup in Hs. destruct Hs as (n & -> & _). eauto.
Qed.

(** A click and the answer to it, step by step: the handler that
    receives the answer enables the button and then shows [message]. *)
Lemma click_then_answer (c0 : client) (i j : nat) (answer : event)
  (message : value) (class state : string) :
  wired c0 i j ->
  (forall c, fetchBtn c = Some i -> statusEl c = Some j ->
             step answer (with_pending (S (pending c)) c)
             = (c1 <~ enableFetchButton (with_pending (pending c) (with_pending (S (pending c)) c)) ;;
                show message class state j c1)) ->
  let c2 := clearStatus (update i busy c0) in
  run [ ClickFetch; answer ] c0
  = (text <~ ToString message ;;
     Ok (update j (showing text class state)
           (update i released
              (with_pending (pending c2) (with_pending (S (pending c2)) c2))))).
Proof.
  intros (Hf & Hs & Hl & _ & _) Hstep. cbv zeta.
  assert (Hf2 : fetchBtn (clearStatus (update i busy c0)) = Some i).
  { unfold clearStatus. rewrite (proj1 (proj2 (update_fields _ _ _))), Hs.
    now rewrite !(proj1 (update_fields _ _ _)). }
  assert (Hs2 : statusEl (clearStatus (update i busy c0)) = Some j).
  { unfold clearStatus. rewrite (proj1 (proj2 (update_fields _ _ _))), Hs.
    now rewrite !(proj1 (proj2 (update_fields _ _ _))). }
  cbn [run step]. rewrite Hl. unfold handleFetchClick, disableFetchButton.
  rewrite Hf. cbn [obind]. rewrite (Hstep _ Hf2 Hs2).
  unfold enableFetchButton. cbn [fetchBtn with_pending]. rewrite Hf2. cbn [obind].
  unfold show. now destruct (ToString message).
Qed.

(** A click answered by an error, step by step. *)
Lemma fetch_click_run (c0 : client) (i j : nat) (name m : string) :
  wired c0 i j ->
  exists c b s,
    run [ ClickFetch; Failed (Err name m) ] c0 = Ok c
    /\ page c !! i = Some b /\ idle b
    /\ page c !! j = Some s
    /\ shows (if String.eqb m "" then "An error occurred." else m) "ps-error" "error" s
    /\ ~ In "ps-success" (classList s)
    /\ pending c = pending c0.
Proof.
  intros (Hf & Hs & Hl & [b0 Hb] & [s0 Hst]).
  destruct (answer_shown c0 i j b0 s0
              (if String.eqb m "" then "An error occurred." else m) "ps-error" "error"
              Hf Hs Hb Hst ltac:(now right))
    as (b & s & Hbi & Hidle & Hsj & Hshows & Honly & Hp).
  cbv zeta in Hbi, Hsj, Hp.
  eexists _, b, s.
  split; [|split; [exact Hbi|split; [exact Hidle|split; [exact Hsj|split; [exact Hshows|split; [|exact Hp]]]]]].
  - rewrite (click_then_answer c0 i j (Failed (Err name m))
               (VStr (if String.eqb m "" then "An error occurred." else m))
               "ps-error" "error"); [reflexivity|now repeat split; eauto|].
    intros c Hfc Hsc. cbn [step pending with_pending]. unfold onError, enableFetchButton.
    cbn [fetchBtn with_pending]. rewrite Hfc. cbn [obind].
    rewrite (proj1 (proj2 (update_fields _ _ _))). cbn [statusEl with_pending].
    rewrite Hsc. cbn [truthy]. now destruct (String.eqb m "").
  - apply Honly; [now left|discriminate].
Qed.

(** X24. A click on the fetch button that the server answers with an
    error: the handlers run without throwing, the button is usable again
    (enabled, without the two classes of the busy state and without
    [aria-busy]), and the status element shows the message of the error,
    or the fallback text when the message is empty, in the error style
    only -- a success shown before has been cleared. *)
Theorem fetch_click_then_failure (c0 : client) (i j : nat) (name m : string) :
  wired c0 i j ->
  exists c b s,
    run [ ClickFetch; Failed (Err name m) ] c0 = Ok c
    /\ page c !! i = Some b /\ idle b
    /\ page c !! j = Some s
    /\ shows (if String.eqb m "" then "An error occurred." else m) "ps-error" "error" s
    /\ ~ In "ps-success" (classList s)
    /\ pending c = pending c0.
Proof.
  intros Hw. destruct (fetch_click_run c0 i j name m Hw) as (c & b & s & Hrest).
  exists c, b, s. exact Hrest.
Qed.


(** *** No handler meets a missing button *)

Lemma update_more (i : nat) (f : node -> node) (c : client) :
  ready (update i f c) = ready c
  /\ length (page (update i f c)) = length (page c).
Proof.
  unfold update. destruct (page c !! i); [|now split].
  cbn [ready page with_page]. split; [reflexivity|apply length_insert].
Qed.

Lemma steady_show (p : list node) (c : client) (message : value) (class state : string)
  (j : nat) :
  is_ok (ToString message) = true ->
  steady p c ->
  exists c', show message class state j c = Ok c' /\ steady p c'.
Proof.
  intros Hm (H1 & H2 & H3 & H4). unfold show.
  destruct (ToString message) as [text| |]; try discriminate Hm. cbn [obind].
  eexists. split; [reflexivity|].
  unfold steady.
  rewrite (proj1 (update_more _ _ _)), (proj2 (update_more _ _ _)).
  rewrite (proj1 (update_fields _ _ _)).
  rewrite (proj1 (proj2 (proj2 (update_fields _ _ _)))).
  rewrite (proj2 (proj2 (proj2 (update_fields _ _ _)))).
  exact (conj H1 (conj H2 (conj H3 H4))).
Qed.

Lemma steady_enable (p : list node) (c : client) (n : nat) :
  steady p c -> pending c = S n ->
  exists c1,
    enableFetchButton (with_pending n c) = Ok c1
    /\ steady p c1 /\ statusEl c1 = statusEl c.
Proof.
  intros (H1 & H2 & H3 & H4) Hp.
  destruct (H3 ltac:(lia)) as [i Hi].
  assert (Hr : ready c = true).
  { destruct (ready c); [reflexivity|]. destruct (H1 eq_refl) as [_ H0]. lia. }
  unfold enableFetchButton. cbn [fetchBtn with_pending]. rewrite Hi.
  eexists. split; [reflexivity|]. split.
  - unfold steady.
    rewrite (proj1 (update_more _ _ _)), (proj2 (update_more _ _ _)).
    rewrite (proj1 (update_fields _ _ _)).
    rewrite (proj1 (proj2 (proj2 (update_fields _ _ _)))).
    rewrite (proj2 (proj2 (proj2 (update_fields _ _ _)))).
    cbn [ready fetchBtn fetch_listener pending page with_pending].
    rewrite Hr, Hi. repeat split; eauto; discriminate.
  - now rewrite (proj1 (proj2 (update_fields _ _ _))).
Qed.

Lemma steady_step (p : list node) (e : event) (c : client) :
  plain e = true -> steady p c ->
  exists c', step e c = Ok c' /\ steady p c'.
Proof.
  intros He Hc. pose proof Hc as (H1 & H2 & H3 & H4).
  destruct e as [| | |result|error]; cbn [step].
  - (* DOMContentLoaded *)
    destruct (ready c) eqn:Hr; [eauto|].
    destruct (H1 eq_refl) as [Hl Hp].
    eexists. split; [reflexivity|]. unfold steady, init.
    cbn [ready fetch_listener pending fetchBtn page].
    rewrite Hl, Hp. repeat split; try discriminate; try lia; try assumption.
    destruct (or_else _ _); [eauto|discriminate].
  - (* a click on the fetch button *)
    destruct (fetch_listener c) eqn:Hl; [|eauto].
    destruct (H2 eq_refl) as [i Hi].
    unfold handleFetchClick, disableFetchButton. rewrite Hi. cbn [obind].
    eexists. split; [reflexivity|]. unfold steady, clearStatus.
    assert (Hr : ready c = true).
    { destruct (ready c); [reflexivity|]. destruct (H1 eq_refl) as [Hf _]. congruence. }
    destruct (statusEl (update i busy c));
      cbn [ready fetch_listener pending fetchBtn page with_pending];
      rewrite ?(proj1 (update_more _ _ _)), ?(proj2 (update_more _ _ _)),
        ?(proj1 (update_fields _ _ _)), ?(proj2 (proj2 (proj2 (update_fields _ _ _))));
      rewrite Hr, Hi; repeat split; eauto; discriminate.
  - (* a click on the close button *)
    destruct (close_listener c); [|eauto].
    eexists. split; [reflexivity|]. exact Hc.
  - (* the server returned *)
    destruct (pending c) as [|n] eqn:Hp; [eauto|].
    destruct (steady_enable p c n Hc Hp) as (c1 & E1 & Hc1 & Hs1).
    unfold onSuccess. rewrite E1. cbn [obind].
    destruct (statusEl c1) as [j|]; [|eauto].
    apply steady_show; [|exact Hc1].
    unfold plain in He. cbn [answer_message] in He.
    destruct (truthy result && truthy (get result "message")); [exact He|reflexivity].
  - (* the server threw *)
    destruct (pending c) as [|n] eqn:Hp; [eauto|].
    destruct (steady_enable p c n Hc Hp) as (c1 & E1 & Hc1 & Hs1).
    unfold onError. rewrite E1. cbn [obind].
    destruct (statusEl c1) as [j|]; [|eauto].
    unfold plain in He. cbn [answer_message] in He.
    destruct error as [name m|v].
    + cbn [obind]. apply steady_show; [|exact Hc1]. now destruct (truthy (VStr m)).
    + destruct (truthy v) eqn:Ev; cbn [obind].
      * destruct v; try discriminate Ev; cbn [read obind];
          (apply steady_show; [|exact Hc1]);
          match goal with |- context [truthy ?x] => destruct (truthy x) end;
          first [exact He | reflexivity].
      * apply steady_show; [reflexivity|exact Hc1].
Qed.

(** X26. Whatever the page holds and in whatever order the events come,
    no handler throws, as long as the message of every answer can be made
    the text of an element: a click reaches [handleFetchClick] only when
    [init] found the button, an answer arrives only after such a click,
    so the helpers never meet a missing button.  No element is added to
    the page or removed from it. *)
Theorem sidebar_never_throws (p : list node) (es : list event) :
  forallb plain es = true ->
  exists c, run es (loaded p) = Ok c /\ length (page c) = length p.
Proof.
  intros Hes.
  assert (Hrun : forall c, steady p c -> exists c', run es c = Ok c' /\ steady p c').
  { induction es as [|e es IH]; intros c Hc; cbn [run]; [eauto|].
    cbn [forallb] in Hes. apply andb_true_iff in Hes. destruct Hes as [He Hes].
    destruct (steady_step p e c He Hc) as (c1 & -> & Hc1). cbn [obind].
    now apply IH. }
  destruct (Hrun (loaded p)) as (c & Hc & _ & _ & _ & Hlen).
  - unfold steady, loaded. cbn. repeat split; try discriminate; lia.
  - eauto.
Qed.

Section Deployed.
Context `{Host} `{ClientHost}.


End Deployed.

End SidebarFacts.

Lemma fetch_click_then_failure_witness :
  exists c s,
    Sidebar.run [ Sidebar.ClickFetch; Sidebar.Failed (Err "Error" "Invalid API configuration") ]
      Sample2.sidebar0 = Ok c
    /\ Sidebar.page c !! 3%nat = Some s
    /\ Sidebar.shows "Invalid API configuration" "ps-error" "error" s
    /\ ~ In "ps-success" (Sidebar.classList s).
Proof.
  destruct (SidebarFacts.fetch_click_then_failure Sample2.sidebar0 1 3
              "Error" "Invalid API configuration"
              (SidebarFacts.init_wired (Sidebar.loaded Sample2.sidebar_page) 1 3
                 eq_refl eq_refl))
    as (c & b & s & Hrun & _ & _ & Hs & Hshows & Hno & _).
  exists c, s. split; [exact Hrun|split; [exact Hs|split; [exact Hshows|exact Hno]]].
Defined.



Lemma sidebar_never_throws_witness :
  exists c,
    Sidebar.run [ Sidebar.Failed (Err "Error" "early"); Sidebar.ClickFetch;
                  Sidebar.DOMContentLoaded; Sidebar.ClickFetch; Sidebar.ClickFetch;
                  Sidebar.Returned (VObj [ ("rows", VNum 3) ]);
                  Sidebar.Failed (Err "Error" "late"); Sidebar.ClickClose ]
      (Sidebar.loaded Sample2.sidebar_page) = Ok c
    /\ length (Sidebar.page c) = 4%nat.
Proof.
  exact (SidebarFacts.sidebar_never_throws Sample2.sidebar_page
           [ Sidebar.Failed (Err "Error" "early"); Sidebar.ClickFetch;
             Sidebar.DOMContentLoaded; Sidebar.ClickFetch; Sidebar.ClickFetch;
             Sidebar.Returned (VObj [ ("rows", VNum 3) ]);
             Sidebar.Failed (Err "Error" "late"); Sidebar.ClickClose ] eq_refl).
Defined.
